(** * skill-router: the BM25 core (tokenizer, index builder, scorer, selector)

    A shallow embedding of [src/core/keywords.ts] (tokenizer),
    [src/core/indexer.ts] (document frequency, average length, index) and
    [src/core/scorer.ts] (BM25Scorer, scoreQuery), with the properties of
    the specification stated over it; then the rest of the pipeline
    (keyword sections, directory scans, [src/config.ts], and what the
    commands compute), with further properties of the code.

    Modelling conventions.
    - A JavaScript string is a sequence of 8-bit characters (code units
      below 256, read as Latin-1).
    - A JavaScript number is a value of [num]: an exact real, [+Infinity],
      [-Infinity] or [NaN].  Arithmetic on finite values is exact (rounding,
      overflow and the sign of zero are not modelled); the special values
      follow IEEE 754 as JavaScript does (x/0, 0/0, 0*Infinity, ...).
      Numbers that are counts in the source (array lengths, term
      frequencies, document frequencies) are [nat]; [maxResults] is an
      integer [Z]; the remaining configuration numbers and the stored
      average length are finite reals.  A property whose truth depends on
      more than the order of finite values (a score that is a number, that
      is positive, or that is strictly above another) is stated for [k1]
      in a range, at most 1000 and for strict comparisons at least 1/1000,
      in which binary64 arithmetic neither overflows nor absorbs the
      difference, for documents of any length an array can have.
    - A plain JavaScript object used as a map ([Record<string, number>]) is
      its own properties, a [gmap], together with the properties every
      object literal inherits from [Object.prototype]: reading a key means
      reading the own property first and the inherited one otherwise.
    - [Array.prototype.sort] is stable (ECMAScript 2019); it is modelled by
      an insertion sort driven by the comparator of the source. *)

From Stdlib Require Import Reals Lra Lia ZArith List Permutation Sorted Ascii String.
From stdpp Require Import gmap strings list.

Open Scope string_scope.

(** ** JavaScript numbers *)

Module JsNum.

Inductive num : Type :=
| Fin (r : R)
| PInf
| NInf
| NaN.

Definition Rleb (x y : R) : bool := if Rle_dec x y then true else false.
Definition Rltb (x y : R) : bool := if Rlt_dec x y then true else false.
Definition Reqb (x y : R) : bool := if Req_dec_T x y then true else false.

Definition of_nat (n : nat) : num := Fin (INR n).

Definition neg (a : num) : num :=
  match a with
  | Fin x => Fin (- x)
  | PInf => NInf
  | NInf => PInf
  | NaN => NaN
  end.

(** [a + b] *)
Definition add (a b : num) : num :=
  match a, b with
  | NaN, _ => NaN
  | _, NaN => NaN
  | Fin x, Fin y => Fin (x + y)
  | PInf, NInf => NaN
  | NInf, PInf => NaN
  | PInf, _ => PInf
  | NInf, _ => NInf
  | Fin _, PInf => PInf
  | Fin _, NInf => NInf
  end.

(** [a - b] *)
Definition sub (a b : num) : num := add a (neg b).

(** The infinity with the sign of [x] times the sign of [pos]; [NaN] when
    [x] is zero. *)
Definition inf_times (pos : bool) (x : R) : num :=
  if Reqb x 0 then NaN
  else if Bool.eqb pos (Rltb 0 x) then PInf else NInf.

(** [a * b] *)
Definition mul (a b : num) : num :=
  match a, b with
  | NaN, _ => NaN
  | _, NaN => NaN
  | Fin x, Fin y => Fin (x * y)
  | Fin x, PInf => inf_times true x
  | Fin x, NInf => inf_times false x
  | PInf, Fin y => inf_times true y
  | NInf, Fin y => inf_times false y
  | PInf, PInf => PInf
  | NInf, NInf => PInf
  | PInf, NInf => NInf
  | NInf, PInf => NInf
  end.

(** [a / b]; a zero divisor is read as [+0]. *)
Definition div (a b : num) : num :=
  match a, b with
  | NaN, _ => NaN
  | _, NaN => NaN
  | Fin x, Fin y =>
      if Reqb y 0 then
        (if Reqb x 0 then NaN else if Rltb 0 x then PInf else NInf)
      else Fin (x / y)
  | Fin _, PInf => Fin 0
  | Fin _, NInf => Fin 0
  | PInf, Fin y => if Rltb y 0 then NInf else PInf
  | NInf, Fin y => if Rltb y 0 then PInf else NInf
  | PInf, PInf => NaN
  | PInf, NInf => NaN
  | NInf, PInf => NaN
  | NInf, NInf => NaN
  end.

(** [Math.log(a)] *)
Definition log (a : num) : num :=
  match a with
  | Fin x => if Rltb x 0 then NaN else if Reqb x 0 then NInf else Fin (ln x)
  | PInf => PInf
  | NInf => NaN
  | NaN => NaN
  end.

(** [a >= b] *)
Definition geb (a b : num) : bool :=
  match a, b with
  | NaN, _ => false
  | _, NaN => false
  | Fin x, Fin y => Rleb y x
  | PInf, _ => true
  | NInf, NInf => true
  | NInf, _ => false
  | Fin _, NInf => true
  | Fin _, PInf => false
  end.

(** [a <= 0], after the sort's reading of a comparator result, where
    [NaN] counts as [+0]. *)
Definition nonpos_or_nan (a : num) : bool :=
  match a with
  | Fin x => Rleb x 0
  | PInf => false
  | NInf => true
  | NaN => true
  end.

Definition is_fin (a : num) : Prop :=
  match a with Fin _ => True | _ => False end.

Definition num_eq_dec (a b : num) : {a = b} + {a <> b}.
Proof.
  destruct a as [x| | |], b as [y| | |];
    try (left; reflexivity); try (right; discriminate).
  destruct (Req_dec_T x y) as [->|Hne]; [left; reflexivity|].
  right; intros [= Heq]; contradiction.
Defined.

End JsNum.

Import JsNum.

(** ** Strings and insertion-ordered sets *)

(** [s.includes(t)]: [t] occurs in [s] as a contiguous substring. *)
Fixpoint includes (s t : string) : bool :=
  String.prefix t s
  || match s with
     | EmptyString => false
     | String _ s' => includes s' t
     end.

(** [[...new Set(l)]]: the distinct elements of [l] in order of first
    occurrence. *)
Fixpoint uniq (l : list string) : list string :=
  match l with
  | [] => []
  | x :: l' => x :: List.filter (fun y => negb (String.eqb x y)) (uniq l')
  end.

(** ** Tokenizer ([src/core/keywords.ts]) *)

Definition STOPWORDS : list string :=
  [ "a"; "an"; "and"; "are"; "as"; "at"; "be"; "by"; "can"; "do"; "for"; "from";
    "has"; "have"; "he"; "her"; "his"; "how"; "i"; "if"; "in"; "is"; "it"; "its";
    "just"; "may"; "me"; "my"; "no"; "not"; "of"; "on"; "or"; "our"; "out"; "own";
    "say"; "she"; "so"; "some"; "than"; "that"; "the"; "their"; "them"; "then";
    "there"; "these"; "they"; "this"; "those"; "through"; "to"; "too"; "up"; "us";
    "use"; "very"; "was"; "we"; "were"; "what"; "when"; "where"; "which"; "while";
    "who"; "why"; "will"; "with"; "would"; "you"; "your";
    "example"; "see"; "note"; "using"; "used"; "uses" ].

Definition MIN_TOKEN_LENGTH : nat := 2.

Definition in_range (lo hi : nat) (c : ascii) : bool :=
  Nat.leb lo (nat_of_ascii c) && Nat.leb (nat_of_ascii c) hi.

(** [toLowerCase] on one character: A-Z, and the Latin-1 capitals. *)
Definition lower_char (c : ascii) : ascii :=
  if in_range 65 90 c
     || in_range 192 214 c
     || in_range 216 222 c
  then ascii_of_nat (nat_of_ascii c + 32)
  else c.

(** The class [\s] of the regular expressions. *)
Definition is_space (c : ascii) : bool :=
  in_range 9 13 c || Nat.eqb (nat_of_ascii c) 32 || Nat.eqb (nat_of_ascii c) 160.

(** The class [[a-z0-9\s-]]. *)
Definition is_kept (c : ascii) : bool :=
  in_range 97 122 c || in_range 48 57 c || is_space c
  || Nat.eqb (nat_of_ascii c) 45.

Fixpoint map_chars (f : ascii -> ascii) (s : string) : string :=
  match s with
  | EmptyString => EmptyString
  | String c s' => String (f c) (map_chars f s')
  end.

Definition toLowerCase (s : string) : string := map_chars lower_char s.

(** [.replace(/[^a-z0-9\s-]/g, ' ')] *)
Definition replace_punct (s : string) : string :=
  map_chars (fun c => if is_kept c then c else " "%char) s.

(** [.split(/\s+/)]: the pieces between maximal runs of white space; a
    run at either end leaves an empty piece there, and the empty string
    splits into one empty piece.  [cur] is the piece being read, [in_run]
    tells that the previous character was white space. *)
Fixpoint split_ws_from (cur : string) (in_run : bool) (s : string) : list string :=
  match s with
  | EmptyString => [cur]
  | String c s' =>
      if is_space c then
        if in_run then split_ws_from EmptyString true s'
        else cur :: split_ws_from EmptyString true s'
      else split_ws_from (cur ++ String c EmptyString) false s'
  end.

Definition split_ws (s : string) : list string :=
  split_ws_from EmptyString false s.

Definition is_stopword (w : string) : bool :=
  existsb (String.eqb w) STOPWORDS.

Definition words_of (text : string) : list string :=
  List.filter (fun word => Nat.leb MIN_TOKEN_LENGTH (String.length word))
         (split_ws (replace_punct (toLowerCase text))).

Definition tokenize (text : string) : list string :=
  List.filter (fun word => negb (is_stopword word)) (words_of text).

Definition extractUniqueTokens (text : string) : list string :=
  uniq (tokenize text).

Definition tokenizeQuery (message : string) : list string :=
  tokenize message.

(** ** Data model ([src/types.ts]) *)

Record SkillEntry : Type := {
  name : string;
  description : string;
  location : string;
  keywords : list string;
  tokens : list string;
  tools : option (list string);
  alwaysInclude : option bool
}.

(** A value stored under a key of [documentFrequency]: a count, or a value
    that is not a number and whose conversion to a number is [NaN] (a
    function or object inherited from [Object.prototype], or the string
    obtained by appending to its text). *)
Inductive JsVal : Type :=
| JCount (n : nat)
| JOther.

Record SkillIndex : Type := {
  version : nat;
  generated : string;
  skills : list SkillEntry;
  documentFrequency : gmap string JsVal;
  avgDocLength : R
}.

Record ScoringResult : Type := {
  skill : SkillEntry;
  score : num;
  matchedKeywords : list string
}.

(** The fields of [RouterConfig] that [scoreQuery] picks;
    [cfgAlwaysInclude] is its [alwaysInclude], the list of names. *)
Record RouterConfig : Type := {
  maxResults : Z;
  threshold : R;
  bm25K1 : R;
  bm25B : R;
  cfgAlwaysInclude : list string
}.

(** ** Plain objects used as maps *)

(** The property names of [Object.prototype]. *)
Definition object_prototype_keys : list string :=
  [ "constructor"; "__defineGetter__"; "__defineSetter__"; "hasOwnProperty";
    "__lookupGetter__"; "__lookupSetter__"; "isPrototypeOf";
    "propertyIsEnumerable"; "toString"; "valueOf"; "__proto__";
    "toLocaleString" ].

Definition inherited (k : string) : bool :=
  existsb (String.eqb k) object_prototype_keys.

(** [o[k]]: the own property, else the inherited one, else [undefined]
    ([None]). *)
Definition js_get (o : gmap string JsVal) (k : string) : option JsVal :=
  match o !! k with
  | Some v => Some v
  | None => if inherited k then Some JOther else None
  end.

(** [o[k] = v] for a number or string [v]: an own property is created or
    updated, except that writing ["__proto__"] on an object without such an
    own property calls the inherited setter, which ignores [v]. *)
Definition js_set (o : gmap string JsVal) (k : string) (v : JsVal)
  : gmap string JsVal :=
  match o !! k with
  | None => if String.eqb k "__proto__" then o else <[k := v]> o
  | Some _ => <[k := v]> o
  end.

(** [v + 1]: addition on a number, string concatenation otherwise. *)
Definition plus_one (v : JsVal) : JsVal :=
  match v with
  | JCount n => JCount (S n)
  | JOther => JOther
  end.

(** [o[k] ?? 0] *)
Definition get_or_zero (o : gmap string JsVal) (k : string) : JsVal :=
  default (JCount 0) (js_get o k).

(** ** Index builder ([src/core/indexer.ts]) *)

(** [df[term] = (df[term] ?? 0) + 1] *)
Definition bump (df : gmap string JsVal) (term : string) : gmap string JsVal :=
  js_set df term (plus_one (get_or_zero df term)).

Definition allTerms (s : SkillEntry) : list string :=
  uniq (keywords s ++ tokens s).

Definition calculateDocumentFrequency (skills : list SkillEntry)
  : gmap string JsVal :=
  fold_left (fun df s => fold_left bump (allTerms s) df) skills ∅.

Definition getDocLength (s : SkillEntry) : nat :=
  length (keywords s) + length (tokens s).

(** The [reduce] of [calculateAvgDocLength]. *)
Definition totalLength (skills : list SkillEntry) : nat :=
  fold_left (fun sum s => sum + length (keywords s) + length (tokens s))
            skills 0.

Definition calculateAvgDocLength (skills : list SkillEntry) : R :=
  match length skills with
  | O => 0%R
  | S _ => (INR (totalLength skills) / INR (length skills))%R
  end.

(** [buildIndex]: the scanned skills and the time stamp are the inputs
    that the source obtains from the file system and the clock. *)
Definition buildIndex (now : string) (scanned : list SkillEntry) : SkillIndex :=
  {| version := 1;
     generated := now;
     skills := scanned;
     documentFrequency := calculateDocumentFrequency scanned;
     avgDocLength := calculateAvgDocLength scanned |}.

(** ** Sorting and slicing of arrays *)

Section ArrayOps.
Context {A : Type}.

(** [l.sort(cmp)], a stable sort: the elements are inserted from the last
    to the first, and [x] goes in front of the first element [y] with
    [cmp x y <= 0] (a [NaN] result being read as [+0], as the sort does),
    so that elements the comparator does not separate keep their order. *)
Fixpoint sort_insert (cmp : A -> A -> num) (x : A) (l : list A) : list A :=
  match l with
  | [] => [x]
  | y :: l' =>
      if nonpos_or_nan (cmp x y) then x :: y :: l'
      else y :: sort_insert cmp x l'
  end.

Fixpoint js_sort (cmp : A -> A -> num) (l : list A) : list A :=
  match l with
  | [] => []
  | x :: l' => sort_insert cmp x (js_sort cmp l')
  end.

(** [l.slice(0, n)] for an integer [n]: a negative [n] counts from the
    end. *)
Definition slice0 (l : list A) (n : Z) : list A :=
  if (n <? 0)%Z
  then firstn (Z.to_nat (Z.max (Z.of_nat (length l) + n) 0)) l
  else firstn (Z.to_nat n) l.

End ArrayOps.

(** ** BM25 scorer ([src/core/scorer.ts]) *)

(** [ToNumber] of a stored document frequency. *)
Definition to_num (v : JsVal) : num :=
  match v with
  | JCount n => of_nat n
  | JOther => NaN
  end.

Section BM25Scorer.
Variable index : SkillIndex.
Variables k1 b : R.

(** [n] is [documentFrequency[term] ?? 0]; the arithmetic converts it with
    [ToNumber]. *)
Definition calculateIDF (term : string) : num :=
  let N := length (skills index) in
  let n := get_or_zero (documentFrequency index) term in
  match n with
  | JCount O => Fin 0
  | _ =>
      log (add (div (add (sub (of_nat N) (to_num n)) (Fin 0.5))
                    (add (to_num n) (Fin 0.5)))
               (Fin 1))
  end.

Definition getTermFrequency (s : SkillEntry) (term : string) : nat :=
  let count :=
    fold_left (fun count keyword =>
                 if String.eqb keyword term || includes keyword term
                 then count + 2 else count)
              (keywords s) 0 in
  fold_left (fun count token =>
               if String.eqb token term then count + 1 else count)
            (tokens s) count.

(** The body of the loop of [scoreSkill] for one query term, on the
    pair of [score] and [matchedKeywords]. *)
Definition scoreTerm (s : SkillEntry) (acc : num * list string) (term : string)
  : num * list string :=
  let docLength := getDocLength s in
  let tf := getTermFrequency s term in
  if Nat.ltb 0 tf then
    let idf := calculateIDF term in
    let numerator := mul (of_nat tf) (add (Fin k1) (Fin 1)) in
    let denominator :=
      add (of_nat tf)
          (mul (Fin k1)
               (add (sub (Fin 1) (Fin b))
                    (mul (Fin b)
                         (div (of_nat docLength) (Fin (avgDocLength index)))))) in
    (add (fst acc) (mul idf (div numerator denominator)), (snd acc ++ [term])%list)
  else acc.

Definition scoreSkill (s : SkillEntry) (queryTerms : list string) : ScoringResult :=
  let acc := fold_left (scoreTerm s) queryTerms (Fin 0, []) in
  {| skill := s; score := fst acc; matchedKeywords := uniq (snd acc) |}.

(** The comparator [(a, b) => b.score - a.score]. *)
Definition byScoreDesc (x y : ScoringResult) : num := sub (score y) (score x).

Definition scoreAll (query : string) : list ScoringResult :=
  let queryTerms := tokenizeQuery query in
  match queryTerms with
  | [] => []
  | _ :: _ => js_sort byScoreDesc (map (fun s => scoreSkill s queryTerms) (skills index))
  end.
End BM25Scorer.

(** ** Result selector ([scoreQuery]) *)

(** The optional flag [s.alwaysInclude] as a condition: [undefined] and
    [false] fail. *)
Definition truthy (o : option bool) : bool := default false o.

Definition isAlwaysInclude (config : RouterConfig) (s : SkillEntry) : bool :=
  truthy (alwaysInclude s) || existsb (String.eqb (name s)) (cfgAlwaysInclude config).

Definition alwaysIncludeSkills (index : SkillIndex) (config : RouterConfig)
  : list SkillEntry :=
  List.filter (isAlwaysInclude config) (skills index).

Definition allResults (index : SkillIndex) (query : string) (config : RouterConfig)
  : list ScoringResult :=
  scoreAll index (bm25K1 config) (bm25B config) query.

Definition topResults (index : SkillIndex) (query : string) (config : RouterConfig)
  : list ScoringResult :=
  let alwaysIncludeNames := map name (alwaysIncludeSkills index config) in
  let filteredResults :=
    List.filter (fun r => geb (score r) (Fin (threshold config))
                     && negb (existsb (String.eqb (name (skill r))) alwaysIncludeNames))
           (allResults index query config) in
  slice0 filteredResults (maxResults config).

Definition alwaysIncludeResults (index : SkillIndex) (query : string)
  (config : RouterConfig) : list ScoringResult :=
  map (fun s =>
         let existing :=
           find (fun r => String.eqb (name (skill r)) (name s))
                (allResults index query config) in
         default {| skill := s; score := Fin 0; matchedKeywords := [] |} existing)
      (alwaysIncludeSkills index config).

Definition scoreQuery (index : SkillIndex) (query : string) (config : RouterConfig)
  : list ScoringResult :=
  alwaysIncludeResults index query config ++ topResults index query config.

(** * Vocabulary of the properties *)

(** The number of documents that hold [term] among their keywords or
    tokens. *)
Definition containing (term : string) (skills : list SkillEntry) : nat :=
  length (List.filter (fun s => existsb (String.eqb term) (keywords s ++ tokens s))
                      skills).

(** An index whose statistics are those of its documents: the invariant
    of the data model, which [buildIndex] establishes. *)
Definition consistent (idx : SkillIndex) : Prop :=
  documentFrequency idx = calculateDocumentFrequency (skills idx)
  /\ avgDocLength idx = calculateAvgDocLength (skills idx).

(** [t] occurs in [s] as a contiguous substring. *)
Definition is_substring (t s : string) : Prop :=
  exists pre post : string, s = pre ++ t ++ post.

(** The keywords of [s] that the loop of [getTermFrequency] counts for
    [term], and the tokens it counts. *)
Definition keywordHits (s : SkillEntry) (term : string) : nat :=
  length (List.filter (fun keyword => String.eqb keyword term || includes keyword term)
                      (keywords s)).

Definition tokenHits (s : SkillEntry) (term : string) : nat :=
  length (List.filter (fun token => String.eqb token term) (tokens s)).

(** The test [tf > 0] of the loop of [scoreSkill]. *)
Definition matches (s : SkillEntry) (term : string) : bool :=
  Nat.ltb 0 (getTermFrequency s term).

(** The result of a document that no query term overlaps; also the
    result that [scoreQuery] makes up for an always-include document. *)
Definition unmatched (s : SkillEntry) : ScoringResult :=
  {| skill := s; score := Fin 0; matchedKeywords := [] |}.

Definition not_nan (a : num) : Prop := a <> NaN.

(** [x] is ranked at least as high as [y]. *)
Definition desc (x y : ScoringResult) : Prop := geb (score x) (score y) = true.

(** The test [r.score === v]. *)
Definition has_score (v : num) (r : ScoringResult) : bool :=
  if num_eq_dec (score r) v then true else false.

(** Documents are identified by their names. *)
Definition unique_names (idx : SkillIndex) : Prop :=
  List.NoDup (map name (skills idx)).

(** [alwaysIncludeNames.has(s.name)] *)
Definition inAlwaysIncludeSet (idx : SkillIndex) (config : RouterConfig)
  (s : SkillEntry) : bool :=
  existsb (String.eqb (name s)) (map name (alwaysIncludeSkills idx config)).

(** The entry that [scoreQuery] emits for an always-include document. *)
Definition forcedEntry (idx : SkillIndex) (query : string) (config : RouterConfig)
  (s : SkillEntry) : ScoringResult :=
  default {| skill := s; score := Fin 0; matchedKeywords := [] |}
          (find (fun r => String.eqb (name (skill r)) (name s))
                (allResults idx query config)).

(** The results that carry the name of [D]. *)
Definition entriesOf (D : SkillEntry) (results : list ScoringResult)
  : list ScoringResult :=
  List.filter (fun r => String.eqb (name (skill r)) (name D)) results.

(** The entry of the map for a count: none for 0. *)
Definition entry_of_count (c : nat) : option JsVal :=
  match c with
  | O => None
  | S _ => Some (JCount c)
  end.

(** The characters of a term that [tokenize] returns: [[a-z0-9-]]. *)
Definition term_char (c : ascii) : bool :=
  in_range 97 122 c || in_range 48 57 c || Nat.eqb (nat_of_ascii c) 45.

(** Every character of [s] satisfies [p]. *)
Fixpoint all_chars (p : ascii -> bool) (s : string) : bool :=
  match s with
  | EmptyString => true
  | String c s' => p c && all_chars p s'
  end.

(** ** BM25 over the reals *)

(** The IDF formula, for [N] documents of which [n] hold the term. *)
Definition idfR (N n : nat) : R :=
  ln ((INR N - INR n + 0.5) / (INR n + 0.5) + 1).

(** The length normalisation [k1 * (1 - b + b * (docLength / avgDocLength))]. *)
Definition normR (k1 b avg : R) (dl : nat) : R :=
  k1 * (1 - b + b * (INR dl / avg)).

(** The saturated term frequency [tf * (k1 + 1) / (tf + norm)]. *)
Definition bm25R (k1 b avg : R) (dl tf : nat) : R :=
  INR tf * (k1 + 1) / (INR tf + normR k1 b avg dl).

(** * Sample documents, indexes and configurations *)

(** A document with the defaults of the test helper [createMockIndex]. *)
Definition mkSkill (n : string) (kws toks : list string) : SkillEntry :=
  {| name := n; description := "A test skill"; location := "/path/to/skill";
     keywords := kws; tokens := toks; tools := None; alwaysInclude := None |}.

Definition github_pr : SkillEntry :=
  mkSkill "github-pr" ["github"; "pr"; "pull"; "request"] [].

Definition git_commit : SkillEntry :=
  mkSkill "git-commit" ["git"; "commit"; "message"] [].

Definition database : SkillEntry :=
  mkSkill "database" ["database"; "sql"] [].

Definition corpus : SkillIndex :=
  buildIndex "2024-01-01T00:00:00.000Z" [github_pr; git_commit; database].

Definition skill_router : SkillEntry :=
  {| name := "skill-router"; description := "Routes messages to skills";
     location := "/skills/skill-router"; keywords := ["routing"; "router"];
     tokens := ["always"; "included"]; tools := Some ["Bash"];
     alwaysInclude := Some true |}.

(** A corpus with an always-include document. *)
Definition routed_corpus : SkillIndex :=
  buildIndex "2024-01-01T00:00:00.000Z"
             [github_pr; skill_router; git_commit; database].

(** A single document with the keyword "ab". *)
Definition one_doc : SkillEntry := mkSkill "a" ["ab"] [].

Definition one_doc_index : SkillIndex := buildIndex EmptyString [one_doc].

(** The two documents of the test "weighs keywords higher than tokens". *)
Definition keyword_match : SkillEntry := mkSkill "keyword-match" ["github"] [].

Definition token_match : SkillEntry := mkSkill "token-match" [] ["github"].

Definition match_index : SkillIndex := buildIndex EmptyString [keyword_match; token_match].

(** A document whose body mentions the word "constructor". *)
Definition js_classes : SkillEntry :=
  mkSkill "js-classes" ["class"; "constructor"] ["constructor"; "super"].

(** A document about classes; the word "constructor" itself occurs in no
    document. *)
Definition class_patterns : SkillEntry :=
  mkSkill "class-patterns" ["constructors"; "inheritance"] ["constructors"; "classes"].

Definition class_index : SkillIndex := buildIndex EmptyString [class_patterns].

(** [DEFAULT_CONFIG] of [src/types.ts], without the two paths. *)
Definition DEFAULT_CONFIG : RouterConfig :=
  {| maxResults := 3; threshold := 0.3; bm25K1 := 1.2; bm25B := 0.75;
     cfgAlwaysInclude := ["skill-router"] |}.


(** A threshold above any score, and the document "database", which does
    not carry the flag, named in [alwaysInclude]. *)
Definition named_config : RouterConfig :=
  {| maxResults := 3; threshold := 1000; bm25K1 := 1.2; bm25B := 0.75;
     cfgAlwaysInclude := ["database"] |}.

(** Two documents that share the name "a", both with the always-include
    flag, as an index file written by hand can hold them. *)
Definition twin_first : SkillEntry :=
  {| name := "a"; description := "A test skill"; location := "/path/to/first";
     keywords := ["alpha"]; tokens := []; tools := None;
     alwaysInclude := Some true |}.

Definition twin_second : SkillEntry :=
  {| name := "a"; description := "A test skill"; location := "/path/to/second";
     keywords := ["beta"]; tokens := []; tools := None;
     alwaysInclude := Some true |}.

Definition twin_index : SkillIndex := buildIndex EmptyString [twin_first; twin_second].

(** * The rest of the pipeline

    The keyword sections of [src/core/keywords.ts], the directory scans of
    [src/core/indexer.ts], the configuration of [src/config.ts] and what the
    commands of [src/commands] compute from an index.  The file system and
    the environment are inputs: a directory is the list of what
    [readdirSync], [statSync], [existsSync] and the reading of a SKILL.md
    answer for its entries, the environment is the value of each variable. *)

(** ** Keyword sections ([extractKeywordsSection], [extractKeywords]) *)

Definition LF : ascii := "010"%char.
Definition CR : ascii := "013"%char.

(** The line terminators, at which [^] and [$] of a multi-line regular
    expression hold and which [.] does not match. *)
Definition is_line_terminator (c : ascii) : bool :=
  Ascii.eqb c LF || Ascii.eqb c CR.

(** [s.trimStart()], [s.trimEnd()], [s.trim()] *)
Fixpoint trimStart (s : string) : string :=
  match s with
  | EmptyString => EmptyString
  | String c s' => if is_space c then trimStart s' else s
  end.

Fixpoint trimEnd (s : string) : string :=
  match s with
  | EmptyString => EmptyString
  | String c s' =>
      match trimEnd s' with
      | EmptyString => if is_space c then EmptyString else String c EmptyString
      | String d r => String c (String d r)
      end
  end.

Definition trim (s : string) : string := trimEnd (trimStart s).

(** [s.split(sep)] for a separator of one character. *)
Fixpoint split_char (sep : ascii) (s : string) : list string :=
  match s with
  | EmptyString => [EmptyString]
  | String c s' =>
      if Ascii.eqb c sep then EmptyString :: split_char sep s'
      else match split_char sep s' with
           | piece :: rest => String c piece :: rest
           | [] => [String c EmptyString]
           end
  end.

(** The lower-case pattern [t] read at the front of [s] under the flag
    [i]; the rest of [s]. *)
Fixpoint strip_prefix_ci (t s : string) : option string :=
  match t, s with
  | EmptyString, _ => Some s
  | String a t', String c s' =>
      if Ascii.eqb (lower_char c) a then strip_prefix_ci t' s' else None
  | String _ _, EmptyString => None
  end.

(** [\s*\n] at the front of [s]: the greedy [\s*] stops in front of the
    last line feed of the run of white space; the rest of [s] after that
    line feed. *)
Fixpoint after_last_newline (s : string) : option string :=
  match s with
  | EmptyString => None
  | String c s' =>
      if is_space c then
        match after_last_newline s' with
        | Some r => Some r
        | None => if Ascii.eqb c LF then Some s' else None
        end
      else None
  end.

(** [s?] under the flag [i] *)
Definition optional_s (s : string) : string :=
  match s with
  | String c s' => if Ascii.eqb (lower_char c) "s"%char then s' else s
  | EmptyString => s
  end.

(** [##\s*keywords?\s*\n] at the front of [s]. *)
Definition match_header (s : string) : option string :=
  match strip_prefix_ci "##" s with
  | None => None
  | Some s1 =>
      match strip_prefix_ci "keyword" (trimStart s1) with
      | None => None
      | Some s2 => after_last_newline (optional_s s2)
      end
  end.

(** The leftmost position of [s] at which the header matches. *)
Fixpoint find_header (s : string) : option string :=
  match match_header s with
  | Some r => Some r
  | None =>
      match s with
      | EmptyString => None
      | String _ s' => find_header s'
      end
  end.

Definition newline : string := String LF EmptyString.

(** [([\s\S]*?)(?=\n##|\n$|$)]: the shortest text after which the next
    header, the last line feed or the end of the input follows. *)
Fixpoint capture_block (s : string) : string :=
  if String.prefix (String LF "##") s || String.eqb s newline then EmptyString
  else match s with
       | EmptyString => EmptyString
       | String c s' => String c (capture_block s')
       end.

(** [k.trim().toLowerCase()] and the test [k.length >= MIN_TOKEN_LENGTH]. *)
Definition clean (k : string) : string := toLowerCase (trim k).

Definition long_enough (k : string) : bool :=
  Nat.leb MIN_TOKEN_LENGTH (String.length k).

Definition commaKeywords (keywordsBlock : string) : list string :=
  List.filter long_enough (map clean (split_char ","%char keywordsBlock)).

(** The states of a scan for [/^[-*]\s*(.+)$/gm]: at the start of a line,
    inside a line that is no item, behind the marker of an item (in its
    [\s*], which runs over line ends too), and inside the text [cur] of an
    item, which ends at the next line terminator. *)
Inductive LineState : Type :=
| LineStart
| InLine
| AfterMarker
| InItem (cur : string).

Definition is_marker (c : ascii) : bool :=
  Ascii.eqb c "-"%char || Ascii.eqb c "*"%char.

(** The first groups of the matches of [/^[-*]\s*(.+)$/gm] in a trimmed
    block.  A marker with nothing but white space behind it can only be
    the last character of such a block, where [(.+)] has nothing to
    match. *)
Fixpoint listMatches (st : LineState) (s : string) : list string :=
  match s with
  | EmptyString =>
      match st with
      | InItem cur => [cur]
      | _ => []
      end
  | String c s' =>
      match st with
      | LineStart =>
          if is_marker c then listMatches AfterMarker s'
          else if is_line_terminator c then listMatches LineStart s'
          else listMatches InLine s'
      | InLine =>
          if is_line_terminator c then listMatches LineStart s'
          else listMatches InLine s'
      | AfterMarker =>
          if is_space c then listMatches AfterMarker s'
          else listMatches (InItem (String c EmptyString)) s'
      | InItem cur =>
          if is_line_terminator c then cur :: listMatches LineStart s'
          else listMatches (InItem (cur ++ String c EmptyString)) s'
      end
  end.

Definition listKeywords (keywordsBlock : string) : list string :=
  List.filter long_enough (map clean (listMatches LineStart keywordsBlock)).

Definition extractKeywordsSection (content : string) : list string :=
  match find_header content with
  | None => []
  | Some rest =>
      let keywordsBlock := trim (capture_block rest) in
      let commas :=
        if negb (includes keywordsBlock newline) || includes keywordsBlock ","
        then commaKeywords keywordsBlock else [] in
      uniq (commas ++ listKeywords keywordsBlock)
  end.

Definition extractKeywords (description content : string) : list string :=
  uniq (extractKeywordsSection content ++ extractUniqueTokens description).

(** ** Scanning skill directories ([src/core/indexer.ts]) *)

(** The front matter of a SKILL.md as [matter] returns it: every field
    may be missing; [fmAlways] is [metadata?.openclaw?.always]. *)
Record SkillFrontmatter : Type := {
  fmName : option string;
  fmDescription : option string;
  fmTools : option string;
  fmAlways : option bool
}.

Record ParsedSkill : Type := {
  frontmatter : SkillFrontmatter;
  content : string
}.

(** A field that is neither [undefined] nor the empty string. *)
Definition present (field : option string) : bool :=
  match field with
  | Some (String _ _) => true
  | _ => false
  end.

(** [parseSkillFile]: [file] is what [readFileSync] and [matter] give for
    the path, [None] when one of them throws. *)
Definition parseSkillFile (file : option ParsedSkill) : option ParsedSkill :=
  match file with
  | None => None
  | Some p =>
      if negb (present (fmName (frontmatter p)))
         || negb (present (fmDescription (frontmatter p)))
      then None
      else Some p
  end.

(** What the file system answers for one entry of a scanned directory:
    [isDirectory] is [statSync(skillDir).isDirectory()], [None] when
    [statSync] throws; [hasSkillFile] is [existsSync(skillFile)];
    [skillFile] is the reading of that file. *)
Record DirEntry : Type := {
  skillDir : string;
  isDirectory : option bool;
  hasSkillFile : bool;
  skillFile : option ParsedSkill
}.

(** The entry that [scanSkillDirectory] pushes for a parsed skill. *)
Definition skillEntryOf (dir : string) (parsed : ParsedSkill) : SkillEntry :=
  let fm := frontmatter parsed in
  {| name := default EmptyString (fmName fm);
     description := default EmptyString (fmDescription fm);
     location := dir;
     keywords := extractKeywords (default EmptyString (fmDescription fm)) (content parsed);
     tokens := extractUniqueTokens (content parsed);
     tools := option_map (fun t => map trim (split_char ","%char t)) (fmTools fm);
     alwaysInclude := Some (default false (fmAlways fm)) |}.

(** The loop of [scanSkillDirectory] over the entries that are left; an
    exception of [statSync] leaves the loop, and the [catch] behind it
    returns the skills pushed so far. *)
Fixpoint scanEntries (entries : list DirEntry) (skills : list SkillEntry)
  : list SkillEntry :=
  match entries with
  | [] => skills
  | entry :: rest =>
      match isDirectory entry with
      | None => skills
      | Some dir =>
          if dir && hasSkillFile entry then
            match parseSkillFile (skillFile entry) with
            | Some parsed =>
                scanEntries rest (skills ++ [skillEntryOf (skillDir entry) parsed])%list
            | None => scanEntries rest skills
            end
          else scanEntries rest skills
      end
  end.

(** [scanSkillDirectory]: [listing] is [readdirSync(basePath)] with the
    answers of the file system for its entries, [None] when [basePath]
    does not exist or cannot be read. *)
Definition scanSkillDirectory (listing : option (list DirEntry)) : list SkillEntry :=
  match listing with
  | None => []
  | Some entries => scanEntries entries []
  end.

(** The body of the inner loop of [scanAllSkillDirectories], on the pair
    of [skills] and [seenNames]. *)
Definition addSkill (st : list SkillEntry * gset string) (skill : SkillEntry)
  : list SkillEntry * gset string :=
  if bool_decide (name skill ∈ st.2) then st
  else ((st.1 ++ [skill])%list, {[ name skill ]} ∪ st.2).

(** The two loops of [scanAllSkillDirectories] over the scans of the
    directories, in priority order. *)
Definition mergeScans (scans : list (list SkillEntry)) : list SkillEntry :=
  (fold_left (fun st dirSkills => fold_left addSkill dirSkills st) scans ([], ∅)).1.

(** [scanAllSkillDirectories]: [directories] are the listings of
    [getSkillDirectories()] and of the additional paths, in that order. *)
Definition scanAllSkillDirectories (directories : list (option (list DirEntry)))
  : list SkillEntry :=
  mergeScans (map scanSkillDirectory directories).

(** ** Configuration from the environment ([src/config.ts]) *)

Definition digit_of (c : ascii) : option Z :=
  if in_range 48 57 c then Some (Z.of_nat (nat_of_ascii c) - 48)%Z else None.

(** The longest prefix of decimal digits and the rest. *)
Fixpoint read_digits (s : string) : list Z * string :=
  match s with
  | EmptyString => ([], s)
  | String c s' =>
      match digit_of c with
      | Some d => let (ds, rest) := read_digits s' in (d :: ds, rest)
      | None => ([], s)
      end
  end.

Definition digits_value (ds : list Z) : Z :=
  fold_left (fun v d => 10 * v + d)%Z ds 0%Z.

(** An optional sign: whether it is [-], and the rest. *)
Definition read_sign (s : string) : bool * string :=
  match s with
  | String c s' =>
      if Ascii.eqb c "-"%char then (true, s')
      else if Ascii.eqb c "+"%char then (false, s')
      else (false, s)
  | EmptyString => (false, s)
  end.

(** [parseInt(s, 10)]; [None] is [NaN]. *)
Definition parseInt (s : string) : option Z :=
  let (negative, s1) := read_sign (trimStart s) in
  match read_digits s1 with
  | ([], _) => None
  | (ds, _) => Some (if negative then - digits_value ds else digits_value ds)%Z
  end.

(** The exponent part [[eE][+-]?[0-9]+] at the front of [s], 0 without
    one. *)
Definition read_exponent (s : string) : Z :=
  match s with
  | String c s' =>
      if Ascii.eqb (lower_char c) "e"%char then
        let (negative, s1) := read_sign s' in
        match read_digits s1 with
        | ([], _) => 0%Z
        | (ds, _) => if negative then (- digits_value ds)%Z else digits_value ds
        end
      else 0%Z
  | EmptyString => 0%Z
  end.

(** What [parseFloat] reads: nothing, an infinity, or the digits
    [mantissa] scaled by a power of ten. *)
Inductive Decimal : Type :=
| NoDecimal
| Infinite (negative : bool)
| Scaled (negative : bool) (mantissa exponent : Z).

(** The longest prefix of [s], behind its leading white space, that is a
    decimal literal: a sign, then [Infinity], or digits with an optional
    fraction and an optional exponent. *)
Definition readDecimal (s : string) : Decimal :=
  let (negative, s1) := read_sign (trimStart s) in
  if String.prefix "Infinity" s1 then Infinite negative
  else
    let (int_digits, s2) := read_digits s1 in
    let (frac_digits, s3) :=
      match s2 with
      | String c s' =>
          if Ascii.eqb c "."%char then
            match int_digits, read_digits s' with
            | [], ([], _) => ([], s2)
            | _, fraction => fraction
            end
          else ([], s2)
      | EmptyString => ([], s2)
      end in
    match (int_digits ++ frac_digits)%list with
    | [] => NoDecimal
    | ds =>
        Scaled negative (digits_value ds)
               (read_exponent s3 - Z.of_nat (length frac_digits))
    end.

Definition decimal_value (d : Decimal) : num :=
  match d with
  | NoDecimal => NaN
  | Infinite negative => if negative then NInf else PInf
  | Scaled negative mantissa exponent =>
      let v := Fin (IZR mantissa * powerRZ 10 exponent) in
      if negative then neg v else v
  end.

(** [parseFloat(s)] *)
Definition parseFloat (s : string) : num := decimal_value (readDecimal s).

(** [process.env] at the variables that [getConfig] reads. *)
Record Env : Type := {
  SKILL_ROUTER_MAX_RESULTS : option string;
  SKILL_ROUTER_THRESHOLD : option string;
  SKILL_ROUTER_BM25_K1 : option string;
  SKILL_ROUTER_BM25_B : option string;
  SKILL_ROUTER_ALWAYS_INCLUDE : option string;
  SKILL_ROUTER_CONTEXT_PATH : option string;
  SKILL_ROUTER_INDEX_PATH : option string
}.

(** The [RouterConfig] that [getConfig] returns: its numbers are whatever
    the parsers give. *)
Record EnvConfig : Type := {
  envMaxResults : Z;
  envThreshold : num;
  envBm25K1 : num;
  envBm25B : num;
  envAlwaysInclude : list string;
  contextFilePath : string;
  indexPath : string
}.

(** [v || d] for the result of [parseInt] and of [parseFloat]: [NaN] and
    0 are falsy. *)
Definition int_or (v : option Z) (d : Z) : Z :=
  match v with
  | None => d
  | Some n => if (n =? 0)%Z then d else n
  end.

Definition num_or (v : num) (d : R) : num :=
  match v with
  | NaN => Fin d
  | Fin x => if Reqb x 0 then Fin d else Fin x
  | _ => v
  end.

Definition DEFAULT_CONTEXT_FILE_PATH : string := ".skill-router-context.md".
Definition DEFAULT_INDEX_PATH : string := ".skill-router-index.json".

Definition getConfig (env : Env) : EnvConfig :=
  {| envMaxResults :=
       int_or (parseInt (default EmptyString (SKILL_ROUTER_MAX_RESULTS env)))
              (maxResults DEFAULT_CONFIG);
     envThreshold :=
       num_or (parseFloat (default EmptyString (SKILL_ROUTER_THRESHOLD env)))
              (threshold DEFAULT_CONFIG);
     envBm25K1 :=
       num_or (parseFloat (default EmptyString (SKILL_ROUTER_BM25_K1 env)))
              (bm25K1 DEFAULT_CONFIG);
     envBm25B :=
       num_or (parseFloat (default EmptyString (SKILL_ROUTER_BM25_B env)))
              (bm25B DEFAULT_CONFIG);
     envAlwaysInclude :=
       match SKILL_ROUTER_ALWAYS_INCLUDE env with
       | Some (String c v) => map trim (split_char ","%char (String c v))
       | _ => cfgAlwaysInclude DEFAULT_CONFIG
       end;
     contextFilePath :=
       default DEFAULT_CONTEXT_FILE_PATH (SKILL_ROUTER_CONTEXT_PATH env);
     indexPath := default DEFAULT_INDEX_PATH (SKILL_ROUTER_INDEX_PATH env) |}.


(** ** Commands ([src/commands/status.ts], [src/commands/match.ts]) *)

(** The field [alwaysIncludeSkills] of the statistics of [statusCommand]:
    the names of the documents whose own flag is set. *)
Definition statusAlwaysIncludeSkills (index : SkillIndex) : list string :=
  map name (List.filter (fun s => truthy (alwaysInclude s)) (skills index)).




(** [Object.keys(index.documentFrequency).length], the number of unique
    terms that [buildCommand] and [statusCommand] print: the own
    properties of the object. *)
Definition uniqueTerms (index : SkillIndex) : nat :=
  size (documentFrequency index).

(** * Vocabulary of the further properties *)

(** [l.join(sep)] *)
Fixpoint join (sep : string) (l : list string) : string :=
  match l with
  | [] => EmptyString
  | x :: l' =>
      match l' with
      | [] => x
      | _ :: _ => x ++ sep ++ join sep l'
      end
  end.

(** [d] is not the character [c]. *)
Definition not_char (c d : ascii) : bool := negb (Ascii.eqb d c).

(** The characters of a keyword as a section lists it: no comma, and no
    white space but the plain space. *)
Definition plain_char (c : ascii) : bool :=
  negb (Ascii.eqb c ","%char) && (negb (is_space c) || Ascii.eqb c " "%char).

Definition plain_keyword (k : string) : Prop :=
  2 <= String.length k /\ trim k = k /\ all_chars plain_char k = true.

Definition starts_with_marker (s : string) : bool :=
  match s with
  | String c _ => is_marker c
  | EmptyString => false
  end.

(** What may follow the block of a keyword section: the end of the
    text, a last line feed, or the next header, with or without an empty
    line in front of it. *)
Definition section_end (post : string) : Prop :=
  post = EmptyString
  \/ post = newline
  \/ String.prefix "##" post = true
  \/ String.prefix (newline ++ "##") post = true.

(** A line of a block behind the first: it has no line feed and does not
    start with [#]. *)
Definition block_line (i : string) : Prop :=
  all_chars (not_char LF) i = true
  /\ exists c r, i = String c r /\ not_char "#" c = true.

(** The entries of [l] whose name is not in [seen] and does not occur
    earlier in [l]. *)
Fixpoint firstByName (seen : gset string) (l : list SkillEntry) : list SkillEntry :=
  match l with
  | [] => []
  | s :: l' =>
      if bool_decide (name s ∈ seen) then firstByName seen l'
      else s :: firstByName ({[ name s ]} ∪ seen) l'
  end.

(** What [scanSkillDirectory] guarantees of an entry. *)
Definition scanned_entry (s : SkillEntry) : Prop :=
  name s <> EmptyString
  /\ description s <> EmptyString
  /\ List.NoDup (keywords s)
  /\ List.NoDup (tokens s)
  /\ (forall t, In t (tokenize (description s)) -> In t (keywords s))
  /\ Forall (fun t => all_chars term_char t = true) (tokens s)
  /\ alwaysInclude s <> None.

(** The terms that can become own properties of the map: all but
    ["__proto__"]. *)
Definition storable (t : string) : bool := negb (String.eqb t "__proto__").

(** * Further samples *)

(** The two documents of the test "builds index with document frequency". *)
Definition shared_corpus : SkillIndex :=
  buildIndex EmptyString
    [ mkSkill "skill-1" ["shared"; "unique1"] ["content"; "shared"; "term"];
      mkSkill "skill-2" ["shared"; "unique2"] ["content"; "shared"; "term"] ].

(** A skill directory with a SKILL.md of the given front matter and body. *)
Definition skill_dir (dir n d body : string) : DirEntry :=
  {| skillDir := dir; isDirectory := Some true; hasSkillFile := true;
     skillFile :=
       Some {| frontmatter := {| fmName := Some n; fmDescription := Some d;
                                 fmTools := None; fmAlways := None |};
               content := body |} |}.

(** An entry whose [statSync] throws, as for a dangling symbolic link. *)
Definition dangling_link : DirEntry :=
  {| skillDir := "/skills/old"; isDirectory := None; hasSkillFile := false;
     skillFile := None |}.

Definition github_dir : DirEntry :=
  skill_dir "/skills/github-pr" "github-pr" "Creates GitHub pull requests"
            ("Opens a PR." ++ newline ++ newline ++ "## Keywords" ++ newline ++ newline
             ++ "pr, merge" ++ newline).

Definition database_dir : DirEntry :=
  skill_dir "/skills/database" "database" "Runs SQL queries" "Connects to a database.".

(** * Properties *)

(** ** The model on small inputs *)

Example tokenize_sentence :
  tokenizeQuery "Create a GitHub pull-request, see the PR!" =
  ["create"; "github"; "pull-request"; "pr"].
Proof. vm_compute. reflexivity. Qed.

Example split_ws_edges :
  split_ws " a  b " = [EmptyString; "a"; "b"; EmptyString]
  /\ split_ws EmptyString = [EmptyString].
Proof. vm_compute. split; reflexivity. Qed.

Example uniq_first_occurrence :
  uniq ["b"; "a"; "b"; "c"; "a"] = ["b"; "a"; "c"].
Proof. vm_compute. reflexivity. Qed.

(** ** Comparisons of reals *)

Lemma Rleb_true (x y : R) : (x <= y)%R -> Rleb x y = true.
Proof. intros H. unfold Rleb. destruct (Rle_dec x y); [reflexivity | contradiction]. Qed.

Lemma Rleb_false (x y : R) : (y < x)%R -> Rleb x y = false.
Proof. intros H. unfold Rleb. destruct (Rle_dec x y); [lra | reflexivity]. Qed.

Lemma Rleb_spec (x y : R) : Rleb x y = true <-> (x <= y)%R.
Proof. unfold Rleb. destruct (Rle_dec x y); split; auto; discriminate. Qed.

Lemma Rltb_true (x y : R) : (x < y)%R -> Rltb x y = true.
Proof. intros H. unfold Rltb. destruct (Rlt_dec x y); [reflexivity | contradiction]. Qed.

Lemma Rltb_false (x y : R) : (y <= x)%R -> Rltb x y = false.
Proof. intros H. unfold Rltb. destruct (Rlt_dec x y); [lra | reflexivity]. Qed.

Lemma Reqb_true (x y : R) : x = y -> Reqb x y = true.
Proof. intros H. unfold Reqb. destruct (Req_dec_T x y); [reflexivity | contradiction]. Qed.

Lemma Reqb_false (x y : R) : x <> y -> Reqb x y = false.
Proof. intros H. unfold Reqb. destruct (Req_dec_T x y); [contradiction | reflexivity]. Qed.

(** Division of finite numbers by a divisor that is not zero. *)
Lemma div_fin (x y : R) : y <> 0%R -> div (Fin x) (Fin y) = Fin (x / y).
Proof. intros H. unfold div. rewrite (Reqb_false _ _ H). reflexivity. Qed.

(** The logarithm of a positive number. *)
Lemma log_fin (x : R) : (0 < x)%R -> log (Fin x) = Fin (ln x).
Proof.
  intros H. unfold log.
  rewrite Rltb_false by lra. rewrite Reqb_false by lra. reflexivity.
Qed.

(** ** Substrings and insertion-ordered sets *)

Lemma append_cons (c : ascii) (s t : string) :
  String c s ++ t = String c (s ++ t).
Proof. reflexivity. Qed.

Lemma append_nil_l (s : string) : EmptyString ++ s = s.
Proof. reflexivity. Qed.

Lemma prefix_app (t s : string) :
  String.prefix t s = true <-> exists post, s = t ++ post.
Proof.
  revert s. induction t as [|c t IH]; intros s.
  - split; [intros _; exists s; reflexivity | destruct s; reflexivity].
  - destruct s as [|d s]; simpl.
    + split; [discriminate | intros [post H]; discriminate].
    + destruct (Ascii.ascii_dec c d) as [->|Hne].
      * rewrite IH. split; intros [post H]; exists post;
          rewrite append_cons in *; congruence.
      * split; [discriminate |].
        intros [post H]. rewrite append_cons in H. congruence.
Qed.

Lemma includes_spec (s t : string) : includes s t = true <-> is_substring t s.
Proof.
  induction s as [|c s IH]; cbn [includes].
  - rewrite orb_false_r, prefix_app. split.
    + intros [post H]. exists EmptyString, post. exact H.
    + intros [[|d pre] [post H]]; [exists post; exact H | discriminate].
  - rewrite orb_true_iff, prefix_app, IH. split.
    + intros [[post H] | [pre [post H]]].
      * exists EmptyString, post. exact H.
      * exists (String c pre), post. rewrite append_cons. congruence.
    + intros [[|d pre] [post H]].
      * left. exists post. exact H.
      * right. exists pre, post. rewrite append_cons in H. congruence.
Qed.

Lemma includes_refl (s : string) : includes s s = true.
Proof.
  apply includes_spec. exists EmptyString, EmptyString.
  rewrite append_nil_l.
  induction s as [|c s IH]; [reflexivity|].
  rewrite append_cons. congruence.
Qed.

Lemma uniq_In (l : list string) (x : string) : In x (uniq l) <-> In x l.
Proof.
  induction l as [|y l IH]; simpl; [tauto|].
  rewrite filter_In, IH, negb_true_iff, String.eqb_neq.
  destruct (String.eqb_spec y x); intuition congruence.
Qed.

Lemma uniq_NoDup (l : list string) : List.NoDup (uniq l).
Proof.
  induction l as [|y l IH]; simpl; constructor.
  - rewrite filter_In, negb_true_iff, String.eqb_neq. tauto.
  - apply List.NoDup_filter. exact IH.
Qed.

(** ** Term frequency *)

Lemma count_loop {A : Type} (p : A -> bool) (k : nat) (l : list A) (c : nat) :
  fold_left (fun count x => if p x then count + k else count) l c
  = c + k * length (List.filter p l).
Proof.
  revert c. induction l as [|x l IH]; intros c; simpl; [lia|].
  rewrite IH. destruct (p x); simpl; lia.
Qed.

Lemma getTermFrequency_hits (s : SkillEntry) (term : string) :
  getTermFrequency s term = 2 * keywordHits s term + tokenHits s term.
Proof.
  unfold getTermFrequency, keywordHits, tokenHits.
  rewrite (count_loop (fun token => String.eqb token term) 1).
  rewrite (count_loop (fun keyword => String.eqb keyword term || includes keyword term) 2).
  lia.
Qed.

Lemma filter_length_zero {A : Type} (p : A -> bool) (l : list A) :
  length (List.filter p l) = 0 <-> forall x, In x l -> p x = false.
Proof.
  induction l as [|x l IH]; simpl; [tauto|].
  destruct (p x) eqn:Hp; simpl.
  - split; [discriminate|]. intros H. specialize (H x (or_introl eq_refl)). congruence.
  - rewrite IH. split.
    + intros H y [<-|Hy]; auto.
    + intros H y Hy. apply H. right. exact Hy.
Qed.

Lemma keyword_test (keyword term : string) :
  String.eqb keyword term || includes keyword term = true
  <-> is_substring term keyword.
Proof.
  rewrite orb_true_iff, String.eqb_eq, includes_spec. split.
  - intros [->|H]; [apply includes_spec, includes_refl | exact H].
  - auto.
Qed.

Lemma keywordHits_zero (s : SkillEntry) (term : string) :
  keywordHits s term = 0
  <-> forall keyword, In keyword (keywords s) -> ~ is_substring term keyword.
Proof.
  unfold keywordHits. rewrite filter_length_zero.
  split; intros H k Hk; specialize (H k Hk).
  - rewrite <- keyword_test. congruence.
  - rewrite <- keyword_test in H. destruct (_ || _); congruence.
Qed.

Lemma tokenHits_zero (s : SkillEntry) (term : string) :
  tokenHits s term = 0 <-> ~ In term (tokens s).
Proof.
  unfold tokenHits. rewrite filter_length_zero. split.
  - intros H Hin. specialize (H term Hin). rewrite String.eqb_refl in H. discriminate.
  - intros H k Hk. apply String.eqb_neq. intros ->. contradiction.
Qed.

Lemma getTermFrequency_zero (s : SkillEntry) (term : string) :
  getTermFrequency s term = 0
  <-> (forall keyword, In keyword (keywords s) -> ~ is_substring term keyword)
      /\ ~ In term (tokens s).
Proof.
  rewrite getTermFrequency_hits, <- keywordHits_zero, <- tokenHits_zero. lia.
Qed.

(** ** The loop of [scoreSkill] *)

Section ScoreSkillLoop.
Variable index : SkillIndex.
Variables k1 b : R.
Variable s : SkillEntry.

Lemma scoreTerm_snd (acc : num * list string) (term : string) :
  snd (scoreTerm index k1 b s acc term)
  = (snd acc ++ if matches s term then [term] else [])%list.
Proof.
  unfold scoreTerm, matches.
  destruct (Nat.ltb 0 (getTermFrequency s term)); simpl;
    [reflexivity | rewrite app_nil_r; reflexivity].
Qed.

Lemma loop_snd (queryTerms : list string) (acc : num * list string) :
  snd (fold_left (scoreTerm index k1 b s) queryTerms acc)
  = (snd acc ++ List.filter (matches s) queryTerms)%list.
Proof.
  revert acc. induction queryTerms as [|t l IH]; intros acc; simpl.
  - rewrite app_nil_r. reflexivity.
  - rewrite IH, scoreTerm_snd, <- app_assoc.
    destruct (matches s t); reflexivity.
Qed.

Lemma matchedKeywords_filter (queryTerms : list string) :
  matchedKeywords (scoreSkill index k1 b s queryTerms)
  = uniq (List.filter (matches s) queryTerms).
Proof. unfold scoreSkill. simpl. rewrite loop_snd. reflexivity. Qed.

Lemma loop_no_overlap (queryTerms : list string) (acc : num * list string) :
  (forall t, In t queryTerms -> getTermFrequency s t = 0) ->
  fold_left (scoreTerm index k1 b s) queryTerms acc = acc.
Proof.
  revert acc. induction queryTerms as [|t l IH]; intros acc H; simpl; [reflexivity|].
  unfold scoreTerm at 2. rewrite (H t (or_introl eq_refl)). simpl.
  apply IH. intros u Hu. apply H. right. exact Hu.
Qed.

Lemma scoreSkill_no_overlap (queryTerms : list string) :
  (forall t, In t queryTerms -> getTermFrequency s t = 0) ->
  scoreSkill index k1 b s queryTerms
  = {| skill := s; score := Fin 0; matchedKeywords := [] |}.
Proof.
  intros H. unfold scoreSkill. rewrite (loop_no_overlap _ _ H). reflexivity.
Qed.
End ScoreSkillLoop.

(** ** Terms that do not occur in a document (C1) *)

(** C1, as stated, fails: the query term "git" is none of the keywords and
    none of the tokens of the document [github_pr], yet its term frequency
    there is 2, because the keyword "github" contains it, and it is reported
    among the matched keywords. *)
Lemma C1_counterexample :
  ~ In "git" (keywords github_pr)
  /\ ~ In "git" (tokens github_pr)
  /\ getTermFrequency github_pr "git" = 2
  /\ In "git" (matchedKeywords
                 (scoreSkill corpus 1.2 0.75 github_pr (tokenizeQuery "git"))).
Proof.
  split; [|split; [|split]].
  - simpl. intros [H|[H|[H|[H|[]]]]]; discriminate.
  - simpl. tauto.
  - vm_compute. reflexivity.
  - rewrite matchedKeywords_filter. vm_compute. left. reflexivity.
Qed.

(** C1, amended: a term that is contained in none of the keywords of a
    document (as a substring) and equals none of its tokens has term
    frequency 0 there, and is never among the matched keywords of the
    document, whatever the query. *)
Theorem C1_absent_term_unmatched (idx : SkillIndex) (k1 b : R)
    (D : SkillEntry) (T : string) :
  (forall keyword, In keyword (keywords D) -> ~ is_substring T keyword) ->
  ~ In T (tokens D) ->
  getTermFrequency D T = 0
  /\ forall queryTerms,
       ~ In T (matchedKeywords (scoreSkill idx k1 b D queryTerms)).
Proof.
  intros Hkw Htok.
  assert (Htf : getTermFrequency D T = 0) by (apply getTermFrequency_zero; auto).
  split; [exact Htf|].
  intros queryTerms. rewrite matchedKeywords_filter, uniq_In, filter_In.
  unfold matches. rewrite Htf. intros [_ H]. discriminate.
Qed.

(** The term "sql" and the document [github_pr]. *)
Lemma C1_absent_term_unmatched_witness :
  getTermFrequency github_pr "sql" = 0
  /\ ~ In "sql" (matchedKeywords
                   (scoreSkill corpus 1.2 0.75 github_pr
                               (tokenizeQuery "sql github"))).
Proof.
  assert (Hkw : forall keyword, In keyword (keywords github_pr) ->
                                ~ is_substring "sql" keyword).
  { intros keyword Hin. rewrite <- includes_spec.
    simpl in Hin. destruct Hin as [<-|[<-|[<-|[<-|[]]]]]; vm_compute; discriminate. }
  assert (Htok : ~ In "sql" (tokens github_pr)) by (simpl; tauto).
  destruct (C1_absent_term_unmatched corpus 1.2 0.75 github_pr "sql" Hkw Htok)
    as [Htf Hm].
  split; [exact Htf | apply Hm].
Defined.

(** ** Matched keywords (C10) *)

(** C10: the matched keywords of a scoring result hold no duplicates, and
    they are exactly the query terms whose term frequency in the document
    is positive: every entry is a term of the query, not a keyword or token
    of the document. *)
Theorem C10_matchedKeywords_query_terms (idx : SkillIndex) (k1 b : R)
    (s : SkillEntry) (queryTerms : list string) :
  List.NoDup (matchedKeywords (scoreSkill idx k1 b s queryTerms))
  /\ forall t,
       In t (matchedKeywords (scoreSkill idx k1 b s queryTerms))
       <-> In t queryTerms /\ 0 < getTermFrequency s t.
Proof.
  rewrite matchedKeywords_filter. split; [apply uniq_NoDup|].
  intros t. rewrite uniq_In, filter_In. unfold matches.
  rewrite Nat.ltb_lt. reflexivity.
Qed.

(** The matched entry is the query term "git", not the keyword "github"
    that contains it; a repeated query term is reported once. *)
Example matchedKeywords_git :
  matchedKeywords (scoreSkill corpus 1.2 0.75 github_pr ["git"; "pr"; "git"; "sql"])
  = ["git"; "pr"].
Proof. rewrite matchedKeywords_filter. vm_compute. reflexivity. Qed.

(** ** The characters of a query term *)

Lemma all_chars_app (p : ascii -> bool) (s t : string) :
  all_chars p (s ++ t) = all_chars p s && all_chars p t.
Proof.
  induction s as [|c s IH]; [reflexivity|].
  rewrite append_cons. simpl. rewrite IH, andb_assoc. reflexivity.
Qed.

Lemma kept_not_space (c : ascii) :
  is_kept c = true -> is_space c = false -> term_char c = true.
Proof.
  unfold is_kept, term_char. intros H Hs. rewrite Hs in H.
  rewrite orb_false_r in H. exact H.
Qed.

Lemma split_ws_from_chars (s cur : string) (in_run : bool) :
  all_chars term_char cur = true ->
  all_chars is_kept s = true ->
  Forall (fun w => all_chars term_char w = true) (split_ws_from cur in_run s).
Proof.
  revert cur in_run. induction s as [|c s IH]; intros cur in_run Hcur Hs; simpl.
  - constructor; [exact Hcur | constructor].
  - simpl in Hs. apply andb_true_iff in Hs. destruct Hs as [Hc Hs].
    destruct (is_space c) eqn:Hsp.
    + destruct in_run.
      * apply IH; [reflexivity | exact Hs].
      * constructor; [exact Hcur|]. apply IH; [reflexivity | exact Hs].
    + apply IH; [|exact Hs].
      rewrite all_chars_app, Hcur. simpl.
      rewrite (kept_not_space c Hc Hsp). reflexivity.
Qed.

Lemma replace_punct_kept (s : string) : all_chars is_kept (replace_punct s) = true.
Proof.
  unfold replace_punct. induction s as [|c s IH]; [reflexivity|].
  simpl. rewrite IH, andb_true_r.
  destruct (is_kept c) eqn:Hc; [exact Hc | reflexivity].
Qed.

Lemma tokenize_chars (text t : string) :
  In t (tokenize text) -> all_chars term_char t = true.
Proof.
  unfold tokenize, words_of. intros H.
  apply filter_In in H. destruct H as [H _].
  apply filter_In in H. destruct H as [H _].
  pose proof (split_ws_from_chars (replace_punct (toLowerCase text)) EmptyString false
                eq_refl (replace_punct_kept _)) as Hall.
  rewrite List.Forall_forall in Hall. apply Hall. exact H.
Qed.

Lemma inherited_term (t : string) :
  inherited t = true -> all_chars term_char t = true -> t = "constructor".
Proof.
  unfold inherited. intros H Hc. apply existsb_exists in H.
  destruct H as [k [Hk Heq]]. apply String.eqb_eq in Heq. subst k.
  simpl in Hk.
  repeat (destruct Hk as [<-|Hk]; [first [reflexivity | vm_compute in Hc; discriminate]|]).
  destruct Hk.
Qed.

Lemma tokenizeQuery_not_inherited (query : string) :
  ~ In "constructor" (tokenizeQuery query) ->
  Forall (fun t => inherited t = false) (tokenizeQuery query).
Proof.
  intros H. apply List.Forall_forall. intros t Ht.
  destruct (inherited t) eqn:Hi; [|reflexivity].
  exfalso. apply H.
  rewrite <- (inherited_term t Hi (tokenize_chars _ _ Ht)). exact Ht.
Qed.

(** ** Queries without terms (C6) *)

Lemma is_stopword_In (w : string) : is_stopword w = true <-> In w STOPWORDS.
Proof.
  unfold is_stopword. rewrite existsb_exists. split.
  - intros [x [Hx Heq]]. apply String.eqb_eq in Heq. subst. exact Hx.
  - intros H. exists w. split; [exact H | apply String.eqb_refl].
Qed.

(** No term is left exactly when every piece of the normalised text is
    shorter than two characters or a stopword. *)
Lemma tokenize_empty_iff (text : string) :
  tokenize text = []
  <-> Forall (fun w => String.length w < MIN_TOKEN_LENGTH \/ In w STOPWORDS)
             (split_ws (replace_punct (toLowerCase text))).
Proof.
  unfold tokenize, words_of.
  induction (split_ws (replace_punct (toLowerCase text))) as [|w l IH].
  - split; [constructor | reflexivity].
  - cbn [List.filter].
    destruct (Nat.leb MIN_TOKEN_LENGTH (String.length w)) eqn:Hlen.
    + apply Nat.leb_le in Hlen. cbn [List.filter].
      destruct (is_stopword w) eqn:Hs; cbn [negb].
      * rewrite IH. split; intros H.
        -- constructor; [right; apply is_stopword_In; exact Hs | exact H].
        -- inversion H; assumption.
      * split; [discriminate|]. intros H. inversion H as [|? ? [Hw|Hw] _]; subst.
        -- lia.
        -- apply is_stopword_In in Hw. congruence.
    + apply Nat.leb_gt in Hlen. rewrite IH. split; intros H.
      * constructor; [left; exact Hlen | exact H].
      * inversion H; assumption.
Qed.

Lemma scoreAll_no_terms (idx : SkillIndex) (k1 b : R) (query : string) :
  tokenizeQuery query = [] -> scoreAll idx k1 b query = [].
Proof. intros H. unfold scoreAll. rewrite H. reflexivity. Qed.

(** C6: a query whose tokenization yields no terms gets the empty
    sequence from [scoreAll], whatever the index. *)
Theorem C6_scoreAll_no_terms (idx : SkillIndex) (k1 b : R) (query : string) :
  tokenizeQuery query = [] -> scoreAll idx k1 b query = [].
Proof. apply scoreAll_no_terms. Qed.

(** A query of stopwords, punctuation and a one-letter fragment. *)
Lemma C6_scoreAll_no_terms_witness :
  tokenizeQuery "The and IS a, x!" = []
  /\ scoreAll corpus 1.2 0.75 "The and IS a, x!" = [].
Proof.
  assert (H : tokenizeQuery "The and IS a, x!" = []) by (vm_compute; reflexivity).
  split; [exact H | exact (C6_scoreAll_no_terms corpus 1.2 0.75 _ H)].
Defined.

Example scoreAll_empty_string (idx : SkillIndex) (k1 b : R) :
  scoreAll idx k1 b EmptyString = [].
Proof. apply scoreAll_no_terms. vm_compute. reflexivity. Qed.

(** ** The order of numbers and the sort (C8) *)

Lemma geb_refl (a : num) : not_nan a -> geb a a = true.
Proof.
  destruct a; intros H; simpl; try reflexivity.
  - apply Rleb_true. lra.
  - contradiction H. reflexivity.
Qed.

Lemma geb_total (a c : num) :
  not_nan a -> not_nan c -> geb a c = false -> geb c a = true.
Proof.
  destruct a as [x| | |], c as [y| | |]; intros Ha Hc; simpl;
    try reflexivity; try discriminate;
    try (contradiction Ha; reflexivity); try (contradiction Hc; reflexivity).
  unfold Rleb. destruct (Rle_dec y x), (Rle_dec x y); try reflexivity; try discriminate.
  lra.
Qed.

Lemma geb_trans (a c d : num) :
  geb a c = true -> geb c d = true -> geb a d = true.
Proof.
  destruct a as [x| | |], c as [y| | |], d as [z| | |]; simpl;
    try reflexivity; try discriminate.
  rewrite !Rleb_spec. lra.
Qed.

(** On numbers other than [NaN], the comparator [b.score - a.score] is
    negative or zero exactly when [a.score >= b.score]. *)
Lemma byScoreDesc_geb (x y : ScoringResult) :
  not_nan (score x) -> not_nan (score y) ->
  nonpos_or_nan (byScoreDesc x y) = geb (score x) (score y).
Proof.
  unfold byScoreDesc, sub.
  destruct (score x) as [a| | |], (score y) as [c| | |]; intros Hx Hy; simpl;
    try reflexivity;
    try (contradiction Hx; reflexivity); try (contradiction Hy; reflexivity).
  unfold Rleb. destruct (Rle_dec (c + - a) 0), (Rle_dec c a); try reflexivity; lra.
Qed.

Lemma sort_insert_perm {A : Type} (cmp : A -> A -> num) (x : A) (l : list A) :
  Permutation (sort_insert cmp x l) (x :: l).
Proof.
  induction l as [|y l IH]; simpl; [reflexivity|].
  destruct (nonpos_or_nan (cmp x y)); [reflexivity|].
  rewrite IH. apply perm_swap.
Qed.

Lemma js_sort_perm {A : Type} (cmp : A -> A -> num) (l : list A) :
  Permutation (js_sort cmp l) l.
Proof.
  induction l as [|x l IH]; simpl; [reflexivity|].
  rewrite sort_insert_perm. constructor. exact IH.
Qed.

Lemma sort_insert_sorted (x : ScoringResult) (l : list ScoringResult) :
  not_nan (score x) ->
  Forall (fun r => not_nan (score r)) l ->
  StronglySorted desc l ->
  StronglySorted desc (sort_insert byScoreDesc x l).
Proof.
  intros Hx Hl Hs. induction Hs as [|y l Hs IH Hy]; simpl.
  - constructor; constructor.
  - inversion Hl as [|? ? Hny Hnl]; subst.
    rewrite byScoreDesc_geb by assumption.
    destruct (geb (score x) (score y)) eqn:Hxy.
    + constructor; [constructor; assumption|].
      constructor; [exact Hxy|].
      eapply List.Forall_impl; [|exact Hy].
      intros r Hr. unfold desc in *. eapply geb_trans; eassumption.
    + constructor; [apply IH; assumption|].
      apply (Permutation_Forall (x := x :: l)).
      * symmetry. apply sort_insert_perm.
      * constructor; [|exact Hy]. apply geb_total; assumption.
Qed.

Lemma js_sort_sorted (l : list ScoringResult) :
  Forall (fun r => not_nan (score r)) l ->
  StronglySorted desc (js_sort byScoreDesc l).
Proof.
  induction l as [|x l IH]; intros H; simpl; [constructor|].
  inversion H as [|? ? Hx Hl]; subst.
  apply sort_insert_sorted; [exact Hx| |apply IH; exact Hl].
  apply (Permutation_Forall (x := l)); [symmetry; apply js_sort_perm | exact Hl].
Qed.

(** Inserting [x] leaves it in front of the results of equal score. *)
Lemma sort_insert_stable (v : num) (x : ScoringResult) (l : list ScoringResult) :
  not_nan (score x) ->
  List.filter (has_score v) (sort_insert byScoreDesc x l)
  = List.filter (has_score v) (x :: l).
Proof.
  intros Hx. induction l as [|y l IH]; [reflexivity|].
  cbn [sort_insert].
  destruct (nonpos_or_nan (byScoreDesc x y)) eqn:Hcmp; [reflexivity|].
  cbn [List.filter] in *. rewrite IH.
  destruct (has_score v x) eqn:Hxv, (has_score v y) eqn:Hy; try reflexivity.
  exfalso. unfold has_score in Hxv, Hy.
  destruct (num_eq_dec (score x) v) as [Ex|]; [|discriminate].
  destruct (num_eq_dec (score y) v) as [Ey|]; [|discriminate].
  rewrite byScoreDesc_geb in Hcmp; [|exact Hx|congruence].
  rewrite Ey, <- Ex, geb_refl in Hcmp; [discriminate | exact Hx].
Qed.

Lemma js_sort_stable (v : num) (l : list ScoringResult) :
  Forall (fun r => not_nan (score r)) l ->
  List.filter (has_score v) (js_sort byScoreDesc l) = List.filter (has_score v) l.
Proof.
  induction l as [|x l IH]; intros H; [reflexivity|].
  inversion H as [|? ? Hx Hl]; subst.
  cbn [js_sort]. rewrite sort_insert_stable by exact Hx.
  cbn [List.filter]. rewrite IH by exact Hl. reflexivity.
Qed.

Lemma scoreAll_terms (idx : SkillIndex) (k1 b : R) (query : string) :
  tokenizeQuery query <> [] ->
  scoreAll idx k1 b query
  = js_sort byScoreDesc
            (map (fun s => scoreSkill idx k1 b s (tokenizeQuery query)) (skills idx)).
Proof.
  intros H. unfold scoreAll. destruct (tokenizeQuery query); [contradiction|reflexivity].
Qed.

(** C8, amended: for a query with at least one term, when the scores are
    numbers (none is [NaN]), [scoreAll] returns the results of the
    documents, one for each: a permutation of the results in index order,
    sorted by score descending, in which the results of any one score keep
    their index order. *)
Theorem C8_scoreAll_sorted_stable (idx : SkillIndex) (k1 b : R) (query : string) :
  tokenizeQuery query <> [] ->
  Forall (fun s => not_nan (score (scoreSkill idx k1 b s (tokenizeQuery query))))
         (skills idx) ->
  let inIndexOrder :=
    map (fun s => scoreSkill idx k1 b s (tokenizeQuery query)) (skills idx) in
  Permutation (scoreAll idx k1 b query) inIndexOrder
  /\ map skill inIndexOrder = skills idx
  /\ StronglySorted desc (scoreAll idx k1 b query)
  /\ forall v, List.filter (has_score v) (scoreAll idx k1 b query)
               = List.filter (has_score v) inIndexOrder.
Proof.
  intros Hq Hfin inIndexOrder.
  rewrite (scoreAll_terms _ _ _ _ Hq). fold inIndexOrder.
  assert (Hall : Forall (fun r => not_nan (score r)) inIndexOrder).
  { unfold inIndexOrder. apply List.Forall_map. exact Hfin. }
  split; [apply js_sort_perm|].
  split.
  { unfold inIndexOrder. rewrite map_map. simpl. apply map_id. }
  split; [apply js_sort_sorted; exact Hall|].
  intros v. apply js_sort_stable. exact Hall.
Qed.

(** ** The result selector (C4, C5) *)

Lemma alwaysIncludeResults_map (idx : SkillIndex) (query : string)
    (config : RouterConfig) :
  alwaysIncludeResults idx query config
  = map (forcedEntry idx query config) (alwaysIncludeSkills idx config).
Proof. reflexivity. Qed.

Lemma firstn_In {A : Type} (n : nat) (l : list A) (x : A) :
  In x (firstn n l) -> In x l.
Proof.
  intros H. rewrite <- (firstn_skipn n l). apply in_or_app. left. exact H.
Qed.

Lemma slice0_In {A : Type} (l : list A) (n : Z) (x : A) :
  In x (slice0 l n) -> In x l.
Proof.
  unfold slice0. destruct (n <? 0)%Z; apply firstn_In.
Qed.


(** With a negative bound, [slice] drops that many elements from the end. *)
Lemma slice0_negative {A : Type} (l : list A) (n : Z) :
  (n < 0)%Z -> length (slice0 l n) = length l - Z.to_nat (- n).
Proof.
  intros Hn. unfold slice0.
  destruct (Z.ltb_spec n 0); [|lia].
  rewrite length_firstn. lia.
Qed.

Lemma inAlwaysIncludeSet_spec (idx : SkillIndex) (config : RouterConfig)
    (s : SkillEntry) :
  inAlwaysIncludeSet idx config s = true
  <-> exists s', In s' (alwaysIncludeSkills idx config) /\ name s' = name s.
Proof.
  unfold inAlwaysIncludeSet. rewrite existsb_exists. split.
  - intros [n [Hn Heq]]. apply String.eqb_eq in Heq. subst n.
    apply in_map_iff in Hn. destruct Hn as [s' [Hs' Hin]]. exists s'. auto.
  - intros [s' [Hin Hs']]. exists (name s). split; [|apply String.eqb_refl].
    rewrite <- Hs'. apply in_map. exact Hin.
Qed.

Lemma topResults_spec (idx : SkillIndex) (query : string) (config : RouterConfig)
    (r : ScoringResult) :
  In r (topResults idx query config) ->
  In r (allResults idx query config)
  /\ geb (score r) (Fin (threshold config)) = true
  /\ inAlwaysIncludeSet idx config (skill r) = false.
Proof.
  unfold topResults. intros H. apply slice0_In, filter_In in H.
  destruct H as [Hin H]. apply andb_true_iff in H. destruct H as [Hge Hn].
  apply negb_true_iff in Hn. auto.
Qed.

Lemma forcedEntry_name (idx : SkillIndex) (query : string) (config : RouterConfig)
    (s : SkillEntry) :
  name (skill (forcedEntry idx query config s)) = name s.
Proof.
  unfold forcedEntry.
  destruct (find _ _) as [r|] eqn:Hfind; simpl; [|reflexivity].
  apply find_some in Hfind. destruct Hfind as [_ H]. apply String.eqb_eq. exact H.
Qed.



(** Decides the comparisons of concrete reals that block a computation. *)
Ltac real_tests :=
  repeat first
    [ rewrite Rleb_true by lra | rewrite Rleb_false by lra
    | rewrite Rltb_true by lra | rewrite Rltb_false by lra
    | rewrite Reqb_true by lra | rewrite Reqb_false by lra ].





Lemma NoDup_name_inj (l : list SkillEntry) (s s' : SkillEntry) :
  List.NoDup (map name l) -> In s l -> In s' l -> name s = name s' -> s = s'.
Proof.
  induction l as [|x l IH]; simpl; [tauto|].
  intros Hnd Hs Hs' Heq. inversion Hnd as [|? ? Hx Hl]; subst.
  destruct Hs as [<-|Hs], Hs' as [<-|Hs'].
  - reflexivity.
  - exfalso. apply Hx. rewrite Heq. apply in_map. exact Hs'.
  - exfalso. apply Hx. rewrite <- Heq. apply in_map. exact Hs.
  - apply IH; assumption.
Qed.

Lemma NoDup_name_filter (l : list SkillEntry) (D : SkillEntry) :
  List.NoDup (map name l) -> In D l ->
  List.filter (fun s => String.eqb (name s) (name D)) l = [D].
Proof.
  induction l as [|x l IH]; simpl; [tauto|].
  intros Hnd HD. inversion Hnd as [|? ? Hx Hl]; subst.
  assert (Hrest : In D l -> name x <> name D).
  { intros Hin Heq. apply Hx. rewrite Heq. apply in_map. exact Hin. }
  destruct HD as [->|HD].
  - rewrite String.eqb_refl. f_equal.
    apply length_zero_iff_nil, filter_length_zero. intros y Hy.
    apply String.eqb_neq. intros Hyd. apply Hx. rewrite <- Hyd.
    apply in_map. exact Hy.
  - destruct (String.eqb_spec (name x) (name D)) as [Heq|Hne].
    + exfalso. exact (Hrest HD Heq).
    + apply IH; assumption.
Qed.

Lemma NoDup_map_filter {A B : Type} (f : A -> B) (p : A -> bool) (l : list A) :
  List.NoDup (map f l) -> List.NoDup (map f (List.filter p l)).
Proof.
  induction l as [|x l IH]; simpl; [auto|].
  intros Hnd. inversion Hnd as [|? ? Hx Hl]; subst.
  destruct (p x); simpl; [|auto].
  constructor; [|auto].
  intros Hin. apply Hx. apply in_map_iff in Hin. destruct Hin as [y [Hy Hin]].
  apply filter_In in Hin. rewrite <- Hy. apply in_map. tauto.
Qed.

Lemma allResults_In (idx : SkillIndex) (query : string) (config : RouterConfig)
    (r : ScoringResult) :
  In r (allResults idx query config) ->
  exists s, In s (skills idx)
            /\ r = scoreSkill idx (bm25K1 config) (bm25B config) s (tokenizeQuery query).
Proof.
  unfold allResults, scoreAll.
  destruct (tokenizeQuery query) as [|t ts]; [intros []|].
  intros H. apply (Permutation_in _ (js_sort_perm _ _)) in H.
  apply in_map_iff in H. destruct H as [s [Hs Hin]]. exists s. auto.
Qed.

Lemma forcedEntry_cases (idx : SkillIndex) (query : string) (config : RouterConfig)
    (s : SkillEntry) :
  unique_names idx -> In s (skills idx) ->
  forcedEntry idx query config s = unmatched s
  \/ forcedEntry idx query config s
     = scoreSkill idx (bm25K1 config) (bm25B config) s (tokenizeQuery query).
Proof.
  intros Hnd Hs. unfold forcedEntry.
  destruct (find _ _) as [r|] eqn:Hfind; simpl; [|left; reflexivity].
  right. apply find_some in Hfind. destruct Hfind as [Hin Hname].
  apply String.eqb_eq in Hname.
  apply allResults_In in Hin. destruct Hin as [s' [Hs' ->]].
  simpl in Hname. rewrite (NoDup_name_inj _ _ _ Hnd Hs' Hs Hname). reflexivity.
Qed.

Lemma forcedEntry_skill (idx : SkillIndex) (query : string) (config : RouterConfig)
    (s : SkillEntry) :
  unique_names idx -> In s (skills idx) ->
  skill (forcedEntry idx query config s) = s.
Proof.
  intros Hnd Hs.
  destruct (forcedEntry_cases idx query config s Hnd Hs) as [-> | ->]; reflexivity.
Qed.

Lemma forcedEntry_no_overlap (idx : SkillIndex) (query : string)
    (config : RouterConfig) (s : SkillEntry) :
  unique_names idx -> In s (skills idx) ->
  (forall t, In t (tokenizeQuery query) -> getTermFrequency s t = 0) ->
  forcedEntry idx query config s = unmatched s.
Proof.
  intros Hnd Hs Hno.
  destruct (forcedEntry_cases idx query config s Hnd Hs) as [-> | ->];
    [reflexivity | apply scoreSkill_no_overlap; exact Hno].
Qed.

Lemma entriesOf_forced (idx : SkillIndex) (query : string) (config : RouterConfig)
    (D : SkillEntry) (l : list SkillEntry) :
  entriesOf D (map (forcedEntry idx query config) l)
  = map (forcedEntry idx query config)
        (List.filter (fun s => String.eqb (name s) (name D)) l).
Proof.
  unfold entriesOf. induction l as [|s l IH]; simpl; [reflexivity|].
  rewrite forcedEntry_name, IH. destruct (String.eqb (name s) (name D)); reflexivity.
Qed.

Lemma entriesOf_top (idx : SkillIndex) (query : string) (config : RouterConfig)
    (D : SkillEntry) :
  In D (alwaysIncludeSkills idx config) ->
  entriesOf D (topResults idx query config) = [].
Proof.
  intros HD. unfold entriesOf.
  destruct (List.filter _ _) as [|r l] eqn:Hf; [reflexivity|].
  assert (Hr : In r (r :: l)) by (left; reflexivity).
  rewrite <- Hf in Hr. apply filter_In in Hr. destruct Hr as [Hin Hname].
  apply String.eqb_eq in Hname. apply topResults_spec in Hin.
  destruct Hin as [_ [_ Hset]].
  assert (Htrue : inAlwaysIncludeSet idx config (skill r) = true).
  { apply inAlwaysIncludeSet_spec. exists D. split; [exact HD | congruence]. }
  congruence.
Qed.

Lemma entriesOf_scoreQuery (idx : SkillIndex) (query : string)
    (config : RouterConfig) (D : SkillEntry) :
  unique_names idx -> In D (skills idx) -> isAlwaysInclude config D = true ->
  entriesOf D (scoreQuery idx query config) = [forcedEntry idx query config D].
Proof.
  intros Hnd HD Hai.
  assert (HDai : In D (alwaysIncludeSkills idx config)).
  { unfold alwaysIncludeSkills. apply filter_In. auto. }
  unfold scoreQuery, entriesOf. rewrite List.filter_app.
  fold (entriesOf D (alwaysIncludeResults idx query config)).
  fold (entriesOf D (topResults idx query config)).
  rewrite (entriesOf_top _ _ _ _ HDai), app_nil_r.
  rewrite alwaysIncludeResults_map, entriesOf_forced.
  rewrite (NoDup_name_filter _ D); [reflexivity | | exact HDai].
  unfold alwaysIncludeSkills. apply NoDup_map_filter. exact Hnd.
Qed.

Lemma isAlwaysInclude_spec (config : RouterConfig) (s : SkillEntry) :
  isAlwaysInclude config s = true
  <-> alwaysInclude s = Some true \/ In (name s) (cfgAlwaysInclude config).
Proof.
  unfold isAlwaysInclude. rewrite orb_true_iff, existsb_exists. split.
  - intros [Hflag | [n [Hn Heq]]].
    + left. destruct (alwaysInclude s) as [[|]|]; [reflexivity | discriminate ..].
    + right. apply String.eqb_eq in Heq. rewrite Heq. exact Hn.
  - intros [-> | Hn]; [left; reflexivity|].
    right. exists (name s). split; [exact Hn | apply String.eqb_refl].
Qed.

(** C4, as stated, fails for an index in which two documents share a
    name: [scoreQuery] looks up the result of an always-include document by
    name and finds the first result of that name.  In [twin_index] both
    documents are named "a" and both carry the flag; for the query "zebra",
    which overlaps neither, the output holds the entry of the first
    document twice and no entry of the second. *)
Lemma C4_counterexample :
  In twin_second (skills twin_index)
  /\ alwaysInclude twin_second = Some true
  /\ scoreQuery twin_index "zebra" DEFAULT_CONFIG
     = [unmatched twin_first; unmatched twin_first]
  /\ ~ In twin_second (map skill (scoreQuery twin_index "zebra" DEFAULT_CONFIG)).
Proof.
  assert (Hall : allResults twin_index "zebra" DEFAULT_CONFIG
                 = [unmatched twin_first; unmatched twin_second]).
  { unfold allResults. rewrite scoreAll_terms by (vm_compute; discriminate).
    replace (tokenizeQuery "zebra") with ["zebra"] by (vm_compute; reflexivity).
    unfold twin_index, buildIndex. cbn [skills map].
    rewrite !scoreSkill_no_overlap
      by (intros t [<-|[]]; vm_compute; reflexivity).
    repeat (cbn [js_sort sort_insert byScoreDesc sub neg add score nonpos_or_nan];
            real_tests).
    reflexivity. }
  assert (Hout : scoreQuery twin_index "zebra" DEFAULT_CONFIG
                 = [unmatched twin_first; unmatched twin_first]).
  { unfold scoreQuery, alwaysIncludeResults, topResults. rewrite Hall.
    replace (alwaysIncludeSkills twin_index DEFAULT_CONFIG)
      with [twin_first; twin_second] by (vm_compute; reflexivity).
    cbn [map find List.filter unmatched skill name twin_first twin_second
         score geb existsb negb andb orb threshold DEFAULT_CONFIG default].
    rewrite !String.eqb_refl.
    cbn [map find List.filter unmatched skill name twin_first twin_second
         score geb existsb negb andb orb threshold DEFAULT_CONFIG default
         from_option id].
    real_tests. cbn [negb andb orb]. unfold slice0. reflexivity. }
  split; [right; left; reflexivity|]. split; [reflexivity|].
  split; [exact Hout|].
  rewrite Hout. cbn [map skill unmatched].
  intros [H | [H | []]]; discriminate H.
Qed.

(** C4, amended: in an index in which no two documents share a name, a
    document of the always-include set (its own flag set, or its name
    listed in [config.alwaysInclude]) has exactly one entry in the output
    of [scoreQuery], whatever the threshold and [maxResults]; the entry
    lies among the always-include results and not among the thresholded
    top results; and when no query term overlaps the document, the entry
    has score 0 and no matched terms. *)
Theorem C4_always_include_once (idx : SkillIndex) (query : string)
    (config : RouterConfig) (D : SkillEntry) :
  unique_names idx ->
  In D (skills idx) ->
  alwaysInclude D = Some true \/ In (name D) (cfgAlwaysInclude config) ->
  exists e,
    entriesOf D (scoreQuery idx query config) = [e]
    /\ skill e = D
    /\ In e (alwaysIncludeResults idx query config)
    /\ entriesOf D (topResults idx query config) = []
    /\ ((forall t, In t (tokenizeQuery query) -> getTermFrequency D t = 0) ->
        score e = Fin 0 /\ matchedKeywords e = []).
Proof.
  intros Hnd HD Hset.
  assert (Hai : isAlwaysInclude config D = true)
    by (apply isAlwaysInclude_spec; exact Hset).
  assert (HDai : In D (alwaysIncludeSkills idx config)).
  { unfold alwaysIncludeSkills. apply filter_In. auto. }
  exists (forcedEntry idx query config D).
  split; [|split; [|split; [|split]]].
  - apply entriesOf_scoreQuery; assumption.
  - apply forcedEntry_skill; assumption.
  - rewrite alwaysIncludeResults_map. apply in_map. exact HDai.
  - apply entriesOf_top. exact HDai.
  - intros Hno. rewrite (forcedEntry_no_overlap _ _ _ _ Hnd HD Hno).
    split; reflexivity.
Qed.

(** ** Document frequency (C7) *)

Lemma inherited_proto (k : string) : inherited k = false -> String.eqb k "__proto__" = false.
Proof.
  intros H. destruct (String.eqb_spec k "__proto__") as [->|]; [|reflexivity].
  vm_compute in H. discriminate.
Qed.

Lemma bump_same (df : gmap string JsVal) (t : string) :
  inherited t = false ->
  get_or_zero (bump df t) t = plus_one (get_or_zero df t).
Proof.
  intros Ht. unfold bump, js_set, get_or_zero at 1, js_get.
  destruct (df !! t) eqn:Hdf.
  - rewrite lookup_insert_eq. reflexivity.
  - rewrite (inherited_proto _ Ht), lookup_insert_eq. reflexivity.
Qed.

Lemma bump_other (df : gmap string JsVal) (t u : string) :
  t <> u -> get_or_zero (bump df u) t = get_or_zero df t.
Proof.
  intros Hne. unfold bump, js_set, get_or_zero, js_get.
  destruct (df !! u); [|destruct (String.eqb u "__proto__")];
    try rewrite lookup_insert_ne by congruence; reflexivity.
Qed.

(** One document: each of its distinct terms is bumped once. *)
Lemma bump_terms (l : list string) (df : gmap string JsVal) (t : string) :
  inherited t = false -> List.NoDup l ->
  get_or_zero (fold_left bump l df) t
  = if existsb (String.eqb t) l then plus_one (get_or_zero df t) else get_or_zero df t.
Proof.
  intros Ht. revert df. induction l as [|u l IH]; intros df Hnd; simpl; [reflexivity|].
  inversion Hnd as [|? ? Hu Hl]; subst. rewrite (IH _ Hl).
  destruct (String.eqb_spec t u) as [->|Hne]; simpl.
  - assert (Hex : existsb (String.eqb u) l = false).
    { destruct (existsb (String.eqb u) l) eqn:E; [|reflexivity].
      apply existsb_exists in E. destruct E as [x [Hx Heq]].
      apply String.eqb_eq in Heq. subst. contradiction. }
    rewrite Hex. apply bump_same. exact Ht.
  - rewrite (bump_other _ _ _ Hne). reflexivity.
Qed.

Lemma existsb_uniq (t : string) (l : list string) :
  existsb (String.eqb t) (uniq l) = existsb (String.eqb t) l.
Proof.
  apply eq_true_iff_eq. rewrite !existsb_exists.
  split; intros [x [Hx Heq]]; exists x; split; try exact Heq; apply uniq_In; exact Hx.
Qed.

Lemma documentFrequency_loop (skills : list SkillEntry) (df : gmap string JsVal)
    (t : string) (c : nat) :
  inherited t = false ->
  get_or_zero df t = JCount c ->
  get_or_zero (fold_left (fun df s => fold_left bump (allTerms s) df) skills df) t
  = JCount (c + containing t skills).
Proof.
  intros Ht. revert df c. induction skills as [|s skills IH]; intros df c Hdf.
  - simpl. rewrite Hdf. f_equal. unfold containing. simpl. lia.
  - cbn [fold_left]. unfold containing. cbn [List.filter].
    fold (containing t skills).
    destruct (existsb (String.eqb t) (keywords s ++ tokens s)) eqn:Hex.
    + rewrite (IH _ (S c)).
      * f_equal. unfold containing. simpl. lia.
      * unfold allTerms.
        rewrite (bump_terms _ _ _ Ht (uniq_NoDup _)), existsb_uniq, Hex, Hdf.
        reflexivity.
    + rewrite (IH _ c); [reflexivity|].
      unfold allTerms.
      rewrite (bump_terms _ _ _ Ht (uniq_NoDup _)), existsb_uniq, Hex, Hdf.
      reflexivity.
Qed.

(** For a term that is not a property name of [Object.prototype], the
    stored document frequency, read as the scorer reads it
    ([documentFrequency[term] ?? 0]), is the number of documents that hold
    the term among their keywords or tokens. *)
Lemma calculateDocumentFrequency_counts (skills : list SkillEntry) (t : string) :
  inherited t = false ->
  get_or_zero (calculateDocumentFrequency skills) t = JCount (containing t skills).
Proof.
  intros Ht. unfold calculateDocumentFrequency.
  rewrite (documentFrequency_loop skills ∅ t 0 Ht); [reflexivity|].
  unfold get_or_zero, js_get. rewrite lookup_empty, Ht. reflexivity.
Qed.

Lemma bump_own_same (df : gmap string JsVal) (t : string) :
  inherited t = false ->
  bump df t !! t = Some (plus_one (get_or_zero df t)).
Proof.
  intros Ht. unfold bump, js_set.
  destruct (df !! t) eqn:Hdf; [apply lookup_insert_eq|].
  rewrite (inherited_proto _ Ht). apply lookup_insert_eq.
Qed.

Lemma bump_own_other (df : gmap string JsVal) (t u : string) :
  t <> u -> bump df u !! t = df !! t.
Proof.
  intros Hne. unfold bump, js_set.
  destruct (df !! u); [|destruct (String.eqb u "__proto__")];
    try rewrite lookup_insert_ne by congruence; reflexivity.
Qed.

Lemma bump_terms_own (l : list string) (df : gmap string JsVal) (t : string) :
  inherited t = false -> List.NoDup l ->
  fold_left bump l df !! t
  = if existsb (String.eqb t) l then Some (plus_one (get_or_zero df t)) else df !! t.
Proof.
  intros Ht. revert df. induction l as [|u l IH]; intros df Hnd; simpl; [reflexivity|].
  inversion Hnd as [|? ? Hu Hl]; subst. rewrite (IH _ Hl).
  destruct (String.eqb_spec t u) as [->|Hne]; simpl.
  - assert (Hex : existsb (String.eqb u) l = false).
    { destruct (existsb (String.eqb u) l) eqn:E; [|reflexivity].
      apply existsb_exists in E. destruct E as [x [Hx Heq]].
      apply String.eqb_eq in Heq. subst. contradiction. }
    rewrite Hex. apply bump_own_same. exact Ht.
  - rewrite (bump_other _ _ _ Hne), (bump_own_other _ _ _ Hne). reflexivity.
Qed.

Lemma documentFrequency_loop_own (skills : list SkillEntry) (df : gmap string JsVal)
    (t : string) (c : nat) :
  inherited t = false ->
  df !! t = entry_of_count c ->
  fold_left (fun df s => fold_left bump (allTerms s) df) skills df !! t
  = entry_of_count (c + containing t skills).
Proof.
  intros Ht. revert df c. induction skills as [|s skills IH]; intros df c Hdf.
  - simpl. rewrite Hdf. f_equal. unfold containing. simpl. lia.
  - cbn [fold_left].
    assert (Hget : get_or_zero df t = JCount c).
    { unfold get_or_zero, js_get. rewrite Hdf, Ht. destruct c; reflexivity. }
    destruct (existsb (String.eqb t) (keywords s ++ tokens s)) eqn:Hex.
    + rewrite (IH _ (S c)).
      * f_equal. unfold containing. simpl. rewrite Hex. simpl. lia.
      * unfold allTerms.
        rewrite (bump_terms_own _ _ _ Ht (uniq_NoDup _)), existsb_uniq, Hex, Hget.
        reflexivity.
    + rewrite (IH _ c).
      * f_equal. unfold containing. simpl. rewrite Hex. reflexivity.
      * unfold allTerms.
        rewrite (bump_terms_own _ _ _ Ht (uniq_NoDup _)), existsb_uniq, Hex.
        exact Hdf.
Qed.

(** For a term that is not a property name of [Object.prototype], the
    map holds an entry exactly when some document holds the term, and the
    entry is the number of such documents. *)
Lemma calculateDocumentFrequency_lookup (skills : list SkillEntry) (t : string) :
  inherited t = false ->
  calculateDocumentFrequency skills !! t = entry_of_count (containing t skills).
Proof.
  intros Ht. unfold calculateDocumentFrequency.
  rewrite (documentFrequency_loop_own skills ∅ t 0 Ht); [reflexivity|].
  apply lookup_empty.
Qed.

(** For a property name of [Object.prototype], the map never holds a
    count: what the scorer reads for it is not a number, whatever the
    documents. *)
Lemma calculateDocumentFrequency_inherited (skills : list SkillEntry) (t : string) :
  inherited t = true ->
  get_or_zero (calculateDocumentFrequency skills) t = JOther.
Proof.
  intros Ht.
  set (ok := fun df : gmap string JsVal => df !! t = None \/ df !! t = Some JOther).
  assert (Hget : forall df, ok df -> get_or_zero df t = JOther).
  { intros df [H|H]; unfold get_or_zero, js_get; rewrite H, ?Ht; reflexivity. }
  assert (Hbump : forall df u, ok df -> ok (bump df u)).
  { intros df u Hok. destruct (string_dec t u) as [<-|Hne].
    - unfold ok, bump, js_set. rewrite (Hget df Hok). simpl.
      destruct (df !! t) eqn:Hdf.
      + right. apply lookup_insert_eq.
      + destruct (String.eqb t "__proto__"); [left; exact Hdf|].
        right. apply lookup_insert_eq.
    - unfold ok. rewrite (bump_own_other _ _ _ Hne). exact Hok. }
  assert (Hterms : forall l df, ok df -> ok (fold_left bump l df)).
  { induction l as [|u l IH]; intros df Hok; simpl; [exact Hok|].
    apply IH, Hbump, Hok. }
  assert (Hdocs : forall l df, ok df ->
            ok (fold_left (fun df s => fold_left bump (allTerms s) df) l df)).
  { induction l as [|s l IH]; intros df Hok; simpl; [exact Hok|].
    apply IH, Hterms, Hok. }
  apply Hget, Hdocs. left. apply lookup_empty.
Qed.

Lemma containing_le (t : string) (skills : list SkillEntry) :
  containing t skills <= length skills.
Proof. unfold containing. apply List.filter_length_le. Qed.

(** A term that occurs five times in one document counts once. *)
Example documentFrequency_presence :
  get_or_zero
    (calculateDocumentFrequency
       [mkSkill "a" ["alpha"; "alpha"; "beta"] ["alpha"; "alpha"; "alpha"];
        mkSkill "b" ["beta"] ["gamma"]])
    "alpha"
  = JCount 1.
Proof. vm_compute. reflexivity. Qed.

(** C7 fails on the code for the term "constructor": [df["constructor"]]
    on the fresh object [{}] is the function inherited from
    [Object.prototype], not [undefined], so [?? 0] does not apply and
    [+ 1] appends to its text.  One document holds the term, yet the value
    stored for it is not the count 1 (it is not a number at all), while the
    other terms of the same document are counted. *)
Theorem C7_constructor_not_counted :
  containing "constructor" [js_classes] = 1
  /\ documentFrequency (buildIndex EmptyString [js_classes]) !! "constructor" = Some JOther
  /\ documentFrequency (buildIndex EmptyString [js_classes]) !! "class" = Some (JCount 1).
Proof. vm_compute. repeat split; reflexivity. Qed.

(** ** BM25 over the reals *)

Lemma idf_argument_pos (N n : nat) :
  (0 < (INR N - INR n + 0.5) / (INR n + 0.5) + 1)%R.
Proof.
  pose proof (pos_INR n) as Hn. pose proof (pos_INR N) as HN.
  replace 0.5%R with (1 / 2)%R by lra.
  replace ((INR N - INR n + 1 / 2) / (INR n + 1 / 2) + 1)%R
    with ((INR N + 1) / (INR n + 1 / 2))%R by (field; lra).
  apply Rdiv_lt_0_compat; lra.
Qed.

Lemma idfR_pos (N n : nat) : n <= N -> (0 < idfR N n)%R.
Proof.
  intros H. apply le_INR in H. pose proof (pos_INR n) as Hn.
  unfold idfR. rewrite <- ln_1. apply ln_increasing; [lra|].
  assert (0 < (INR N - INR n + 0.5) / (INR n + 0.5))%R; [|lra].
  apply Rdiv_lt_0_compat; lra.
Qed.

Lemma normR_nonneg (k1 b avg : R) (dl : nat) :
  (0 <= k1)%R -> (0 <= b <= 1)%R -> (0 < avg)%R -> (0 <= normR k1 b avg dl)%R.
Proof.
  intros Hk Hb Havg. unfold normR.
  assert (0 <= INR dl / avg)%R.
  { apply Rle_mult_inv_pos; [apply pos_INR | exact Havg]. }
  apply Rmult_le_pos; [exact Hk|].
  assert (0 <= b * (INR dl / avg))%R by (apply Rmult_le_pos; lra).
  lra.
Qed.

Lemma normR_pos (k1 b avg : R) (dl : nat) :
  (0 < k1)%R -> (0 <= b <= 1)%R -> (0 < avg)%R -> 0 < dl ->
  (0 < normR k1 b avg dl)%R.
Proof.
  intros Hk Hb Havg Hdl. unfold normR.
  assert (Hr : (0 < INR dl / avg)%R).
  { apply Rdiv_lt_0_compat; [apply lt_0_INR; exact Hdl | exact Havg]. }
  apply Rmult_lt_0_compat; [exact Hk|].
  destruct (Req_dec_T b 1) as [->|Hne].
  - lra.
  - assert (0 <= b * (INR dl / avg))%R by (apply Rmult_le_pos; lra). lra.
Qed.

Lemma bm25R_nonneg (k1 b avg : R) (dl tf : nat) :
  (0 <= k1)%R -> (0 <= b <= 1)%R -> (0 < avg)%R -> 0 < tf ->
  (0 <= bm25R k1 b avg dl tf)%R.
Proof.
  intros Hk Hb Havg Htf. unfold bm25R.
  pose proof (normR_nonneg k1 b avg dl Hk Hb Havg) as Hn.
  apply lt_0_INR in Htf.
  apply Rle_mult_inv_pos; [apply Rmult_le_pos; lra | lra].
Qed.

(** The saturated term frequency grows with the term frequency. *)
Lemma bm25R_increasing (k1 b avg : R) (dl tf tf' : nat) :
  (0 < k1)%R -> (0 <= b <= 1)%R -> (0 < avg)%R -> 0 < dl ->
  0 < tf -> tf < tf' ->
  (bm25R k1 b avg dl tf < bm25R k1 b avg dl tf')%R.
Proof.
  intros Hk Hb Havg Hdl Htf Hlt. unfold bm25R.
  pose proof (normR_pos k1 b avg dl Hk Hb Havg Hdl) as HK.
  set (K := normR k1 b avg dl) in *.
  apply lt_0_INR in Htf. apply lt_INR in Hlt.
  set (x := INR tf) in *. set (y := INR tf') in *. set (c := (k1 + 1)%R).
  assert (Hc : (0 < c)%R) by (unfold c; lra).
  apply (Rmult_lt_reg_r ((x + K) * (y + K))).
  { apply Rmult_lt_0_compat; lra. }
  replace (x * c / (x + K) * ((x + K) * (y + K)))%R
    with (x * c * (y + K))%R by (field; lra).
  replace (y * c / (y + K) * ((x + K) * (y + K)))%R
    with (y * c * (x + K))%R by (field; lra).
  assert (0 < (y - x) * (c * K))%R
    by (apply Rmult_lt_0_compat; [lra | apply Rmult_lt_0_compat; lra]).
  lra.
Qed.

(** ** The scorer on numbers that stay finite *)

Lemma calculateIDF_count (idx : SkillIndex) (term : string) (n : nat) :
  get_or_zero (documentFrequency idx) term = JCount n ->
  calculateIDF idx term
  = Fin (if Nat.eqb n 0 then 0 else idfR (length (skills idx)) n).
Proof.
  intros H. unfold calculateIDF. rewrite H.
  destruct n as [|n]; [reflexivity|].
  cbn [to_num of_nat sub neg add Nat.eqb].
  rewrite div_fin.
  - cbn [add]. rewrite log_fin; [reflexivity|]. apply idf_argument_pos.
  - pose proof (pos_INR (S n)). lra.
Qed.

Lemma scoreTerm_fin (idx : SkillIndex) (k1 b : R) (s : SkillEntry)
    (x : R) (m : list string) (term : string) (n : nat) :
  get_or_zero (documentFrequency idx) term = JCount n ->
  avgDocLength idx <> 0%R ->
  (INR (getTermFrequency s term)
   + normR k1 b (avgDocLength idx) (getDocLength s))%R <> 0%R ->
  0 < getTermFrequency s term ->
  scoreTerm idx k1 b s (Fin x, m) term
  = (Fin (x + (if Nat.eqb n 0 then 0 else idfR (length (skills idx)) n)
              * bm25R k1 b (avgDocLength idx) (getDocLength s)
                      (getTermFrequency s term)),
     (m ++ [term])%list).
Proof.
  intros Hdf Havg Hden Htf. unfold scoreTerm.
  apply Nat.ltb_lt in Htf. rewrite Htf.
  rewrite (calculateIDF_count _ _ _ Hdf).
  unfold of_nat, sub. cbn [fst snd neg add mul].
  rewrite (div_fin _ _ Havg). cbn [add mul].
  rewrite div_fin by exact Hden.
  reflexivity.
Qed.

(** ** Consistent indexes *)

Lemma tf_pos_docLength (s : SkillEntry) (term : string) :
  0 < getTermFrequency s term -> 0 < getDocLength s.
Proof.
  rewrite getTermFrequency_hits. unfold keywordHits, tokenHits, getDocLength.
  pose proof (List.filter_length_le
                (fun keyword => String.eqb keyword term || includes keyword term)
                (keywords s)).
  pose proof (List.filter_length_le (fun token => String.eqb token term) (tokens s)).
  lia.
Qed.

Lemma totalLength_loop (l : list SkillEntry) (a : nat) (D : SkillEntry) :
  In D l ->
  a + getDocLength D
  <= fold_left (fun sum s => sum + length (keywords s) + length (tokens s)) l a.
Proof.
  assert (Hmono : forall l a,
             a <= fold_left (fun sum s => sum + length (keywords s) + length (tokens s)) l a).
  { clear. induction l as [|s l IH]; intros a; simpl; [lia|].
    etransitivity; [|apply IH]. lia. }
  revert a. induction l as [|s l IH]; intros a; simpl; [tauto|].
  intros [->|Hin].
  - etransitivity; [|apply Hmono]. unfold getDocLength. lia.
  - etransitivity; [|apply IH; exact Hin]. lia.
Qed.

Lemma avgDocLength_pos (idx : SkillIndex) (D : SkillEntry) :
  consistent idx -> In D (skills idx) -> 0 < getDocLength D ->
  (0 < avgDocLength idx)%R.
Proof.
  intros [_ Havg] Hin Hlen. rewrite Havg. unfold calculateAvgDocLength.
  destruct (skills idx) as [|s l] eqn:Hs; [destruct Hin|].
  cbn [length]. apply Rdiv_lt_0_compat.
  - apply lt_0_INR. pose proof (totalLength_loop (s :: l) 0 D Hin).
    unfold totalLength. lia.
  - apply lt_0_INR. lia.
Qed.

Lemma consistent_documentFrequency (idx : SkillIndex) (term : string) :
  consistent idx -> inherited term = false ->
  get_or_zero (documentFrequency idx) term
  = JCount (containing term (skills idx)).
Proof.
  intros [Hdf _] Ht. rewrite Hdf. apply calculateDocumentFrequency_counts. exact Ht.
Qed.

Lemma buildIndex_consistent (now : string) (scanned : list SkillEntry) :
  consistent (buildIndex now scanned).
Proof. split; reflexivity. Qed.

(** ** Scores are not negative (C3) *)

Section NonNegative.
Variable idx : SkillIndex.
Variables k1 b : R.
Hypothesis Hidx : consistent idx.
Hypothesis Hk1 : (0 <= k1)%R.
Hypothesis Hb : (0 <= b <= 1)%R.

Lemma scoreTerm_nonneg (s : SkillEntry) (x : R) (m : list string) (term : string) :
  In s (skills idx) -> inherited term = false -> (0 <= x)%R ->
  exists x' m', scoreTerm idx k1 b s (Fin x, m) term = (Fin x', m') /\ (0 <= x')%R.
Proof.
  intros Hs Ht Hx.
  destruct (Nat.ltb_spec 0 (getTermFrequency s term)) as [Htf|Htf].
  - pose proof (avgDocLength_pos idx s Hidx Hs (tf_pos_docLength _ _ Htf)) as Havg.
    pose proof (normR_nonneg k1 b _ (getDocLength s) Hk1 Hb Havg) as Hnorm.
    pose proof (lt_0_INR _ Htf) as Htf'.
    rewrite (scoreTerm_fin idx k1 b s x m term _
               (consistent_documentFrequency idx term Hidx Ht));
      [|lra|lra|exact Htf].
    eexists. eexists. split; [reflexivity|].
    pose proof (bm25R_nonneg k1 b _ (getDocLength s) _ Hk1 Hb Havg Htf) as Hfrac.
    assert (Hidf : (0 <= (if Nat.eqb (containing term (skills idx)) 0 then 0
                          else idfR (length (skills idx))
                                    (containing term (skills idx))))%R).
    { destruct (Nat.eqb _ 0); [lra|].
      apply Rlt_le, idfR_pos, containing_le. }
    pose proof (Rmult_le_pos _ _ Hidf Hfrac). lra.
  - exists x, m. split; [|exact Hx].
    unfold scoreTerm. apply Nat.ltb_ge in Htf. rewrite Htf. reflexivity.
Qed.

Lemma loop_nonneg (s : SkillEntry) (queryTerms : list string) (x : R) (m : list string) :
  In s (skills idx) ->
  Forall (fun t => inherited t = false) queryTerms ->
  (0 <= x)%R ->
  exists x' m',
    fold_left (scoreTerm idx k1 b s) queryTerms (Fin x, m) = (Fin x', m')
    /\ (0 <= x')%R.
Proof.
  intros Hs Hq. revert x m. induction Hq as [|t l Ht Hl IH]; intros x m Hx.
  - exists x, m. split; [reflexivity | exact Hx].
  - cbn [fold_left].
    destruct (scoreTerm_nonneg s x m t Hs Ht Hx) as [x1 [m1 [-> Hx1]]].
    apply IH. exact Hx1.
Qed.

Lemma scoreSkill_nonneg (s : SkillEntry) (queryTerms : list string) :
  In s (skills idx) ->
  Forall (fun t => inherited t = false) queryTerms ->
  exists x, score (scoreSkill idx k1 b s queryTerms) = Fin x /\ (0 <= x)%R.
Proof.
  intros Hs Hq.
  destruct (loop_nonneg s queryTerms 0 [] Hs Hq (Rle_refl 0)) as [x [m [Heq Hx]]].
  exists x. unfold scoreSkill. rewrite Heq. split; [reflexivity | exact Hx].
Qed.
End NonNegative.

Lemma forcedEntry_or_result (idx : SkillIndex) (query : string)
    (config : RouterConfig) (s : SkillEntry) :
  forcedEntry idx query config s = unmatched s
  \/ In (forcedEntry idx query config s) (allResults idx query config).
Proof.
  unfold forcedEntry. destruct (find _ _) as [r|] eqn:Hfind; simpl.
  - right. apply find_some in Hfind. tauto.
  - left. reflexivity.
Qed.

Lemma scoreQuery_In (idx : SkillIndex) (query : string) (config : RouterConfig)
    (e : ScoringResult) :
  In e (scoreQuery idx query config) ->
  (exists s, In s (alwaysIncludeSkills idx config) /\ e = unmatched s)
  \/ In e (allResults idx query config).
Proof.
  unfold scoreQuery. rewrite in_app_iff, alwaysIncludeResults_map, in_map_iff.
  intros [[s [<- Hs]] | Htop].
  - destruct (forcedEntry_or_result idx query config s) as [-> | Hin]; [|tauto].
    left. exists s. tauto.
  - right. apply topResults_spec in Htop. tauto.
Qed.

(** C3, as stated, fails for a scorer built with a negative [k1]: on the
    consistent index of the single document [one_doc], with [k1 = -1.5] and
    [b = 0.75], the query term "ab" gives the document the score
    [ln(4/3) * (-2)], which is negative. *)
Lemma C3_counterexample :
  consistent one_doc_index
  /\ In one_doc (skills one_doc_index)
  /\ exists x,
       score (scoreSkill one_doc_index (-1.5) 0.75 one_doc ["ab"]) = Fin x
       /\ (x < 0)%R.
Proof.
  split; [apply buildIndex_consistent|]. split; [left; reflexivity|].
  assert (Hdf : get_or_zero (documentFrequency one_doc_index) "ab" = JCount 1)
    by (vm_compute; reflexivity).
  assert (Htf : getTermFrequency one_doc "ab" = 2) by (vm_compute; reflexivity).
  assert (Havg : avgDocLength one_doc_index = 1%R).
  { unfold one_doc_index, buildIndex, calculateAvgDocLength, totalLength.
    simpl. lra. }
  assert (Hdl : getDocLength one_doc = 1) by reflexivity.
  assert (Hnorm : normR (-1.5) 0.75 1 1 = (-1.5)%R).
  { unfold normR. simpl. lra. }
  unfold scoreSkill. cbn [fold_left].
  rewrite (scoreTerm_fin _ _ _ _ _ _ _ _ Hdf); rewrite ?Htf, ?Havg, ?Hdl, ?Hnorm;
    [|lra|simpl; lra|lia].
  eexists. split; [reflexivity|].
  cbn [Nat.eqb length skills one_doc_index buildIndex].
  assert (Hidf : (0 < idfR 1 1)%R) by (apply idfR_pos; lia).
  assert (Hfrac : bm25R (-1.5) 0.75 1 1 2 = (-2)%R).
  { unfold bm25R. rewrite Hnorm. simpl. lra. }
  rewrite Hfrac. nra.
Qed.

(** C3, amended: on an index whose statistics are those of its documents,
    with [0 <= k1 <= 1000], [0 <= b <= 1] and a query without the term
    "constructor" (the one term of a tokenized query that is a property
    name of [Object.prototype]), the score of every document of the index,
    of every result of [scoreAll] and of every result of [scoreQuery] is a
    number that is not negative; and an entry of [scoreQuery] for a
    document that no query term overlaps, as the entry of a forced
    inclusion can be, has score exactly 0.  The bound
    1000 keeps the numerator and the denominator of the BM25 fraction
    finite in binary64; with [k1 = Infinity], which [getConfig] hands on
    from the environment, both are infinite and the score is [NaN]. *)
Theorem C3_scores_not_negative (idx : SkillIndex) (query : string)
    (config : RouterConfig) :
  consistent idx ->
  (0 <= bm25K1 config <= 1000)%R ->
  (0 <= bm25B config <= 1)%R ->
  ~ In "constructor" (tokenizeQuery query) ->
  (forall D, In D (skills idx) ->
     exists x,
       score (scoreSkill idx (bm25K1 config) (bm25B config) D (tokenizeQuery query))
       = Fin x /\ (0 <= x)%R)
  /\ (forall e, In e (scoreAll idx (bm25K1 config) (bm25B config) query) ->
        exists x, score e = Fin x /\ (0 <= x)%R)
  /\ (forall e, In e (scoreQuery idx query config) ->
        exists x, score e = Fin x /\ (0 <= x)%R)
  /\ (forall D e,
        (forall t, In t (tokenizeQuery query) -> getTermFrequency D t = 0) ->
        In e (scoreQuery idx query config) -> skill e = D ->
        score e = Fin 0).
Proof.
  intros Hidx [Hk1 _] Hb Hctor.
  pose proof (tokenizeQuery_not_inherited query Hctor) as Hq.
  assert (Hdoc : forall D, In D (skills idx) ->
            exists x,
              score (scoreSkill idx (bm25K1 config) (bm25B config) D
                                (tokenizeQuery query))
              = Fin x /\ (0 <= x)%R).
  { intros D HD. apply scoreSkill_nonneg; assumption. }
  assert (Hall : forall e, In e (allResults idx query config) ->
            exists x, score e = Fin x /\ (0 <= x)%R).
  { intros e He. apply allResults_In in He. destruct He as [s [Hs ->]].
    apply Hdoc. exact Hs. }
  split; [exact Hdoc|]. split; [exact Hall|]. split.
  - intros e He. apply scoreQuery_In in He.
    destruct He as [[s [_ ->]] | He]; [|apply Hall; exact He].
    exists 0%R. split; [reflexivity | lra].
  - intros D e Hno He Hskill. apply scoreQuery_In in He.
    destruct He as [[s [_ ->]] | He]; [reflexivity|].
    apply allResults_In in He. destruct He as [s [_ ->]].
    change (s = D) in Hskill. subst s.
    rewrite (scoreSkill_no_overlap _ _ _ _ _ Hno). reflexivity.
Qed.

(** ** Keywords outweigh tokens (C2) *)

Lemma containing_pos (term : string) (skills : list SkillEntry) (D : SkillEntry) :
  In D skills -> In term (keywords D ++ tokens D) -> 0 < containing term skills.
Proof.
  intros HD Hterm. unfold containing.
  destruct (List.filter _ skills) as [|s l] eqn:Hf; [|simpl; lia].
  exfalso.
  assert (Hin : In D (List.filter
                        (fun s => existsb (String.eqb term) (keywords s ++ tokens s))
                        skills)).
  { apply filter_In. split; [exact HD|]. apply existsb_exists.
    exists term. split; [exact Hterm | apply String.eqb_refl]. }
  rewrite Hf in Hin. destruct Hin.
Qed.

Lemma tokenHits_In (s : SkillEntry) (term : string) :
  0 < tokenHits s term -> In term (tokens s).
Proof.
  intros H. destruct (in_dec string_dec term (tokens s)) as [Hin|Hnin]; [exact Hin|].
  apply tokenHits_zero in Hnin. lia.
Qed.

Lemma bm25R_k1_zero (b avg : R) (dl tf : nat) :
  0 < tf -> bm25R 0 b avg dl tf = 1%R.
Proof.
  intros Htf. apply lt_0_INR in Htf. unfold bm25R, normR.
  rewrite Rmult_0_l. field. lra.
Qed.

Lemma match_index_score (k1 b : R) (s : SkillEntry) :
  In s (skills match_index) ->
  (INR (getTermFrequency s "github") + normR k1 b 1 1)%R <> 0%R ->
  score (scoreSkill match_index k1 b s ["github"])
  = Fin (0 + idfR 2 2 * bm25R k1 b 1 1 (getTermFrequency s "github")).
Proof.
  intros Hs Hden.
  assert (Hdf : get_or_zero (documentFrequency match_index) "github" = JCount 2)
    by (vm_compute; reflexivity).
  assert (Havg : avgDocLength match_index = 1%R).
  { unfold match_index, buildIndex, calculateAvgDocLength, totalLength. simpl. lra. }
  assert (Hdl : getDocLength s = 1).
  { destruct Hs as [<-|[<-|[]]]; reflexivity. }
  assert (Htf : 0 < getTermFrequency s "github").
  { destruct Hs as [<-|[<-|[]]]; vm_compute; lia. }
  unfold scoreSkill. cbn [fold_left].
  rewrite (scoreTerm_fin _ _ _ _ _ _ _ _ Hdf); rewrite ?Havg, ?Hdl;
    [reflexivity | lra | exact Hden | exact Htf].
Qed.

(** C2, as stated, fails for a scorer built with [k1 = 0], where the
    saturated term frequency no longer depends on the term frequency: the
    document matching "github" by a keyword only and the otherwise
    identical document matching it by a token only get the same score. *)
Lemma C2_counterexample :
  consistent match_index
  /\ (keywordHits keyword_match "github" = 1 /\ tokenHits keyword_match "github" = 0)
  /\ (keywordHits token_match "github" = 0 /\ tokenHits token_match "github" = 1)
  /\ getDocLength keyword_match = getDocLength token_match
  /\ score (scoreSkill match_index 0 0.75 keyword_match ["github"])
     = score (scoreSkill match_index 0 0.75 token_match ["github"]).
Proof.
  split; [apply buildIndex_consistent|].
  split; [split; vm_compute; reflexivity|].
  split; [split; vm_compute; reflexivity|].
  split; [reflexivity|].
  assert (Hk : getTermFrequency keyword_match "github" = 2) by (vm_compute; reflexivity).
  assert (Ht : getTermFrequency token_match "github" = 1) by (vm_compute; reflexivity).
  assert (Hnorm : normR 0 0.75 1 1 = 0%R) by (unfold normR; lra).
  rewrite !match_index_score;
    rewrite ?Hk, ?Ht, ?Hnorm;
    try (simpl; tauto); try (simpl; lra).
  rewrite !bm25R_k1_zero by lia. reflexivity.
Qed.

(** C2, amended: on an index whose statistics are those of its documents,
    with [1/1000 <= k1 <= 1000] and [0 <= b <= 1], for a query term that is
    not a property name of [Object.prototype]: of two documents of the
    index with the same length, the one that matches the term by keywords
    only gets a strictly higher score for it than the one that matches it
    by a single token only.  The range of [k1] keeps the two scores apart
    in binary64 as well: with [K = k1 * (1 - b + b * (docLength /
    avgDocLength))], the BM25 fraction for a term frequency of 2 or more
    is that for the term frequency 1 times at least [1 + K / (2 + K)], and
    [K] is above [1e-13] when the keyword and token arrays have at most
    [2^32 - 1] elements each; no product overflows.  For [k1 = 1e-20] both
    fractions round to 1, and for [k1 = Infinity] both scores are
    [NaN]. *)
Theorem C2_keyword_outweighs_token (idx : SkillIndex) (k1 b : R)
    (Dk Dt : SkillEntry) (T : string) :
  consistent idx ->
  In Dk (skills idx) -> In Dt (skills idx) ->
  inherited T = false ->
  (1 / 1000 <= k1 <= 1000)%R -> (0 <= b <= 1)%R ->
  0 < keywordHits Dk T -> tokenHits Dk T = 0 ->
  keywordHits Dt T = 0 -> tokenHits Dt T = 1 ->
  getDocLength Dk = getDocLength Dt ->
  exists x y,
    score (scoreSkill idx k1 b Dk [T]) = Fin x
    /\ score (scoreSkill idx k1 b Dt [T]) = Fin y
    /\ (y < x)%R.
Proof.
  intros Hidx HDk HDt HT Hrange Hb Hkk Hkt Htk Htt Hlen.
  assert (Hk1 : (0 < k1)%R) by lra.
  assert (Htfk : getTermFrequency Dk T = 2 * keywordHits Dk T)
    by (rewrite getTermFrequency_hits; lia).
  assert (Htft : getTermFrequency Dt T = 1)
    by (rewrite getTermFrequency_hits; lia).
  assert (Hdlt : 0 < getDocLength Dt) by (apply (tf_pos_docLength Dt T); lia).
  pose proof (avgDocLength_pos idx Dt Hidx HDt Hdlt) as Havg.
  pose proof (normR_pos k1 b _ _ Hk1 Hb Havg Hdlt) as Hnorm.
  pose proof (consistent_documentFrequency idx T Hidx HT) as Hdf.
  assert (Hn : 0 < containing T (skills idx)).
  { apply (containing_pos T _ Dt HDt). apply in_or_app. right.
    apply tokenHits_In. lia. }
  pose proof (containing_le T (skills idx)) as HnN.
  pose proof (idfR_pos _ _ HnN) as Hidf.
  unfold scoreSkill. cbn [fold_left].
  rewrite (scoreTerm_fin idx k1 b Dk _ _ T _ Hdf);
    [|lra|rewrite Hlen; pose proof (pos_INR (getTermFrequency Dk T)); lra|lia].
  rewrite (scoreTerm_fin idx k1 b Dt _ _ T _ Hdf);
    [|lra|pose proof (pos_INR (getTermFrequency Dt T)); lra|lia].
  eexists. eexists. split; [reflexivity|]. split; [reflexivity|].
  destruct (Nat.eqb_spec (containing T (skills idx)) 0) as [Hz|_]; [lia|].
  rewrite Hlen, Htft.
  assert (Hinc : (bm25R k1 b (avgDocLength idx) (getDocLength Dt) 1
                  < bm25R k1 b (avgDocLength idx) (getDocLength Dt)
                          (getTermFrequency Dk T))%R).
  { apply bm25R_increasing; try assumption; lia. }
  apply Rplus_lt_compat_l. apply Rmult_lt_compat_l; assumption.
Qed.

(** The two documents of the test, with the default [k1] and [b]. *)
Lemma C2_keyword_outweighs_token_witness :
  exists x y,
    score (scoreSkill match_index 1.2 0.75 keyword_match ["github"]) = Fin x
    /\ score (scoreSkill match_index 1.2 0.75 token_match ["github"]) = Fin y
    /\ (y < x)%R.
Proof.
  apply (C2_keyword_outweighs_token match_index 1.2 0.75 keyword_match token_match
                                    "github").
  - apply buildIndex_consistent.
  - left. reflexivity.
  - right. left. reflexivity.
  - vm_compute. reflexivity.
  - lra.
  - lra.
  - vm_compute. lia.
  - vm_compute. reflexivity.
  - vm_compute. reflexivity.
  - vm_compute. reflexivity.
  - reflexivity.
Defined.

(** ** The IDF of a term (C9) *)

(** For a term whose stored document frequency is a number, the IDF is 0
    when that number is 0 and the logarithm of the specification otherwise;
    the divisor [n + 0.5] is never zero and the result is finite. *)
Lemma calculateIDF_formula (idx : SkillIndex) (term : string) (n : nat) :
  get_or_zero (documentFrequency idx) term = JCount n ->
  (INR n + 0.5 <> 0)%R
  /\ calculateIDF idx term
     = match n with
       | O => Fin 0
       | S _ => Fin (ln ((INR (length (skills idx)) - INR n + 0.5) / (INR n + 0.5) + 1))
       end.
Proof.
  intros H. split.
  - pose proof (pos_INR n). lra.
  - rewrite (calculateIDF_count _ _ _ H). destruct n; reflexivity.
Qed.

(** A term that the map does not hold, and that [Object.prototype] does
    not define, has IDF 0. *)
Lemma calculateIDF_unknown (idx : SkillIndex) (term : string) :
  documentFrequency idx !! term = None -> inherited term = false ->
  calculateIDF idx term = Fin 0.
Proof.
  intros Hnone Ht.
  rewrite (calculateIDF_count idx term 0); [reflexivity|].
  unfold get_or_zero, js_get. rewrite Hnone, Ht. reflexivity.
Qed.

(** A term that the map does not hold, but that [Object.prototype]
    defines, has IDF [NaN]. *)
Lemma calculateIDF_inherited (idx : SkillIndex) (term : string) :
  documentFrequency idx !! term = None -> inherited term = true ->
  calculateIDF idx term = NaN.
Proof.
  intros Hnone Ht. unfold calculateIDF, get_or_zero, js_get.
  rewrite Hnone, Ht. reflexivity.
Qed.

(** On an index whose statistics are those of its documents, the IDF of a
    property name of [Object.prototype] is [NaN], whatever the documents. *)
Lemma calculateIDF_inherited_consistent (idx : SkillIndex) (term : string) :
  consistent idx -> inherited term = true -> calculateIDF idx term = NaN.
Proof.
  intros [Hdf _] Ht. unfold calculateIDF.
  rewrite Hdf, (calculateDocumentFrequency_inherited _ _ Ht). reflexivity.
Qed.

(** C9 fails on the code for the term "constructor": no document of
    [class_index] holds it and the map has no entry for it, yet
    [documentFrequency["constructor"]] is the function inherited from
    [Object.prototype], so the guard [n === 0] does not fire, [N - n] is
    [NaN], and the IDF is [NaN] instead of 0.  The keyword "constructors"
    contains the term, so the IDF is used, and the score of the document
    becomes [NaN]. *)
Theorem C9_constructor_idf_nan :
  containing "constructor" (skills class_index) = 0
  /\ documentFrequency class_index !! "constructor" = None
  /\ calculateIDF class_index "constructor" = NaN
  /\ score (scoreSkill class_index 1.2 0.75 class_patterns
                       (tokenizeQuery "write a constructor")) = NaN.
Proof.
  assert (Hnone : documentFrequency class_index !! "constructor" = None)
    by (vm_compute; reflexivity).
  assert (Hidf : calculateIDF class_index "constructor" = NaN)
    by (apply calculateIDF_inherited; [exact Hnone | vm_compute; reflexivity]).
  split; [vm_compute; reflexivity|]. split; [exact Hnone|]. split; [exact Hidf|].
  replace (tokenizeQuery "write a constructor") with ["write"; "constructor"]
    by (vm_compute; reflexivity).
  unfold scoreSkill. cbn [fold_left]. unfold scoreTerm.
  replace (getTermFrequency class_patterns "write") with 0 by (vm_compute; reflexivity).
  replace (getTermFrequency class_patterns "constructor") with 2
    by (vm_compute; reflexivity).
  rewrite Hidf. reflexivity.
Qed.

(** ** Witnesses on the corpus with an always-include document *)

Lemma routed_corpus_unique_names : unique_names routed_corpus.
Proof.
  unfold unique_names. simpl.
  repeat (constructor; [simpl; intuition discriminate|]). constructor.
Qed.

(** The default configuration on [routed_corpus]. *)
Lemma C3_scores_not_negative_witness :
  (forall D, In D (skills routed_corpus) ->
     exists x,
       score (scoreSkill routed_corpus (bm25K1 DEFAULT_CONFIG) (bm25B DEFAULT_CONFIG) D
                         (tokenizeQuery "create a github pull request"))
       = Fin x /\ (0 <= x)%R)
  /\ (forall e,
        In e (scoreAll routed_corpus (bm25K1 DEFAULT_CONFIG) (bm25B DEFAULT_CONFIG)
                       "create a github pull request") ->
        exists x, score e = Fin x /\ (0 <= x)%R)
  /\ (forall e, In e (scoreQuery routed_corpus "create a github pull request" DEFAULT_CONFIG) ->
        exists x, score e = Fin x /\ (0 <= x)%R)
  /\ (forall D e,
        (forall t, In t (tokenizeQuery "create a github pull request") ->
                   getTermFrequency D t = 0) ->
        In e (scoreQuery routed_corpus "create a github pull request" DEFAULT_CONFIG) ->
        skill e = D ->
        score e = Fin 0).
Proof.
  apply (C3_scores_not_negative routed_corpus "create a github pull request" DEFAULT_CONFIG).
  - apply buildIndex_consistent.
  - simpl. lra.
  - simpl. lra.
  - vm_compute. intuition discriminate.
Defined.

(** The document "database" of [routed_corpus], which does not carry the
    flag and is named in [alwaysInclude], with a threshold above any
    score. *)
Lemma C4_always_include_once_witness :
  alwaysInclude database = None
  /\ exists e,
       entriesOf database (scoreQuery routed_corpus "create github pr" named_config)
       = [e]
       /\ skill e = database
       /\ In e (alwaysIncludeResults routed_corpus "create github pr" named_config)
       /\ entriesOf database (topResults routed_corpus "create github pr" named_config)
          = []
       /\ ((forall t, In t (tokenizeQuery "create github pr") ->
                      getTermFrequency database t = 0) ->
           score e = Fin 0 /\ matchedKeywords e = []).
Proof.
  split; [reflexivity|].
  apply (C4_always_include_once routed_corpus "create github pr" named_config
                                database).
  - apply routed_corpus_unique_names.
  - right. right. right. left. reflexivity.
  - right. left. reflexivity.
Defined.

(** The query "create github pr" on [routed_corpus]: its scores are
    numbers. *)
Lemma C8_scoreAll_sorted_stable_witness :
  let inIndexOrder :=
    map (fun s => scoreSkill routed_corpus 1.2 0.75 s (tokenizeQuery "create github pr"))
        (skills routed_corpus) in
  Permutation (scoreAll routed_corpus 1.2 0.75 "create github pr") inIndexOrder
  /\ map skill inIndexOrder = skills routed_corpus
  /\ StronglySorted desc (scoreAll routed_corpus 1.2 0.75 "create github pr")
  /\ forall v, List.filter (has_score v) (scoreAll routed_corpus 1.2 0.75 "create github pr")
               = List.filter (has_score v) inIndexOrder.
Proof.
  apply (C8_scoreAll_sorted_stable routed_corpus 1.2 0.75 "create github pr").
  - vm_compute. discriminate.
  - apply List.Forall_forall. intros s Hs.
    assert (Hk1 : (0 <= 1.2)%R) by lra.
    assert (Hb : (0 <= 0.75 <= 1)%R) by lra.
    assert (Hq : Forall (fun t => inherited t = false) (tokenizeQuery "create github pr"))
      by (vm_compute; repeat constructor).
    destruct (scoreSkill_nonneg routed_corpus 1.2 0.75
                (buildIndex_consistent _ _) Hk1 Hb s _ Hs Hq) as [x [Hx _]].
    rewrite Hx. discriminate.
Defined.


(** ** The test "scores skills based on keyword matches" *)

(** On the three documents of the test, the query "create github pr"
    ranks "github-pr" first with a positive score, and leaves the other
    two at score 0 in index order. *)
Example scoreAll_create_github_pr :
  exists x,
    (0 < x)%R
    /\ map (fun r => (name (skill r), score r, matchedKeywords r))
           (scoreAll corpus 1.2 0.75 "create github pr")
       = [("github-pr", Fin x, ["github"; "pr"]);
          ("git-commit", Fin 0, []);
          ("database", Fin 0, [])].
Proof.
  assert (Hq : tokenizeQuery "create github pr" = ["create"; "github"; "pr"])
    by (vm_compute; reflexivity).
  assert (Havg : avgDocLength corpus = 3%R).
  { unfold corpus, buildIndex, calculateAvgDocLength, totalLength. simpl. lra. }
  assert (Hk1 : (0 <= 1.2)%R) by lra.
  assert (Hb : (0 <= 0.75 <= 1)%R) by lra.
  assert (Hin : In github_pr (skills corpus)) by (left; reflexivity).
  assert (Hnorm : (0 <= normR 1.2 0.75 3 (getDocLength github_pr))%R)
    by (apply normR_nonneg; lra).
  assert (Hfrac : (0 < bm25R 1.2 0.75 3 (getDocLength github_pr) 2)%R).
  { unfold bm25R. apply Rdiv_lt_0_compat; simpl INR; lra. }
  assert (Hgh : get_or_zero (documentFrequency corpus) "github" = JCount 1)
    by (vm_compute; reflexivity).
  assert (Hpr : get_or_zero (documentFrequency corpus) "pr" = JCount 1)
    by (vm_compute; reflexivity).
  assert (Hidf : (0 < idfR 3 1)%R) by (apply idfR_pos; lia).
  rewrite scoreAll_terms by (rewrite Hq; discriminate).
  rewrite Hq. unfold corpus at 2, buildIndex. cbn [skills map].
  rewrite (scoreSkill_no_overlap _ _ _ git_commit)
    by (intros t [<-|[<-|[<-|[]]]]; vm_compute; reflexivity).
  rewrite (scoreSkill_no_overlap _ _ _ database)
    by (intros t [<-|[<-|[<-|[]]]]; vm_compute; reflexivity).
  assert (Hscore : exists x, (0 < x)%R
            /\ scoreSkill corpus 1.2 0.75 github_pr ["create"; "github"; "pr"]
               = {| skill := github_pr; score := Fin x;
                    matchedKeywords := ["github"; "pr"] |}).
  { unfold scoreSkill. cbn [fold_left].
    assert (Hcreate : forall acc, scoreTerm corpus 1.2 0.75 github_pr acc "create" = acc).
    { intros acc. unfold scoreTerm.
      replace (getTermFrequency github_pr "create") with 0 by (vm_compute; reflexivity).
      reflexivity. }
    assert (Htf1 : getTermFrequency github_pr "github" = 2) by (vm_compute; reflexivity).
    assert (Htf2 : getTermFrequency github_pr "pr" = 2) by (vm_compute; reflexivity).
    rewrite Hcreate.
    rewrite (scoreTerm_fin _ _ _ _ _ _ _ _ Hgh); rewrite ?Htf1, ?Havg;
      [|lra|simpl INR; lra|lia].
    rewrite (scoreTerm_fin _ _ _ _ _ _ _ _ Hpr); rewrite ?Htf2, ?Havg;
      [|lra|simpl INR; lra|lia].
    eexists. split; [|reflexivity].
    cbn [Nat.eqb length skills corpus buildIndex].
    assert (0 < idfR 3 1 * bm25R 1.2 0.75 3 (getDocLength github_pr) 2)%R
      by (apply Rmult_lt_0_compat; assumption).
    lra. }
  destruct Hscore as [x [Hx ->]]. exists x. split; [exact Hx|].
  unfold unmatched.
  repeat (cbn [js_sort sort_insert byScoreDesc sub neg add score nonpos_or_nan];
          real_tests).
  reflexivity.
Qed.

(** ** Scores that are not numbers (C8) *)

(** C8, as stated, fails when a score is [NaN]: with [k1 = -1] and [b = 0]
    the numerator [tf * (k1 + 1)] is 0 and, for the token match of term
    frequency 1, so is the denominator [tf + k1]; the score of
    [token_match] is [NaN], that of [keyword_match] is 0, and neither order
    of the two results is descending, since [0 >= NaN] and [NaN >= 0] are
    both false. *)
Lemma C8_counterexample :
  tokenizeQuery "github" <> []
  /\ map score (scoreAll match_index (-1) 0 "github") = [Fin 0; NaN]
  /\ ~ StronglySorted desc (scoreAll match_index (-1) 0 "github")
  /\ ~ StronglySorted desc (rev (scoreAll match_index (-1) 0 "github")).
Proof.
  assert (Hq : tokenizeQuery "github" = ["github"]) by (vm_compute; reflexivity).
  assert (Hdf : get_or_zero (documentFrequency match_index) "github" = JCount 2)
    by (vm_compute; reflexivity).
  assert (Havg : avgDocLength match_index = 1%R).
  { unfold match_index, buildIndex, calculateAvgDocLength, totalLength. simpl. lra. }
  assert (Hk : score (scoreSkill match_index (-1) 0 keyword_match ["github"]) = Fin 0).
  { rewrite match_index_score.
    - f_equal. unfold bm25R, normR. simpl. lra.
    - left. reflexivity.
    - unfold normR. simpl. lra. }
  assert (Ht : score (scoreSkill match_index (-1) 0 token_match ["github"]) = NaN).
  { unfold scoreSkill. cbn [fold_left score]. unfold scoreTerm.
    replace (getTermFrequency token_match "github") with 1 by (vm_compute; reflexivity).
    cbn [Nat.ltb Nat.leb fst snd]. rewrite (calculateIDF_count _ _ _ Hdf), Havg.
    unfold of_nat, sub. cbn [neg add mul getDocLength].
    rewrite (div_fin _ 1) by lra. cbn [add mul].
    unfold div at 1. rewrite !Reqb_true by (simpl; lra). reflexivity. }
  assert (Hall : scoreAll match_index (-1) 0 "github"
                 = [scoreSkill match_index (-1) 0 keyword_match ["github"];
                    scoreSkill match_index (-1) 0 token_match ["github"]]).
  { rewrite scoreAll_terms by (rewrite Hq; discriminate). rewrite Hq.
    change (skills match_index) with [keyword_match; token_match].
    cbn [map js_sort sort_insert].
    unfold byScoreDesc. rewrite Hk, Ht. reflexivity. }
  split; [rewrite Hq; discriminate|].
  rewrite Hall. cbn [map rev app]. rewrite Hk, Ht.
  split; [reflexivity|]. split.
  - intros H. inversion H as [|? ? _ Hhd]; subst. inversion Hhd as [|? ? Hd _]; subst.
    unfold desc in Hd. rewrite Hk, Ht in Hd. discriminate.
  - intros H. inversion H as [|? ? _ Hhd]; subst. inversion Hhd as [|? ? Hd _]; subst.
    unfold desc in Hd. rewrite Hk, Ht in Hd. discriminate.
Qed.

(** * Further properties *)

(** ** The rest of the pipeline on small inputs *)

(** The tests of [extractKeywordsSection]. *)
Example extractKeywordsSection_tests :
  extractKeywordsSection
    ("# Some Content" ++ newline ++ newline ++ "## Keywords" ++ newline ++ newline
     ++ "github, pull request, code review" ++ newline ++ newline
     ++ "## Other Section" ++ newline)
  = ["github"; "pull request"; "code review"]
  /\ extractKeywordsSection
       ("## Keywords" ++ newline ++ newline ++ "- github" ++ newline
        ++ "- pull request" ++ newline ++ "- code review" ++ newline)
     = ["github"; "pull request"; "code review"]
  /\ extractKeywordsSection
       ("## Keywords" ++ newline ++ newline ++ "* github" ++ newline ++ "* pr" ++ newline)
     = ["github"; "pr"]
  /\ extractKeywordsSection
       ("# Just a title" ++ newline ++ newline ++ "Some content without keywords."
        ++ newline)
     = []
  /\ extractKeywordsSection
       ("## KEYWORDS" ++ newline ++ newline ++ "github, pr" ++ newline)
     = ["github"; "pr"].
Proof. vm_compute. repeat split; reflexivity. Qed.

(** A list with a comma in one item is read in both ways. *)
Example extractKeywordsSection_mixed :
  extractKeywordsSection
    ("## Keywords" ++ newline ++ newline ++ "- github" ++ newline
     ++ "- pull request, pr" ++ newline)
  = ["- github" ++ newline ++ "- pull request"; "pr"; "github"; "pull request, pr"].
Proof. vm_compute. reflexivity. Qed.

(** The tests of [extractKeywords]. *)
Example extractKeywords_tests :
  extractKeywords "Creates GitHub pull requests"
                  ("## Keywords" ++ newline ++ newline ++ "pr, merge" ++ newline)
  = ["pr"; "merge"; "creates"; "github"; "pull"; "requests"]
  /\ extractKeywords "GitHub integration"
                     ("## Keywords" ++ newline ++ newline ++ "github, integration"
                      ++ newline)
     = ["github"; "integration"].
Proof. vm_compute. split; reflexivity. Qed.

(** The test "extracts keywords and tokens" of [scanSkillDirectory]. *)
Example scanSkillDirectory_test :
  map (fun s => (name s, keywords s, tokens s, alwaysInclude s))
      (scanSkillDirectory
         (Some [skill_dir "/tmp/keyword-skill" "keyword-skill" "GitHub PR creation"
                          (newline ++ "Creates pull requests." ++ newline ++ newline
                           ++ "## Keywords" ++ newline ++ newline
                           ++ "github, pr, merge" ++ newline)]))
  = [("keyword-skill", ["github"; "pr"; "merge"; "creation"],
      ["creates"; "pull"; "requests"; "keywords"; "github"; "pr"; "merge"],
      Some false)].
Proof. vm_compute. reflexivity. Qed.

(** The test "builds index with document frequency": the scan gives the
    documents of [shared_corpus]. *)
Example buildIndex_test :
  map (fun s => mkSkill (name s) (keywords s) (tokens s))
      (scanAllSkillDirectories
         [Some [skill_dir "/tmp/skill-1" "skill-1" "shared unique1"
                          (newline ++ "Content with shared term." ++ newline);
                skill_dir "/tmp/skill-2" "skill-2" "shared unique2"
                          (newline ++ "Content with shared term." ++ newline)]])
  = skills shared_corpus
  /\ map (fun t => documentFrequency shared_corpus !! t) ["shared"; "unique1"; "unique2"]
     = [Some (JCount 2); Some (JCount 1); Some (JCount 1)]
  /\ uniqueTerms shared_corpus = 5.
Proof. vm_compute. repeat split; reflexivity. Qed.

(** A skill of a later directory with a name already seen is dropped, and
    so is a directory entry without SKILL.md or without a name. *)
Example scanAllSkillDirectories_priority :
  map (fun s => (name s, location s))
      (scanAllSkillDirectories
         [Some [github_dir;
                {| skillDir := "/skills/notes"; isDirectory := Some true;
                   hasSkillFile := false; skillFile := None |}];
          None;
          Some [skill_dir "/managed/github" "github-pr" "Another GitHub skill" EmptyString;
                skill_dir "/managed/empty" EmptyString "No name" EmptyString;
                database_dir]])
  = [("github-pr", "/skills/github-pr"); ("database", "/skills/database")].
Proof. vm_compute. reflexivity. Qed.

(** Without variables in the environment, [getConfig] returns the
    defaults. *)
Example getConfig_defaults :
  getConfig {| SKILL_ROUTER_MAX_RESULTS := None; SKILL_ROUTER_THRESHOLD := None;
               SKILL_ROUTER_BM25_K1 := None; SKILL_ROUTER_BM25_B := None;
               SKILL_ROUTER_ALWAYS_INCLUDE := None; SKILL_ROUTER_CONTEXT_PATH := None;
               SKILL_ROUTER_INDEX_PATH := None |}
  = {| envMaxResults := maxResults DEFAULT_CONFIG;
       envThreshold := Fin (threshold DEFAULT_CONFIG);
       envBm25K1 := Fin (bm25K1 DEFAULT_CONFIG);
       envBm25B := Fin (bm25B DEFAULT_CONFIG);
       envAlwaysInclude := cfgAlwaysInclude DEFAULT_CONFIG;
       contextFilePath := ".skill-router-context.md";
       indexPath := ".skill-router-index.json" |}.
Proof. reflexivity. Qed.

(** ** The tokens of a text *)

Lemma map_chars_app (f : ascii -> ascii) (s t : string) :
  map_chars f (s ++ t) = map_chars f s ++ map_chars f t.
Proof.
  induction s as [|c s IH]; [reflexivity|].
  rewrite !append_cons. simpl. rewrite IH. reflexivity.
Qed.

Lemma map_chars_id (f : ascii -> ascii) (s : string) :
  all_chars (fun c => Ascii.eqb (f c) c) s = true -> map_chars f s = s.
Proof.
  induction s as [|c s IH]; [reflexivity|]. simpl.
  intros H. apply andb_true_iff in H. destruct H as [Hc Hs].
  apply Ascii.eqb_eq in Hc. rewrite Hc, (IH Hs). reflexivity.
Qed.

Lemma all_chars_impl (p q : ascii -> bool) (s : string) :
  (forall c, p c = true -> q c = true) ->
  all_chars p s = true -> all_chars q s = true.
Proof.
  intros Hpq. induction s as [|c s IH]; [reflexivity|]. simpl.
  intros H. apply andb_true_iff in H. destruct H as [Hc Hs].
  rewrite (Hpq c Hc), (IH Hs). reflexivity.
Qed.

(** A fact about every character, checked on the 256 of them. *)
Lemma forall_ascii (p : ascii -> bool) :
  forallb p (map ascii_of_nat (seq 0 256)) = true -> forall c, p c = true.
Proof.
  intros H c. rewrite forallb_forall in H. apply H.
  rewrite <- (ascii_nat_embedding c). apply in_map. apply in_seq.
  pose proof (nat_ascii_bounded c). lia.
Qed.

Lemma term_char_lower (c : ascii) : term_char c = true -> lower_char c = c.
Proof.
  intros H. apply Ascii.eqb_eq. revert H.
  apply (implb_true_iff (term_char c) (Ascii.eqb (lower_char c) c)).
  revert c. apply forall_ascii. vm_compute. reflexivity.
Qed.

Lemma term_char_kept (c : ascii) : term_char c = true -> is_kept c = true.
Proof.
  apply (implb_true_iff (term_char c) (is_kept c)).
  revert c. apply forall_ascii. vm_compute. reflexivity.
Qed.

Lemma term_char_not_space (c : ascii) : term_char c = true -> is_space c = false.
Proof.
  intros H. apply negb_true_iff. revert H.
  apply (implb_true_iff (term_char c) (negb (is_space c))).
  revert c. apply forall_ascii. vm_compute. reflexivity.
Qed.

Lemma lower_char_space (c : ascii) : is_space (lower_char c) = is_space c.
Proof.
  apply Bool.eqb_prop. revert c. apply forall_ascii. vm_compute. reflexivity.
Qed.

Lemma toLowerCase_term (w : string) :
  all_chars term_char w = true -> toLowerCase w = w.
Proof.
  intros H. apply map_chars_id. revert H. apply all_chars_impl.
  intros c Hc. apply Ascii.eqb_eq, term_char_lower, Hc.
Qed.

Lemma replace_punct_term (w : string) :
  all_chars term_char w = true -> replace_punct w = w.
Proof.
  intros H. apply map_chars_id. revert H. apply all_chars_impl.
  intros c Hc. rewrite (term_char_kept c Hc). apply Ascii.eqb_refl.
Qed.

Lemma append_nil_r (s : string) : s ++ EmptyString = s.
Proof.
  induction s as [|c s IH]; [reflexivity|]. rewrite append_cons, IH. reflexivity.
Qed.

Lemma append_assoc (s t u : string) : (s ++ t) ++ u = s ++ (t ++ u).
Proof.
  induction s as [|c s IH]; [reflexivity|]. rewrite !append_cons, IH. reflexivity.
Qed.


Lemma split_ws_from_term (w cur : string) :
  all_chars term_char w = true ->
  split_ws_from cur false w = [cur ++ w].
Proof.
  revert cur. induction w as [|c w IH]; intros cur H; simpl.
  - rewrite append_nil_r. reflexivity.
  - simpl in H. apply andb_true_iff in H. destruct H as [Hc Hw].
    rewrite (term_char_not_space c Hc), (IH _ Hw), append_assoc. reflexivity.
Qed.

Lemma tokenize_filters (text t : string) :
  In t (tokenize text) ->
  2 <= String.length t /\ is_stopword t = false.
Proof.
  unfold tokenize, words_of. intros H.
  apply filter_In in H. destruct H as [H Hstop].
  apply filter_In in H. destruct H as [_ Hlen].
  apply negb_true_iff in Hstop. apply Nat.leb_le in Hlen.
  split; [exact Hlen | exact Hstop].
Qed.

Lemma tokenize_token (w : string) :
  2 <= String.length w -> is_stopword w = false ->
  all_chars term_char w = true ->
  tokenize w = [w].
Proof.
  intros Hlen Hstop Hc. unfold tokenize, words_of.
  rewrite (toLowerCase_term w Hc), (replace_punct_term w Hc).
  unfold split_ws. rewrite (split_ws_from_term w EmptyString Hc), append_nil_l.
  apply Nat.leb_le in Hlen. cbn [List.filter]. unfold MIN_TOKEN_LENGTH.
  rewrite Hlen. cbn [List.filter]. rewrite Hstop. reflexivity.
Qed.

(** The pieces of two texts joined by white space. *)
Lemma split_ws_true_false (p : string -> bool) (s : string) :
  p EmptyString = false ->
  List.filter p (split_ws_from EmptyString true s)
  = List.filter p (split_ws_from EmptyString false s).
Proof.
  intros Hp. destruct s as [|c s]; [reflexivity|]. simpl.
  destruct (is_space c); [|reflexivity]. simpl. rewrite Hp. reflexivity.
Qed.

Lemma split_ws_from_app (p : string -> bool) (s1 s2 cur : string) (in_run : bool)
    (sp : ascii) :
  p EmptyString = false ->
  is_space sp = true ->
  (in_run = true -> cur = EmptyString) ->
  List.filter p (split_ws_from cur in_run (s1 ++ String sp s2))
  = (List.filter p (split_ws_from cur in_run s1) ++ List.filter p (split_ws s2))%list.
Proof.
  intros Hp Hsp. revert cur in_run.
  induction s1 as [|c s1 IH]; intros cur in_run Hinv.
  - rewrite append_nil_l. simpl. rewrite Hsp. unfold split_ws.
    destruct in_run.
    + rewrite (Hinv eq_refl), Hp. simpl. apply split_ws_true_false, Hp.
    + simpl. destruct (p cur); simpl; rewrite (split_ws_true_false p s2 Hp); reflexivity.
  - rewrite append_cons. simpl. destruct (is_space c).
    + destruct in_run.
      * apply IH. reflexivity.
      * simpl. destruct (p cur); simpl; rewrite IH; reflexivity.
    + apply IH. discriminate.
Qed.

Lemma words_of_app (a b : string) (c : ascii) :
  term_char (lower_char c) = false ->
  words_of (a ++ String c b) = (words_of a ++ words_of b)%list.
Proof.
  intros Hc. unfold words_of, toLowerCase, replace_punct.
  rewrite !map_chars_app. simpl.
  apply split_ws_from_app; [reflexivity | | discriminate].
  unfold is_kept, term_char in *.
  destruct (is_space (lower_char c)) eqn:Hs; [|].
  - rewrite !orb_true_r. simpl. exact Hs.
  - rewrite orb_false_r. 
    destruct (in_range 97 122 (lower_char c)); [discriminate|].
    destruct (in_range 48 57 (lower_char c)); [discriminate|].
    simpl in Hc |- *. rewrite Hc. reflexivity.
Qed.

Lemma tokenize_separator (a b : string) (c : ascii) :
  term_char (lower_char c) = false ->
  tokenize (a ++ String c b) = (tokenize a ++ tokenize b)%list.
Proof.
  intros Hc. unfold tokenize. rewrite (words_of_app a b c Hc). apply List.filter_app.
Qed.

Lemma tokenize_wellformed (text : string) :
  Forall (fun t => 2 <= String.length t
                   /\ is_stopword t = false
                   /\ all_chars term_char t = true)
         (tokenize text).
Proof.
  apply List.Forall_forall. intros t Ht.
  destruct (tokenize_filters text t Ht) as [Hlen Hstop].
  split; [exact Hlen | split; [exact Hstop | apply (tokenize_chars text t Ht)]].
Qed.

(** X1: every token that [tokenize] returns has at least two characters,
    is no stopword, and consists of the characters a-z, 0-9 and the hyphen
    only (so it holds no upper-case letter, no white space and no
    punctuation). *)
Theorem tokenize_tokens (text : string) :
  Forall (fun t => 2 <= String.length t
                   /\ is_stopword t = false
                   /\ all_chars term_char t = true)
         (tokenize text).
Proof. apply tokenize_wellformed. Qed.

(** X2: tokenizing two texts joined by one character that is not a
    letter, digit or hyphen (white space or punctuation) gives the tokens
    of the first text followed by the tokens of the second. *)
Theorem tokenize_concat (a b : string) (c : ascii) :
  term_char (lower_char c) = false ->
  tokenize (a ++ String c b) = (tokenize a ++ tokenize b)%list.
Proof. apply tokenize_separator. Qed.

Lemma tokenize_concat_witness :
  term_char (lower_char ","%char) = false
  /\ tokenize ("Create a PR" ++ String ","%char "then merge")
     = (tokenize "Create a PR" ++ tokenize "then merge")%list.
Proof.
  split; [reflexivity|]. apply tokenize_concat. reflexivity.
Defined.

(** X3: every token is a fixed point of the tokenizer: used as a query,
    a token of a text is tokenized to itself alone, so that the terms
    stored for a document and the terms of a query are of the same
    form. *)
Theorem tokenize_fixed_point (text : string) :
  Forall (fun t => tokenizeQuery t = [t]) (tokenize text).
Proof.
  apply List.Forall_forall. intros t Ht.
  pose proof (tokenize_wellformed text) as H. rewrite List.Forall_forall in H.
  destruct (H t Ht) as [Hlen [Hstop Hc]].
  apply tokenize_token; assumption.
Qed.

(** ** White space at the ends of a string *)

Lemma trimStart_cases (s : string) :
  trimStart s = EmptyString
  \/ exists c r, trimStart s = String c r /\ is_space c = false.
Proof.
  induction s as [|c s IH]; [left; reflexivity|]. simpl.
  destruct (is_space c) eqn:Hc; [exact IH|]. right. exists c, s. split; [reflexivity | exact Hc].
Qed.

Lemma trimStart_nonspace (c : ascii) (s : string) :
  is_space c = false -> trimStart (String c s) = String c s.
Proof. intros H. simpl. rewrite H. reflexivity. Qed.

Lemma trimEnd_head (c : ascii) (s : string) :
  is_space c = false -> exists r, trimEnd (String c s) = String c r.
Proof.
  intros H. simpl. destruct (trimEnd s) as [|d r].
  - rewrite H. exists EmptyString. reflexivity.
  - exists (String d r). reflexivity.
Qed.

Lemma trimEnd_idem (s : string) : trimEnd (trimEnd s) = trimEnd s.
Proof.
  induction s as [|c s IH]; [reflexivity|]. simpl.
  destruct (trimEnd s) as [|d r] eqn:Hs.
  - destruct (is_space c) eqn:Hc; [reflexivity|]. simpl. rewrite Hc. reflexivity.
  - change (trimEnd (String c (String d r))) with
      (match trimEnd (String d r) with
       | EmptyString => if is_space c then EmptyString else String c EmptyString
       | String d' r' => String c (String d' r')
       end).
    rewrite IH. reflexivity.
Qed.

Lemma trim_idem (s : string) : trim (trim s) = trim s.
Proof.
  unfold trim. destruct (trimStart_cases s) as [H | [c [r [H Hc]]]]; rewrite H.
  - reflexivity.
  - destruct (trimEnd_head c r Hc) as [r' Hr]. rewrite Hr.
    rewrite (trimStart_nonspace c r' Hc), <- Hr. apply trimEnd_idem.
Qed.

Lemma trimStart_lower (s : string) :
  trimStart (toLowerCase s) = toLowerCase (trimStart s).
Proof.
  induction s as [|c s IH]; [reflexivity|].
  unfold toLowerCase in *. simpl. rewrite lower_char_space.
  destruct (is_space c); [exact IH | reflexivity].
Qed.

Lemma trimEnd_lower (s : string) :
  trimEnd (toLowerCase s) = toLowerCase (trimEnd s).
Proof.
  induction s as [|c s IH]; [reflexivity|].
  unfold toLowerCase in *. simpl. rewrite IH, lower_char_space.
  destruct (trimEnd s); simpl; [destruct (is_space c)|]; reflexivity.
Qed.

Lemma trim_lower (s : string) : trim (toLowerCase s) = toLowerCase (trim s).
Proof. unfold trim. rewrite trimStart_lower, trimEnd_lower. reflexivity. Qed.

Lemma lower_char_idem (c : ascii) : lower_char (lower_char c) = lower_char c.
Proof.
  apply Ascii.eqb_eq. revert c. apply forall_ascii. vm_compute. reflexivity.
Qed.

Lemma toLowerCase_idem (s : string) : toLowerCase (toLowerCase s) = toLowerCase s.
Proof.
  unfold toLowerCase. induction s as [|c s IH]; [reflexivity|].
  simpl. rewrite lower_char_idem, IH. reflexivity.
Qed.

Lemma toLowerCase_length (s : string) : String.length (toLowerCase s) = String.length s.
Proof.
  unfold toLowerCase. induction s as [|c s IH]; [reflexivity|]. simpl. rewrite IH. reflexivity.
Qed.

Lemma clean_trimmed (k : string) : trim (clean k) = clean k.
Proof. unfold clean. rewrite trim_lower, trim_idem. reflexivity. Qed.

Lemma clean_lower (k : string) : toLowerCase (clean k) = clean k.
Proof. unfold clean. apply toLowerCase_idem. Qed.

Lemma cleaned_keywords (l : list string) :
  Forall (fun k => 2 <= String.length k /\ trim k = k /\ toLowerCase k = k)
         (List.filter long_enough (map clean l)).
Proof.
  apply List.Forall_forall. intros k Hk.
  apply filter_In in Hk. destruct Hk as [Hk Hlen].
  apply in_map_iff in Hk. destruct Hk as [x [<- _]].
  apply Nat.leb_le in Hlen.
  split; [exact Hlen | split; [apply clean_trimmed | apply clean_lower]].
Qed.

(** X4: the keywords that [extractKeywordsSection] returns are pairwise
    distinct, and each of them has at least two characters, no white space
    at either end and no upper-case letter. *)
Theorem extractKeywordsSection_wellformed (content : string) :
  List.NoDup (extractKeywordsSection content)
  /\ Forall (fun k => 2 <= String.length k /\ trim k = k /\ toLowerCase k = k)
            (extractKeywordsSection content).
Proof.
  unfold extractKeywordsSection.
  destruct (find_header content) as [rest|]; [|split; constructor].
  cbv zeta. split; [apply uniq_NoDup|].
  apply List.Forall_forall. intros k Hk. apply (proj1 (uniq_In _ _)) in Hk.
  apply in_app_or in Hk.
  pose proof (cleaned_keywords (split_char "," (trim (capture_block rest)))) as Hc.
  pose proof (cleaned_keywords (listMatches LineStart (trim (capture_block rest)))) as Hl.
  rewrite List.Forall_forall in Hc, Hl.
  destruct Hk as [Hk | Hk].
  - destruct (negb _ || _) in Hk; [apply Hc; exact Hk | destruct Hk].
  - apply Hl. exact Hk.
Qed.

(** ** The header of a keyword section *)

Lemma find_header_eq (s : string) :
  find_header s
  = match match_header s with
    | Some r => Some r
    | None =>
        match s with
        | EmptyString => None
        | String _ s' => find_header s'
        end
    end.
Proof. destruct s; reflexivity. Qed.

Lemma lower_char_hash (c : ascii) :
  Ascii.eqb (lower_char c) "#"%char = Ascii.eqb c "#"%char.
Proof.
  apply Bool.eqb_prop. revert c. apply forall_ascii. vm_compute. reflexivity.
Qed.

Lemma prefix_cons (c d : ascii) (t s : string) :
  String.prefix (String c t) (String d s) = Ascii.eqb c d && String.prefix t s.
Proof.
  simpl. destruct (Ascii.ascii_dec c d) as [->|Hne].
  - rewrite Ascii.eqb_refl. reflexivity.
  - apply Ascii.eqb_neq in Hne. rewrite Hne. reflexivity.
Qed.

Lemma prefix_nil (s : string) : String.prefix EmptyString s = true.
Proof. destruct s; reflexivity. Qed.

Lemma match_header_hashes (s : string) :
  String.prefix "##" s = false -> match_header s = None.
Proof.
  unfold match_header. destruct s as [|c [|d s]]; [reflexivity | |].
  - intros _. simpl. destruct (Ascii.eqb (lower_char c) "#"); reflexivity.
  - rewrite !prefix_cons. cbn [strip_prefix_ci]. rewrite !lower_char_hash.
    rewrite (Ascii.eqb_sym "#"%char c), (Ascii.eqb_sym "#"%char d).
    destruct (Ascii.eqb c "#"); [|reflexivity].
    destruct (Ascii.eqb d "#"); [|reflexivity].
    destruct s; discriminate.
Qed.

Lemma includes_cons (c : ascii) (s t : string) :
  includes (String c s) t = String.prefix t (String c s) || includes s t.
Proof. reflexivity. Qed.

Lemma find_header_no_hashes (s : string) :
  includes s "##" = false -> find_header s = None.
Proof.
  induction s as [|c s IH]; [reflexivity|].
  rewrite includes_cons. intros H. apply orb_false_iff in H. destruct H as [Hp Hs].
  rewrite find_header_eq, (match_header_hashes _ Hp). apply IH, Hs.
Qed.

Lemma strip_prefix_ci_app (t s r : string) :
  strip_prefix_ci t s = Some r ->
  exists p, s = p ++ r /\ toLowerCase p = t.
Proof.
  revert s. induction t as [|a t IH]; intros s H.
  - destruct s; inversion H; exists EmptyString; split; reflexivity.
  - destruct s as [|c s]; [discriminate|]. simpl in H.
    destruct (Ascii.eqb_spec (lower_char c) a) as [Ha|]; [|discriminate].
    destruct (IH s H) as [p [-> Hp]]. exists (String c p).
    split; [reflexivity|]. unfold toLowerCase in *. simpl. rewrite Ha, Hp. reflexivity.
Qed.

Lemma trimStart_suffix (s : string) : exists w, s = w ++ trimStart s.
Proof.
  induction s as [|c s [w IH]]; [exists EmptyString; reflexivity|]. simpl.
  destruct (is_space c).
  - exists (String c w). rewrite append_cons, <- IH. reflexivity.
  - exists EmptyString. reflexivity.
Qed.

Lemma toLowerCase_app (s t : string) :
  toLowerCase (s ++ t) = toLowerCase s ++ toLowerCase t.
Proof. apply map_chars_app. Qed.

Lemma match_header_keyword (s r : string) :
  match_header s = Some r -> includes (toLowerCase s) "keyword" = true.
Proof.
  unfold match_header. intros H.
  destruct (strip_prefix_ci "##" s) as [s1|] eqn:H1; [|discriminate].
  destruct (strip_prefix_ci "keyword" (trimStart s1)) as [s2|] eqn:H2; [|discriminate].
  apply strip_prefix_ci_app in H1. destruct H1 as [p1 [-> Hp1]].
  apply strip_prefix_ci_app in H2. destruct H2 as [p2 [Hs1 Hp2]].
  destruct (trimStart_suffix s1) as [w Hw]. rewrite Hs1 in Hw. rewrite Hw.
  apply includes_spec. exists (toLowerCase (p1 ++ w)), (toLowerCase s2).
  rewrite !toLowerCase_app, Hp2, !append_assoc. reflexivity.
Qed.

Lemma find_header_no_keyword (s : string) :
  includes (toLowerCase s) "keyword" = false -> find_header s = None.
Proof.
  induction s as [|c s IH]; [reflexivity|]. intros H.
  rewrite find_header_eq.
  destruct (match_header (String c s)) as [r|] eqn:Hm.
  - apply match_header_keyword in Hm. congruence.
  - apply IH. change (toLowerCase (String c s))
      with (String (lower_char c) (toLowerCase s)) in H.
    rewrite includes_cons in H. apply orb_false_iff in H. apply H.
Qed.

(** X5: a text without the characters "##", or without the word
    "keyword" in any case, has no keyword section: [extractKeywordsSection]
    returns the empty list. *)
Theorem extractKeywordsSection_no_header (content : string) :
  includes content "##" = false
  \/ includes (toLowerCase content) "keyword" = false ->
  extractKeywordsSection content = [].
Proof.
  intros H. unfold extractKeywordsSection.
  destruct H as [H | H];
    [rewrite (find_header_no_hashes _ H) | rewrite (find_header_no_keyword _ H)];
    reflexivity.
Qed.

Lemma extractKeywordsSection_no_header_witness :
  (includes "# Just a title" "##" = false
   \/ includes (toLowerCase "# Just a title") "keyword" = false)
  /\ extractKeywordsSection "# Just a title" = [].
Proof.
  split; [left; reflexivity|].
  apply extractKeywordsSection_no_header. left. reflexivity.
Defined.

(** The header ["## Keywords"] in front of [t]. *)
Lemma match_header_Keywords (t : string) :
  match_header ("## Keywords" ++ t) = after_last_newline t.
Proof. reflexivity. Qed.

Lemma after_last_newline_nonspace (c : ascii) (s : string) :
  is_space c = false -> after_last_newline (String c s) = None.
Proof. intros H. simpl. rewrite H. reflexivity. Qed.

Lemma after_two_newlines (c : ascii) (s : string) :
  is_space c = false ->
  after_last_newline (newline ++ newline ++ String c s) = Some (String c s).
Proof.
  intros H. unfold newline. rewrite !append_cons, !append_nil_l.
  cbn [after_last_newline]. rewrite H.
  change (is_space LF) with true. cbn iota. rewrite Ascii.eqb_refl. reflexivity.
Qed.

Lemma find_header_skip (pre s : string) :
  includes (pre ++ "#") "##" = false ->
  find_header (pre ++ s) = find_header s.
Proof.
  induction pre as [|c pre IH]; [reflexivity|].
  rewrite !append_cons, includes_cons. intros H.
  apply orb_false_iff in H. destruct H as [Hp Hs].
  assert (Hq : String.prefix "##" (String c (pre ++ s)) = false).
  { destruct pre as [|d pre].
    - rewrite append_nil_l in Hp. rewrite !prefix_cons in Hp. rewrite prefix_cons.
      destruct (Ascii.eqb "#" c); [cbn in Hp; discriminate Hp | reflexivity].
    - rewrite append_cons in Hp. rewrite !prefix_cons, prefix_nil in Hp.
      rewrite append_cons, !prefix_cons.
      destruct (Ascii.eqb "#" c); [|reflexivity].
      destruct (Ascii.eqb "#" d); [cbn in Hp; discriminate Hp | reflexivity]. }
  rewrite (find_header_eq (String c (pre ++ s))).
  rewrite (match_header_hashes _ Hq). apply IH, Hs.
Qed.

(** ** The block of a keyword section *)

Lemma capture_block_eq (s : string) :
  capture_block s
  = if String.prefix (String LF "##") s || String.eqb s newline then EmptyString
    else match s with
         | EmptyString => EmptyString
         | String c s' => String c (capture_block s')
         end.
Proof. destruct s; reflexivity. Qed.

Lemma capture_block_char (c : ascii) (s : string) :
  not_char LF c = true -> capture_block (String c s) = String c (capture_block s).
Proof.
  unfold not_char. intros H. apply negb_true_iff in H.
  rewrite capture_block_eq, prefix_cons.
  unfold newline. cbn [String.eqb]. rewrite (Ascii.eqb_sym LF c), H. reflexivity.
Qed.

Lemma capture_block_line (line rest : string) :
  all_chars (not_char LF) line = true ->
  capture_block (line ++ rest) = line ++ capture_block rest.
Proof.
  induction line as [|c line IH]; [reflexivity|]. cbn [all_chars].
  intros H. apply andb_true_iff in H. destruct H as [Hc Hl].
  rewrite !append_cons, (capture_block_char c _ Hc), (IH Hl). reflexivity.
Qed.

Lemma capture_block_newline (c : ascii) (rest : string) :
  not_char "#" c = true ->
  capture_block (String LF (String c rest)) = String LF (capture_block (String c rest)).
Proof.
  unfold not_char. intros H. apply negb_true_iff in H.
  rewrite (capture_block_eq (String LF (String c rest))), !prefix_cons.
  unfold newline. cbn [String.eqb]. rewrite (Ascii.eqb_sym "#"%char c), H.
  rewrite !Ascii.eqb_refl. reflexivity.
Qed.

Lemma capture_block_end (post : string) :
  section_end post ->
  capture_block (newline ++ post) = EmptyString
  \/ capture_block (newline ++ post) = newline.
Proof.
  unfold newline. rewrite append_cons, append_nil_l.
  intros [-> | [-> | [H | H]]].
  - left. reflexivity.
  - right. reflexivity.
  - left. rewrite capture_block_eq, prefix_cons, Ascii.eqb_refl, H. reflexivity.
  - right. unfold newline in H. destruct post as [|c post]; [discriminate|].
    rewrite append_cons, append_nil_l, prefix_cons in H.
    apply andb_true_iff in H. destruct H as [Hc H].
    apply Ascii.eqb_eq in Hc. subst c.
    rewrite capture_block_eq, !prefix_cons, Ascii.eqb_refl.
    change (Ascii.eqb "#" LF) with false. unfold newline.
    cbn [andb orb String.eqb]. change (Ascii.eqb LF LF) with true. cbn iota.
    rewrite capture_block_eq, prefix_cons, Ascii.eqb_refl, H. reflexivity.
Qed.

Lemma join_cons (sep x y : string) (l : list string) :
  join sep (x :: y :: l) = x ++ sep ++ join sep (y :: l).
Proof. reflexivity. Qed.

Lemma join_head (sep : string) (c : ascii) (r : string) (l : list string) :
  exists r', join sep (String c r :: l) = String c r'.
Proof.
  destruct l as [|y l]; [exists r; reflexivity|].
  rewrite join_cons, append_cons. eexists. reflexivity.
Qed.

Lemma capture_block_lines (i : string) (rest : list string) (post : string) :
  all_chars (not_char LF) i = true ->
  Forall block_line rest ->
  section_end post ->
  exists e,
    (e = EmptyString \/ e = newline)
    /\ capture_block (join newline (i :: rest) ++ newline ++ post)
       = join newline (i :: rest) ++ e.
Proof.
  intros Hi Hrest Hpost. revert i Hi.
  induction Hrest as [|i' rest [Hi' [c [r [-> Hc]]]] Hrest IH]; intros i Hi.
  - cbn [join]. rewrite (capture_block_line _ _ Hi).
    exists (capture_block (newline ++ post)).
    split; [apply capture_block_end, Hpost | reflexivity].
  - destruct (IH _ Hi') as [e [He Hcap]]. exists e. split; [exact He|].
    rewrite join_cons, !append_assoc, (capture_block_line _ _ Hi).
    destruct (join_head newline c r rest) as [r' Hr].
    rewrite <- Hcap, Hr. unfold newline at 1 3.
    rewrite !append_cons, !append_nil_l.
    rewrite (capture_block_newline c _ Hc). reflexivity.
Qed.

(** ** Trimmed strings *)

Lemma trimmed_start (s : string) :
  trim s = s -> s <> EmptyString ->
  exists c r, s = String c r /\ is_space c = false.
Proof.
  intros H Hne. unfold trim in H.
  destruct (trimStart_cases s) as [H0 | [c [r [H0 Hc]]]]; rewrite H0 in H.
  - simpl in H. congruence.
  - destruct (trimEnd_head c r Hc) as [r' Hr]. rewrite Hr in H.
    exists c, r'. split; [symmetry; exact H | exact Hc].
Qed.

Lemma trimmed_end (s : string) : trim s = s -> trimEnd s = s.
Proof.
  intros H. destruct s as [|c s]; [reflexivity|].
  destruct (trimmed_start _ H) as [c' [r [Heq Hc]]]; [discriminate|].
  unfold trim in H. rewrite Heq in H |- *. rewrite (trimStart_nonspace _ _ Hc) in H.
  exact H.
Qed.

Lemma trimStart_app (c : ascii) (r t : string) :
  is_space c = false -> trimStart (String c r ++ t) = String c r ++ t.
Proof. intros H. rewrite append_cons. apply trimStart_nonspace, H. Qed.

Lemma trimEnd_app (s t : string) :
  trimEnd t = t -> t <> EmptyString -> trimEnd (s ++ t) = s ++ t.
Proof.
  intros Ht Hne. induction s as [|c s IH]; [exact Ht|].
  rewrite append_cons. simpl. rewrite IH.
  destruct (s ++ t) as [|d r] eqn:Hs; [|reflexivity].
  destruct s; [rewrite append_nil_l in Hs; congruence | discriminate].
Qed.

Lemma trim_join (sep : string) (i : string) (rest : list string) :
  Forall (fun x => trim x = x /\ x <> EmptyString) (i :: rest) ->
  trim (join sep (i :: rest)) = join sep (i :: rest)
  /\ join sep (i :: rest) <> EmptyString.
Proof.
  revert i. induction rest as [|i' rest IH]; intros i H.
  - inversion H as [|? ? [Ht Hne] _]; subst. split; [exact Ht | exact Hne].
  - inversion H as [|? ? [Ht Hne] H']; subst.
    destruct (IH i' H') as [HJ HJne].
    destruct (trimmed_start _ Ht Hne) as [c [r [-> Hc]]].
    rewrite join_cons. split; [|rewrite append_cons; discriminate].
    unfold trim. rewrite (trimStart_app c r _ Hc).
    rewrite <- append_assoc. rewrite trimEnd_app; [reflexivity | | exact HJne].
    apply trimmed_end, HJ.
Qed.

Lemma trimEnd_space (s : string) (c : ascii) :
  is_space c = true -> trimEnd (s ++ String c EmptyString) = trimEnd s.
Proof.
  intros Hc. induction s as [|d s IH].
  - rewrite append_nil_l. simpl. rewrite Hc. reflexivity.
  - rewrite append_cons. simpl. rewrite IH. reflexivity.
Qed.

(** ** Pieces between commas *)

Lemma split_char_none (sep : ascii) (s : string) :
  all_chars (not_char sep) s = true -> split_char sep s = [s].
Proof.
  induction s as [|c s IH]; [reflexivity|]. simpl.
  intros H. apply andb_true_iff in H. destruct H as [Hc Hs].
  unfold not_char in Hc. apply negb_true_iff in Hc. rewrite Hc, (IH Hs). reflexivity.
Qed.

Lemma split_char_app (sep : ascii) (a b : string) :
  all_chars (not_char sep) a = true ->
  split_char sep (a ++ String sep b) = a :: split_char sep b.
Proof.
  induction a as [|c a IH]; intros H.
  - rewrite append_nil_l. simpl. rewrite Ascii.eqb_refl. reflexivity.
  - simpl in H. apply andb_true_iff in H. destruct H as [Hc Ha].
    unfold not_char in Hc. apply negb_true_iff in Hc.
    rewrite append_cons. simpl. rewrite Hc, (IH Ha). reflexivity.
Qed.

Lemma plain_char_not_comma (c : ascii) :
  plain_char c = true -> not_char "," c = true.
Proof. unfold plain_char, not_char. intros H. apply andb_true_iff in H. apply H. Qed.

Lemma plain_char_not_terminator (c : ascii) :
  plain_char c = true -> is_line_terminator c = false.
Proof.
  intros H. apply negb_true_iff. revert H.
  apply (implb_true_iff (plain_char c) (negb (is_line_terminator c))).
  revert c. apply forall_ascii. vm_compute. reflexivity.
Qed.

Lemma plain_char_not_lf (c : ascii) : plain_char c = true -> not_char LF c = true.
Proof.
  apply (implb_true_iff (plain_char c) (not_char LF c)).
  revert c. apply forall_ascii. vm_compute. reflexivity.
Qed.

Lemma plain_keyword_nonempty (k : string) :
  plain_keyword k -> trim k = k /\ k <> EmptyString.
Proof.
  intros [Hlen [Ht _]]. split; [exact Ht|]. intros ->. simpl in Hlen. lia.
Qed.

Lemma split_char_join (k : string) (ks : list string) :
  Forall plain_keyword (k :: ks) ->
  split_char "," (join ", " (k :: ks)) = k :: map (fun x => " " ++ x) ks.
Proof.
  revert k. induction ks as [|k' ks IH]; intros k H.
  - inversion H as [|? ? [_ [_ Hc]] _]; subst. apply split_char_none.
    revert Hc. apply all_chars_impl, plain_char_not_comma.
  - inversion H as [|? ? [_ [_ Hc]] H']; subst.
    rewrite join_cons.
    change (", " ++ join ", " (k' :: ks)) with (String "," (String " " (join ", " (k' :: ks)))).
    rewrite split_char_app; [|revert Hc; apply all_chars_impl, plain_char_not_comma].
    cbn [split_char]. change (Ascii.eqb " " ",") with false. cbn iota.
    rewrite (IH k' H'). reflexivity.
Qed.

Lemma clean_plain (k : string) : trim k = k -> clean k = toLowerCase k.
Proof. intros H. unfold clean. rewrite H. reflexivity. Qed.

Lemma clean_space (k : string) : clean (" " ++ k) = clean k.
Proof. reflexivity. Qed.

Lemma long_enough_lower (k : string) :
  2 <= String.length k -> long_enough (toLowerCase k) = true.
Proof.
  intros H. unfold long_enough, MIN_TOKEN_LENGTH. rewrite toLowerCase_length.
  apply Nat.leb_le, H.
Qed.

Lemma filter_all {A : Type} (p : A -> bool) (l : list A) :
  Forall (fun x => p x = true) l -> List.filter p l = l.
Proof.
  induction 1 as [|x l Hx _ IH]; [reflexivity|]. simpl. rewrite Hx, IH. reflexivity.
Qed.

Lemma cleaned_plain (l : list string) :
  Forall plain_keyword l ->
  List.filter long_enough (map clean l) = map toLowerCase l.
Proof.
  intros H. induction H as [|k l [Hlen [Ht _]] _ IH]; [reflexivity|].
  simpl. rewrite (clean_plain k Ht), (long_enough_lower k Hlen), IH. reflexivity.
Qed.

Lemma commaKeywords_join (k : string) (ks : list string) :
  Forall plain_keyword (k :: ks) ->
  commaKeywords (join ", " (k :: ks)) = map toLowerCase (k :: ks).
Proof.
  intros H. unfold commaKeywords. rewrite (split_char_join k ks H).
  rewrite <- (cleaned_plain _ H). cbn [map]. rewrite map_map.
  f_equal. 
Qed.

(** ** Items of a list *)

Lemma listMatches_InLine (s : string) :
  all_chars (fun c => negb (is_line_terminator c)) s = true ->
  listMatches InLine s = [].
Proof.
  induction s as [|c s IH]; [reflexivity|]. simpl.
  intros H. apply andb_true_iff in H. destruct H as [Hc Hs].
  apply negb_true_iff in Hc. rewrite Hc. apply IH, Hs.
Qed.

Lemma listMatches_item (cur w rest : string) :
  all_chars (fun c => negb (is_line_terminator c)) w = true ->
  listMatches (InItem cur) (w ++ rest) = listMatches (InItem (cur ++ w)) rest.
Proof.
  revert cur. induction w as [|c w IH]; intros cur H.
  - rewrite append_nil_l, append_nil_r. reflexivity.
  - simpl in H. apply andb_true_iff in H. destruct H as [Hc Hw].
    apply negb_true_iff in Hc. rewrite append_cons. cbn [listMatches].
    rewrite Hc, (IH _ Hw), append_assoc. reflexivity.
Qed.

Lemma listMatches_bullet (k rest : string) :
  plain_keyword k ->
  listMatches LineStart ("- " ++ k ++ rest) = listMatches (InItem k) rest.
Proof.
  intros Hk. destruct (plain_keyword_nonempty k Hk) as [Ht Hne].
  destruct Hk as [_ [_ Hc]].
  destruct (trimmed_start k Ht Hne) as [c [r [-> Hsp]]].
  simpl in Hc. apply andb_true_iff in Hc. destruct Hc as [_ Hr].
  rewrite !append_cons, append_nil_l. cbn [listMatches].
  change (is_marker "-") with true. change (is_space " ") with true. cbn iota.
  rewrite Hsp. rewrite listMatches_item; [reflexivity|].
  revert Hr. apply all_chars_impl. intros d Hd.
  rewrite (plain_char_not_terminator d Hd). reflexivity.
Qed.

Lemma listMatches_bullets (ks : list string) :
  Forall plain_keyword ks ->
  listMatches LineStart (join newline (map (fun k => "- " ++ k) ks)) = ks.
Proof.
  induction 1 as [|k ks Hk Hks IH]; [reflexivity|].
  destruct ks as [|k' ks].
  - cbn [map join]. rewrite <- (append_nil_r k) at 1.
    rewrite (listMatches_bullet k EmptyString Hk). reflexivity.
  - cbn [map]. rewrite join_cons. cbn [map] in IH.
    rewrite append_assoc, (listMatches_bullet k _ Hk).
    unfold newline at 1. rewrite append_cons, append_nil_l. cbn [listMatches].
    change (is_line_terminator LF) with true. cbn iota. rewrite IH. reflexivity.
Qed.

(** ** Sections in the documented formats *)

Lemma all_chars_join (p : ascii -> bool) (sep : string) (l : list string) :
  all_chars p sep = true ->
  Forall (fun x => all_chars p x = true) l ->
  all_chars p (join sep l) = true.
Proof.
  intros Hsep. induction 1 as [|x l Hx Hl IH]; [reflexivity|].
  destruct l as [|y l]; [exact Hx|].
  rewrite join_cons, !all_chars_app, Hx, Hsep, IH. reflexivity.
Qed.

Lemma includes_no_char (c : ascii) (s : string) :
  all_chars (not_char c) s = true -> includes s (String c EmptyString) = false.
Proof.
  induction s as [|d s IH]; [reflexivity|]. cbn [all_chars].
  intros H. apply andb_true_iff in H. destruct H as [Hd Hs].
  rewrite includes_cons, prefix_cons, (IH Hs).
  unfold not_char in Hd. apply negb_true_iff in Hd.
  rewrite (Ascii.eqb_sym c d), Hd. reflexivity.
Qed.

Lemma uniq_id (l : list string) : List.NoDup l -> uniq l = l.
Proof.
  induction 1 as [|x l Hx _ IH]; [reflexivity|]. simpl. rewrite IH.
  f_equal. apply filter_all. apply List.Forall_forall. intros y Hy.
  apply negb_true_iff, String.eqb_neq. intros ->. exact (Hx Hy).
Qed.

(** The section that starts at the first header ["## Keywords"] of a
    text and whose block is the given lines. *)
Lemma section_block (pre post i : string) (rest : list string) :
  includes (pre ++ "#") "##" = false ->
  section_end post ->
  Forall (fun x => trim x = x /\ x <> EmptyString) (i :: rest) ->
  all_chars (not_char LF) i = true ->
  Forall block_line rest ->
  let block := join newline (i :: rest) in
  extractKeywordsSection
    (pre ++ "## Keywords" ++ newline ++ newline ++ block ++ newline ++ post)
  = uniq ((if negb (includes block newline) || includes block ","
           then commaKeywords block else [])
          ++ listKeywords block).
Proof.
  intros Hpre Hpost Htrim Hi Hrest block.
  destruct (trim_join newline i rest Htrim) as [Hblock Hne].
  fold block in Hblock, Hne.
  destruct (trimmed_start block Hblock Hne) as [c [r [Hcr Hc]]].
  unfold extractKeywordsSection.
  rewrite (find_header_skip pre _ Hpre), find_header_eq, match_header_Keywords.
  rewrite Hcr, (append_cons c r), (after_two_newlines c _ Hc).
  rewrite <- append_cons, <- Hcr. cbv zeta. unfold block.
  destruct (capture_block_lines i rest post Hi Hrest Hpost) as [e [He ->]].
  fold block.
  assert (Htrim' : trim (block ++ e) = block).
  { destruct He as [-> | ->]; [rewrite append_nil_r; exact Hblock|].
    unfold trim. rewrite Hcr, (trimStart_app c r _ Hc), <- Hcr.
    unfold newline. rewrite (trimEnd_space block LF eq_refl).
    apply trimmed_end, Hblock. }
  rewrite Htrim'. reflexivity.
Qed.

Lemma plain_keywords_trimmed (l : list string) :
  Forall plain_keyword l -> Forall (fun x => trim x = x /\ x <> EmptyString) l.
Proof. apply List.Forall_impl, plain_keyword_nonempty. Qed.

Lemma plain_keywords_chars (p : ascii -> bool) (l : list string) :
  (forall c, plain_char c = true -> p c = true) ->
  Forall plain_keyword l -> Forall (fun x => all_chars p x = true) l.
Proof.
  intros Hp. apply List.Forall_impl. intros k [_ [_ Hc]].
  revert Hc. apply all_chars_impl, Hp.
Qed.

Lemma plain_char_no_terminator (c : ascii) :
  plain_char c = true -> negb (is_line_terminator c) = true.
Proof. intros H. rewrite (plain_char_not_terminator c H). reflexivity. Qed.

(** X6: the documented format.  When the first header "## Keywords" of a
    text (no "##" before it) is followed by an empty line and one line of
    keywords separated by ", ", and then by the end of the text or by the
    next "##" header (behind an empty line or not), [extractKeywordsSection]
    returns these keywords in lower case, in their order; the keywords
    have at least two characters, no comma, no white space but inner
    spaces, are distinct in lower case, and the first one does not start
    with "-" or "*". *)
Theorem extractKeywordsSection_commas (pre post k : string) (ks : list string) :
  includes (pre ++ "#") "##" = false ->
  section_end post ->
  Forall plain_keyword (k :: ks) ->
  starts_with_marker k = false ->
  List.NoDup (map toLowerCase (k :: ks)) ->
  extractKeywordsSection
    (pre ++ "## Keywords" ++ newline ++ newline
         ++ join ", " (k :: ks) ++ newline ++ post)
  = map toLowerCase (k :: ks).
Proof.
  intros Hpre Hpost Hks Hmark Hdup.
  pose proof (trim_join ", " k ks (plain_keywords_trimmed _ Hks)) as [Htrim Hne].
  assert (Hlf : all_chars (not_char LF) (join ", " (k :: ks)) = true).
  { apply all_chars_join; [reflexivity|].
    apply plain_keywords_chars; [apply plain_char_not_lf | exact Hks]. }
  assert (Hlt : all_chars (fun c => negb (is_line_terminator c)) (join ", " (k :: ks)) = true).
  { apply all_chars_join; [reflexivity|].
    apply plain_keywords_chars; [apply plain_char_no_terminator | exact Hks]. }
  pose proof (section_block pre post (join ", " (k :: ks)) [] Hpre Hpost) as Hsec.
  change (join newline [join ", " (k :: ks)]) with (join ", " (k :: ks)) in Hsec.
  rewrite Hsec; clear Hsec;
    [ | constructor; [split; assumption | constructor] | exact Hlf | constructor ].
  rewrite (includes_no_char LF _ Hlf : includes _ newline = false). cbn [negb orb].
  rewrite (commaKeywords_join k ks Hks).
  assert (Hlist : listKeywords (join ", " (k :: ks)) = []).
  { unfold listKeywords.
    inversion Hks as [|? ? Hk _]; subst.
    destruct (plain_keyword_nonempty k Hk) as [Ht Hk0].
    destruct (trimmed_start k Ht Hk0) as [c [r [-> _]]].
    destruct (join_head ", " c r ks) as [r' Hr]. rewrite Hr in Hlt |- *.
    cbn [all_chars] in Hlt. apply andb_true_iff in Hlt. destruct Hlt as [Hc Hr'].
    apply negb_true_iff in Hc. cbn [starts_with_marker] in Hmark.
    cbn [listMatches]. rewrite Hmark, Hc, (listMatches_InLine r' Hr'). reflexivity. }
  rewrite Hlist, app_nil_r. apply uniq_id, Hdup.
Qed.

Lemma trim_bullet (k : string) :
  plain_keyword k -> trim ("- " ++ k) = "- " ++ k /\ "- " ++ k <> EmptyString.
Proof.
  intros Hk. destruct (plain_keyword_nonempty k Hk) as [Ht Hne].
  split; [|discriminate]. unfold trim.
  rewrite (trimStart_app "-" " " k eq_refl).
  apply trimEnd_app; [apply trimmed_end, Ht | exact Hne].
Qed.

Lemma bullets_trimmed (l : list string) :
  Forall plain_keyword l ->
  Forall (fun x => trim x = x /\ x <> EmptyString) (map (fun k => "- " ++ k) l).
Proof. intros H. apply List.Forall_map. revert H. apply List.Forall_impl, trim_bullet. Qed.

Lemma bullets_chars (p : ascii -> bool) (l : list string) :
  p "-"%char = true -> p " "%char = true ->
  (forall c, plain_char c = true -> p c = true) ->
  Forall plain_keyword l ->
  Forall (fun x => all_chars p x = true) (map (fun k => "- " ++ k) l).
Proof.
  intros H1 H2 Hp H. apply List.Forall_map. revert H. apply List.Forall_impl.
  intros k [_ [_ Hc]]. rewrite !append_cons, append_nil_l. cbn [all_chars].
  rewrite H1, H2. revert Hc. apply all_chars_impl, Hp.
Qed.

Lemma bullets_lines (l : list string) :
  Forall plain_keyword l -> Forall block_line (map (fun k => "- " ++ k) l).
Proof.
  intros H. apply List.Forall_map. revert H. apply List.Forall_impl.
  intros k [_ [_ Hc]]. split.
  - rewrite !append_cons, append_nil_l. cbn [all_chars].
    change (not_char LF "-") with true. change (not_char LF " ") with true.
    revert Hc. apply all_chars_impl, plain_char_not_lf.
  - exists "-"%char, (" " ++ k). split; reflexivity.
Qed.

(** X7: the list format.  When the section holds two or more lines
    "- keyword" instead, [extractKeywordsSection] returns the keywords in
    lower case, in their order. *)
Theorem extractKeywordsSection_bullets (pre post k1 k2 : string) (ks : list string) :
  includes (pre ++ "#") "##" = false ->
  section_end post ->
  Forall plain_keyword (k1 :: k2 :: ks) ->
  List.NoDup (map toLowerCase (k1 :: k2 :: ks)) ->
  extractKeywordsSection
    (pre ++ "## Keywords" ++ newline ++ newline
         ++ join newline (map (fun k => "- " ++ k) (k1 :: k2 :: ks)) ++ newline ++ post)
  = map toLowerCase (k1 :: k2 :: ks).
Proof.
  intros Hpre Hpost Hks Hdup.
  pose proof (bullets_lines _ Hks) as Hlines.
  pose proof (section_block pre post ("- " ++ k1) (map (fun k => "- " ++ k) (k2 :: ks))
                Hpre Hpost) as Hsec.
  cbv zeta in Hsec.
  change (("- " ++ k1) :: map (fun k => "- " ++ k) (k2 :: ks))
    with (map (fun k => "- " ++ k) (k1 :: k2 :: ks)) in Hsec.
  rewrite Hsec; clear Hsec;
    [ | apply bullets_trimmed, Hks
      | inversion Hlines as [|? ? [H _] _]; exact H
      | inversion Hlines; assumption ].
  assert (Hnl : includes (join newline (map (fun k => "- " ++ k) (k1 :: k2 :: ks))) newline = true).
  { apply includes_spec. cbn [map]. rewrite join_cons.
    exists ("- " ++ k1), (join newline (("- " ++ k2) :: map (fun k => "- " ++ k) ks)).
    reflexivity. }
  assert (Hcomma : includes (join newline (map (fun k => "- " ++ k) (k1 :: k2 :: ks))) "," = false).
  { apply includes_no_char, all_chars_join; [reflexivity|].
    apply bullets_chars; [reflexivity | reflexivity | apply plain_char_not_comma | exact Hks]. }
  rewrite Hnl, Hcomma. cbn [negb orb app].
  unfold listKeywords. rewrite (listMatches_bullets _ Hks), (cleaned_plain _ Hks).
  apply uniq_id, Hdup.
Qed.



(** ** Explicit keywords and description tokens *)

Lemma filter_not_in (x : string) (l1 l : list string) :
  List.filter (fun y => negb (String.eqb x y))
              (List.filter (fun t => negb (existsb (String.eqb t) l1)) l)
  = List.filter (fun t => negb (existsb (String.eqb t) (x :: l1))) l.
Proof.
  induction l as [|y l IH]; [reflexivity|]. cbn [List.filter existsb].
  rewrite (String.eqb_sym y x).
  destruct (existsb (String.eqb y) l1).
  - rewrite orb_true_r. exact IH.
  - rewrite orb_false_r. cbn [negb List.filter].
    destruct (String.eqb x y); cbn [negb]; rewrite IH; reflexivity.
Qed.

Lemma uniq_app (l1 l2 : list string) :
  uniq (l1 ++ l2)
  = (uniq l1 ++ List.filter (fun t => negb (existsb (String.eqb t) l1)) (uniq l2))%list.
Proof.
  induction l1 as [|x l1 IH].
  - simpl. symmetry. apply filter_all. apply List.Forall_forall. reflexivity.
  - cbn [app uniq]. rewrite IH, List.filter_app, filter_not_in. reflexivity.
Qed.

Lemma uniq_idem (l : list string) : uniq (uniq l) = uniq l.
Proof. apply uniq_id, uniq_NoDup. Qed.

Lemma extractKeywordsSection_uniq (content : string) :
  uniq (extractKeywordsSection content) = extractKeywordsSection content.
Proof.
  unfold extractKeywordsSection. destruct (find_header content); [|reflexivity].
  apply uniq_idem.
Qed.

(** X9: [extractKeywords] returns pairwise distinct keywords: the
    explicit keywords of the section first, as [extractKeywordsSection]
    gives them, then the unique tokens of the description that are not
    among them, in their order. *)
Theorem extractKeywords_explicit_first (description content : string) :
  List.NoDup (extractKeywords description content)
  /\ extractKeywords description content
     = (extractKeywordsSection content
        ++ List.filter
             (fun t => negb (existsb (String.eqb t) (extractKeywordsSection content)))
             (extractUniqueTokens description))%list.
Proof.
  unfold extractKeywords. split; [apply uniq_NoDup|].
  rewrite uniq_app, extractKeywordsSection_uniq.
  unfold extractUniqueTokens. rewrite uniq_idem. reflexivity.
Qed.

(** ** Scanned entries *)

Lemma present_nonempty (field : option string) :
  present field = true -> default EmptyString field <> EmptyString.
Proof. destruct field as [[|c s]|]; simpl; congruence. Qed.

Lemma skillEntryOf_scanned (dir : string) (file : option ParsedSkill)
    (parsed : ParsedSkill) :
  parseSkillFile file = Some parsed -> scanned_entry (skillEntryOf dir parsed).
Proof.
  unfold parseSkillFile. destruct file as [p|]; [|discriminate].
  destruct (present (fmName (frontmatter p))) eqn:Hn; [|discriminate].
  destruct (present (fmDescription (frontmatter p))) eqn:Hd; [|discriminate].
  simpl. intros H. inversion H; subst p. clear H.
  unfold scanned_entry, skillEntryOf. cbn [name description keywords tokens alwaysInclude].
  repeat split.
  - apply present_nonempty, Hn.
  - apply present_nonempty, Hd.
  - apply uniq_NoDup.
  - apply uniq_NoDup.
  - intros t Ht. unfold extractKeywords. apply (proj2 (uniq_In _ _)), in_or_app. right.
    apply (proj2 (uniq_In _ _)). exact Ht.
  - apply List.Forall_forall. intros t Ht. apply (proj1 (uniq_In _ _)) in Ht.
    apply (tokenize_chars _ _ Ht).
  - discriminate.
Qed.

Lemma scanEntries_scanned (entries : list DirEntry) (skills : list SkillEntry) :
  Forall scanned_entry skills -> Forall scanned_entry (scanEntries entries skills).
Proof.
  revert skills. induction entries as [|e rest IH]; intros skills H; [exact H|].
  cbn [scanEntries]. destruct (isDirectory e) as [d|]; [|exact H].
  destruct (d && hasSkillFile e); [|apply IH, H].
  destruct (parseSkillFile (skillFile e)) as [parsed|] eqn:Hp; [|apply IH, H].
  apply IH. apply Forall_app. split; [exact H|].
  constructor; [|constructor]. apply (skillEntryOf_scanned _ _ _ Hp).
Qed.

Lemma scanSkillDirectory_scanned (listing : option (list DirEntry)) :
  Forall scanned_entry (scanSkillDirectory listing).
Proof.
  destruct listing as [entries|]; [|constructor].
  apply scanEntries_scanned. constructor.
Qed.

(** X10: every entry that [scanSkillDirectory] returns has a name and a
    description that are not empty, keywords without duplicates that
    include every token of the description, tokens without duplicates
    made of a-z, 0-9 and the hyphen, and an [alwaysInclude] flag that is
    set (to [false] when the front matter has none). *)
Theorem scanSkillDirectory_entries (listing : option (list DirEntry)) :
  Forall scanned_entry (scanSkillDirectory listing).
Proof. apply scanSkillDirectory_scanned. Qed.

Lemma scanEntries_stat_failure (before after : list DirEntry) (entry : DirEntry)
    (skills : list SkillEntry) :
  isDirectory entry = None ->
  scanEntries (before ++ entry :: after) skills = scanEntries before skills.
Proof.
  intros He. revert skills. induction before as [|e rest IH]; intros skills.
  - cbn [app scanEntries]. rewrite He. reflexivity.
  - cbn [app scanEntries]. destruct (isDirectory e) as [d|]; [|reflexivity].
    destruct (d && hasSkillFile e); [|apply IH].
    destruct (parseSkillFile (skillFile e)); apply IH.
Qed.

(** X11: when [statSync] throws for an entry of the directory, the scan
    ends there: the entries behind it are not read, and the skills found
    before it are returned. *)
Theorem scanSkillDirectory_stat_failure (before after : list DirEntry)
    (entry : DirEntry) :
  isDirectory entry = None ->
  scanSkillDirectory (Some (before ++ entry :: after))%list
  = scanSkillDirectory (Some before).
Proof. intros H. apply (scanEntries_stat_failure _ _ _ _ H). Qed.

(** ** Merging the scans *)

Lemma addSkill_loop (l : list SkillEntry) (skills : list SkillEntry)
    (seen : gset string) :
  (fold_left addSkill l (skills, seen)).1 = (skills ++ firstByName seen l)%list.
Proof.
  revert skills seen. induction l as [|s l IH]; intros skills seen.
  - cbn [fold_left firstByName fst]. rewrite app_nil_r. reflexivity.
  - cbn [fold_left firstByName]. unfold addSkill at 2. cbn [fst snd].
    destruct (bool_decide (name s ∈ seen)); [apply IH|].
    rewrite IH, <- app_assoc. reflexivity.
Qed.

Lemma not_elem_of_insert (x y : string) (seen : gset string) :
  x <> y -> x ∉ seen -> x ∉ ({[ y ]} ∪ seen : gset string).
Proof.
  intros Hxy Hx E. apply elem_of_union in E. destruct E as [E | E].
  - apply elem_of_singleton in E. contradiction.
  - contradiction.
Qed.

Lemma mergeScans_firstByName (scans : list (list SkillEntry)) :
  mergeScans scans = firstByName ∅ (concat scans).
Proof.
  unfold mergeScans.
  assert (H : forall skills seen,
             fold_left (fun st dirSkills => fold_left addSkill dirSkills st) scans
                       (skills, seen)
             = fold_left addSkill (concat scans) (skills, seen)).
  { induction scans as [|l scans IH]; intros skills seen; [reflexivity|].
    cbn [fold_left concat]. rewrite fold_left_app.
    destruct (fold_left addSkill l (skills, seen)) as [skills' seen']. apply IH. }
  rewrite H, addSkill_loop. reflexivity.
Qed.

Lemma firstByName_not_seen (seen : gset string) (l : list SkillEntry) (s : SkillEntry) :
  In s (firstByName seen l) -> (name s ∉ seen) /\ In s l.
Proof.
  revert seen. induction l as [|x l IH]; intros seen; [intros []|].
  cbn [firstByName]. case_bool_decide as Hx.
  - intros H. destruct (IH _ H) as [H1 H2]. split; [exact H1 | right; exact H2].
  - intros [<- | H]; [split; [exact Hx | left; reflexivity]|].
    destruct (IH _ H) as [H1 H2]. split; [|right; exact H2].
    intros E. apply H1, elem_of_union. right. exact E.
Qed.

Lemma firstByName_NoDup (seen : gset string) (l : list SkillEntry) :
  List.NoDup (map name (firstByName seen l)).
Proof.
  revert seen. induction l as [|x l IH]; intros seen; [constructor|].
  cbn [firstByName]. case_bool_decide as Hx; [apply IH|].
  cbn [map]. constructor; [|apply IH].
  intros Hin. apply in_map_iff in Hin. destruct Hin as [s [Hs Hin]].
  apply firstByName_not_seen in Hin. destruct Hin as [Hin _].
  apply Hin, elem_of_union. left. apply elem_of_singleton. exact Hs.
Qed.

Lemma firstByName_sublist (seen : gset string) (l : list SkillEntry) :
  sublist (firstByName seen l) l.
Proof.
  revert seen. induction l as [|x l IH]; intros seen; [constructor|].
  cbn [firstByName]. case_bool_decide.
  - apply sublist_cons, IH.
  - apply sublist_skip, IH.
Qed.

Lemma firstByName_first (seen : gset string) (l1 l2 : list SkillEntry) (s : SkillEntry) :
  name s ∉ seen -> ~ In (name s) (map name l1) ->
  In s (firstByName seen (l1 ++ s :: l2)).
Proof.
  revert seen. induction l1 as [|x l1 IH]; intros seen Hseen Hl1.
  - cbn [app firstByName]. rewrite bool_decide_eq_false_2 by exact Hseen.
    left. reflexivity.
  - cbn [app firstByName]. cbn [map] in Hl1.
    assert (Hx : name x <> name s) by (intros E; apply Hl1; left; exact E).
    assert (Hl : ~ In (name s) (map name l1)) by (intros E; apply Hl1; right; exact E).
    case_bool_decide; [apply IH; assumption|].
    right. apply IH; [|exact Hl].
    apply not_elem_of_insert; [congruence | exact Hseen].
Qed.

Lemma firstByName_unique (seen : gset string) (l : list SkillEntry) :
  List.NoDup (map name l) -> (forall s, In s l -> name s ∉ seen) ->
  firstByName seen l = l.
Proof.
  revert seen. induction l as [|x l IH]; intros seen Hnd Hseen; [reflexivity|].
  cbn [firstByName]. rewrite bool_decide_eq_false_2 by (apply Hseen; left; reflexivity).
  cbn [map] in Hnd. inversion Hnd as [|? ? Hx Hnd']; subst.
  f_equal. apply IH; [exact Hnd'|].
  intros s Hs. assert (name s <> name x).
  { intros E. apply Hx. rewrite <- E. apply in_map, Hs. }
  apply not_elem_of_insert; [exact H | apply Hseen; right; exact Hs].
Qed.

Lemma mergeScans_first (scans : list (list SkillEntry)) :
  List.NoDup (map name (mergeScans scans))
  /\ sublist (mergeScans scans) (concat scans)
  /\ (forall l1 s l2,
        concat scans = (l1 ++ s :: l2)%list -> ~ In (name s) (map name l1) ->
        In s (mergeScans scans))
  /\ (List.NoDup (map name (concat scans)) -> mergeScans scans = concat scans).
Proof.
  rewrite mergeScans_firstByName. repeat split.
  - apply firstByName_NoDup.
  - apply firstByName_sublist.
  - intros l1 s l2 -> H. apply firstByName_first; [apply not_elem_of_empty | exact H].
  - intros H. apply firstByName_unique; [exact H|].
    intros s _. apply not_elem_of_empty.
Qed.

(** X12: [scanAllSkillDirectories] keeps, for every name, the first
    skill of that name in the order of the directories: the names of the
    result are pairwise distinct, the result is a subsequence of the
    concatenated scans, every skill whose name does not occur before it is
    kept, and scans whose names are already distinct are returned
    unchanged. *)
Theorem scanAllSkillDirectories_first_wins
    (directories : list (option (list DirEntry))) :
  List.NoDup (map name (scanAllSkillDirectories directories))
  /\ sublist (scanAllSkillDirectories directories)
             (concat (map scanSkillDirectory directories))
  /\ (forall l1 s l2,
        concat (map scanSkillDirectory directories) = (l1 ++ s :: l2)%list ->
        ~ In (name s) (map name l1) ->
        In s (scanAllSkillDirectories directories))
  /\ (List.NoDup (map name (concat (map scanSkillDirectory directories))) ->
      scanAllSkillDirectories directories
      = concat (map scanSkillDirectory directories)).
Proof. apply mergeScans_first. Qed.

Lemma scanAllSkillDirectories_scanned (directories : list (option (list DirEntry))) :
  Forall scanned_entry (scanAllSkillDirectories directories).
Proof.
  unfold scanAllSkillDirectories.
  apply List.Forall_forall. intros s Hs.
  rewrite mergeScans_firstByName in Hs.
  apply firstByName_not_seen in Hs. destruct Hs as [_ Hs].
  apply in_concat in Hs. destruct Hs as [l [Hl Hs]].
  apply in_map_iff in Hl. destruct Hl as [listing [<- _]].
  pose proof (scanSkillDirectory_scanned listing) as H.
  rewrite List.Forall_forall in H. apply H, Hs.
Qed.

(** X13: the index that [buildIndex] makes of the scanned directories
    has pairwise distinct document names, statistics that are those of its
    documents, and only documents with the guarantees of a scanned
    entry. *)
Theorem buildIndex_scanned (now : string) (directories : list (option (list DirEntry))) :
  unique_names (buildIndex now (scanAllSkillDirectories directories))
  /\ consistent (buildIndex now (scanAllSkillDirectories directories))
  /\ Forall scanned_entry
            (skills (buildIndex now (scanAllSkillDirectories directories))).
Proof.
  split; [|split].
  - unfold unique_names, buildIndex, scanAllSkillDirectories. cbn [skills].
    rewrite mergeScans_firstByName. apply firstByName_NoDup.
  - apply buildIndex_consistent.
  - apply scanAllSkillDirectories_scanned.
Qed.

(** ** The average document length *)

Lemma totalLength_sum (skills : list SkillEntry) (a : nat) :
  fold_left (fun sum s => sum + length (keywords s) + length (tokens s)) skills a
  = a + list_sum (map getDocLength skills).
Proof.
  revert a. induction skills as [|s l IH]; intros a; simpl; [lia|].
  rewrite IH. unfold getDocLength. lia.
Qed.

Lemma list_sum_bounds (l : list nat) (lo hi : nat) :
  Forall (fun n => lo <= n <= hi) l ->
  lo * length l <= list_sum l <= hi * length l.
Proof.
  induction 1 as [|n l Hn Hl IH]; simpl; [lia|].
  rewrite !Nat.mul_succ_r. lia.
Qed.

(** X14: the average document length of a non-empty list of documents
    lies between the lengths of its shortest and of its longest document,
    as the scorer measures them with [getDocLength]: whenever every length
    is between [lo] and [hi], so is the average.  (The bounds are whole
    numbers and the sum of the lengths is exact, so the rounding of the one
    division keeps the quotient between them.) *)
Theorem calculateAvgDocLength_bounds (skills : list SkillEntry) (lo hi : nat) :
  skills <> [] ->
  Forall (fun s => lo <= getDocLength s <= hi) skills ->
  (INR lo <= calculateAvgDocLength skills <= INR hi)%R.
Proof.
  intros Hne Hall.
  assert (Hsum : lo * length skills <= list_sum (map getDocLength skills)
                 <= hi * length skills).
  { rewrite <- (length_map getDocLength skills).
    apply list_sum_bounds, List.Forall_map. exact Hall. }
  unfold calculateAvgDocLength, totalLength. rewrite totalLength_sum, Nat.add_0_l.
  destruct skills as [|s l]; [contradiction|].
  revert Hsum. generalize (list_sum (map getDocLength (s :: l))). intros total Hsum.
  assert (Hn : (0 < INR (length (s :: l)))%R) by (apply lt_0_INR; simpl; lia).
  destruct Hsum as [Hlo Hhi].
  apply le_INR in Hlo, Hhi. rewrite mult_INR in Hlo, Hhi.
  cbn [length] in *. split.
  - apply (Rmult_le_reg_r (INR (S (length l)))); [exact Hn|].
    unfold Rdiv. rewrite Rmult_assoc, Rinv_l by lra. lra.
  - apply (Rmult_le_reg_r (INR (S (length l)))); [exact Hn|].
    unfold Rdiv. rewrite Rmult_assoc, Rinv_l by lra. lra.
Qed.

Lemma calculateAvgDocLength_bounds_witness :
  (INR 2 <= calculateAvgDocLength [github_pr; git_commit; database] <= INR 4)%R.
Proof.
  apply calculateAvgDocLength_bounds; [discriminate|].
  repeat constructor.
Defined.

(** ** Document frequencies *)

(** X15: for every term that is not a property name of
    [Object.prototype], the document frequency map of a built index holds
    the number of documents that contain the term, and no entry when no
    document does. *)
Theorem documentFrequency_ordinary_terms (now : string) (scanned : list SkillEntry)
    (t : string) :
  inherited t = false ->
  documentFrequency (buildIndex now scanned) !! t
  = entry_of_count (containing t scanned).
Proof. intros H. apply calculateDocumentFrequency_lookup, H. Qed.

(** ** The IDF of ordinary terms *)

Lemma idfR_decreasing (N n n' : nat) : n < n' -> (idfR N n' < idfR N n)%R.
Proof.
  intros H. apply lt_INR in H.
  pose proof (pos_INR n) as Hn. pose proof (pos_INR N) as HN.
  unfold idfR. apply ln_increasing; [apply idf_argument_pos|].
  replace 0.5%R with (1 / 2)%R by lra.
  replace ((INR N - INR n' + 1 / 2) / (INR n' + 1 / 2) + 1)%R
    with ((INR N + 1) / (INR n' + 1 / 2))%R by (field; lra).
  replace ((INR N - INR n + 1 / 2) / (INR n + 1 / 2) + 1)%R
    with ((INR N + 1) / (INR n + 1 / 2))%R by (field; lra).
  unfold Rdiv. apply Rmult_lt_compat_l; [lra|].
  apply Rinv_lt_contravar; [|lra].
  apply Rmult_lt_0_compat; lra.
Qed.

(** X16: in an index with consistent statistics, the IDF of a term that
    is not a property name of [Object.prototype] is a number that is not
    negative, and it is positive exactly when some document contains the
    term. *)
Theorem calculateIDF_ordinary_term (idx : SkillIndex) (t : string) :
  consistent idx ->
  inherited t = false ->
  exists x,
    calculateIDF idx t = Fin x
    /\ (0 <= x)%R
    /\ ((0 < x)%R <-> 0 < containing t (skills idx)).
Proof.
  intros Hidx Ht.
  rewrite (calculateIDF_count idx t _ (consistent_documentFrequency idx t Hidx Ht)).
  eexists. split; [reflexivity|].
  destruct (containing t (skills idx)) as [|n] eqn:Hn; cbn [Nat.eqb].
  - split; [lra|]. split; [lra | lia].
  - pose proof (idfR_pos (length (skills idx)) (S n)) as Hpos.
    rewrite <- Hn in Hpos. specialize (Hpos (containing_le t (skills idx))).
    rewrite Hn in Hpos. split; [lra|]. split; [lia | intros _; exact Hpos].
Qed.

(** X17: in an index with consistent statistics, of two terms that
    occur in the corpus the one contained in fewer documents has the
    strictly larger IDF. *)
Theorem calculateIDF_rarer_term (idx : SkillIndex) (t t' : string) :
  consistent idx ->
  inherited t = false -> inherited t' = false ->
  0 < containing t (skills idx) ->
  containing t (skills idx) < containing t' (skills idx) ->
  exists x y,
    calculateIDF idx t = Fin x /\ calculateIDF idx t' = Fin y /\ (0 < y < x)%R.
Proof.
  intros Hidx Ht Ht' Hpos Hlt.
  rewrite (calculateIDF_count idx t _ (consistent_documentFrequency idx t Hidx Ht)).
  rewrite (calculateIDF_count idx t' _ (consistent_documentFrequency idx t' Hidx Ht')).
  do 2 eexists. split; [reflexivity|]. split; [reflexivity|].
  destruct (Nat.eqb_spec (containing t (skills idx)) 0) as [E|_]; [lia|].
  destruct (Nat.eqb_spec (containing t' (skills idx)) 0) as [E|_]; [lia|].
  split; [apply idfR_pos, containing_le | apply idfR_decreasing, Hlt].
Qed.

Lemma calculateIDF_rarer_term_witness :
  exists x y,
    calculateIDF shared_corpus "unique1" = Fin x
    /\ calculateIDF shared_corpus "shared" = Fin y
    /\ (0 < y < x)%R.
Proof.
  apply calculateIDF_rarer_term.
  - apply buildIndex_consistent.
  - reflexivity.
  - reflexivity.
  - vm_compute. lia.
  - vm_compute. lia.
Defined.

(** ** Query terms that do not touch a document *)

Section ScoreSkillTerms.
Variable index : SkillIndex.
Variables k1 b : R.
Variable s : SkillEntry.

Lemma scoreTerm_unmatched (acc : num * list string) (term : string) :
  matches s term = false -> scoreTerm index k1 b s acc term = acc.
Proof. unfold matches, scoreTerm. intros ->. reflexivity. Qed.

Lemma loop_filter (queryTerms : list string) (acc : num * list string) :
  fold_left (scoreTerm index k1 b s) (List.filter (matches s) queryTerms) acc
  = fold_left (scoreTerm index k1 b s) queryTerms acc.
Proof.
  revert acc. induction queryTerms as [|t l IH]; intros acc; [reflexivity|].
  cbn [List.filter fold_left]. destruct (matches s t) eqn:Hm.
  - cbn [fold_left]. apply IH.
  - rewrite (scoreTerm_unmatched _ _ Hm). apply IH.
Qed.
End ScoreSkillTerms.

(** X18: the query terms that do not overlap a document do not change
    its result: [scoreSkill] gives the same score and matched keywords for
    the query terms and for those of them that the document matches. *)
Theorem scoreSkill_matching_terms (idx : SkillIndex) (k1 b : R) (s : SkillEntry)
    (queryTerms : list string) :
  scoreSkill idx k1 b s queryTerms
  = scoreSkill idx k1 b s (List.filter (matches s) queryTerms).
Proof. unfold scoreSkill. rewrite loop_filter. reflexivity. Qed.

(** ** Repeated query words *)

Lemma add_zero_l (a : num) : add (Fin 0) a = a.
Proof. destruct a as [x| | |]; simpl; [f_equal; lra | reflexivity ..]. Qed.

Lemma add_twice (a : num) : add a a = mul (Fin 2) a.
Proof.
  destruct a as [x| | |]; simpl; [f_equal; lra | | | reflexivity].
  - unfold inf_times. rewrite Reqb_false by lra. rewrite Rltb_true by lra. reflexivity.
  - unfold inf_times. rewrite Reqb_false by lra. rewrite Rltb_true by lra. reflexivity.
Qed.

(** X19: [tokenizeQuery] keeps repeated words and [scoreSkill] counts
    each occurrence: a query that repeats its one word gets twice the
    score of the single word, with the same matched keywords. *)
Theorem scoreSkill_repeated_word (idx : SkillIndex) (k1 b : R) (s : SkillEntry)
    (w t : string) :
  tokenizeQuery w = [t] ->
  tokenizeQuery (w ++ " " ++ w) = [t; t]
  /\ score (scoreSkill idx k1 b s (tokenizeQuery (w ++ " " ++ w)))
     = mul (Fin 2) (score (scoreSkill idx k1 b s (tokenizeQuery w)))
  /\ matchedKeywords (scoreSkill idx k1 b s (tokenizeQuery (w ++ " " ++ w)))
     = matchedKeywords (scoreSkill idx k1 b s (tokenizeQuery w)).
Proof.
  intros Hw.
  assert (Hww : tokenizeQuery (w ++ " " ++ w) = [t; t]).
  { unfold tokenizeQuery in *.
    change (" " ++ w) with (String " " w).
    rewrite (tokenize_separator w w " " eq_refl), Hw. reflexivity. }
  split; [exact Hww|]. rewrite Hww, Hw. split.
  - unfold scoreSkill. cbn [fold_left score]. unfold scoreTerm.
    destruct (Nat.ltb 0 (getTermFrequency s t)); cbn [fst snd].
    + rewrite add_zero_l. apply add_twice.
    + simpl. f_equal. lra.
  - rewrite !matchedKeywords_filter. cbn [List.filter].
    destruct (matches s t); [|reflexivity].
    cbn [uniq List.filter]. rewrite String.eqb_refl. reflexivity.
Qed.

Lemma scoreSkill_repeated_word_witness :
  tokenizeQuery "GitHub" = ["github"]
  /\ tokenizeQuery ("GitHub" ++ " " ++ "GitHub") = ["github"; "github"]
  /\ score (scoreSkill corpus 1.2 0.75 github_pr (tokenizeQuery ("GitHub" ++ " " ++ "GitHub")))
     = mul (Fin 2) (score (scoreSkill corpus 1.2 0.75 github_pr (tokenizeQuery "GitHub")))
  /\ matchedKeywords (scoreSkill corpus 1.2 0.75 github_pr
                                 (tokenizeQuery ("GitHub" ++ " " ++ "GitHub")))
     = matchedKeywords (scoreSkill corpus 1.2 0.75 github_pr (tokenizeQuery "GitHub")).
Proof.
  split; [reflexivity|]. apply scoreSkill_repeated_word. reflexivity.
Defined.

(** ** Terms that match only as substrings *)



(** ** The selector *)

Lemma slice0_nil {A : Type} (n : Z) : slice0 (@nil A) n = [].
Proof. unfold slice0. destruct (n <? 0)%Z; apply firstn_nil. Qed.

(** X21: for a query without terms (empty, or stopwords and short
    words only), [scoreQuery] returns exactly the always-include
    documents, in index order, each with score 0 and no matched
    keywords. *)
Theorem scoreQuery_no_terms (idx : SkillIndex) (query : string) (config : RouterConfig) :
  tokenizeQuery query = [] ->
  scoreQuery idx query config = map unmatched (alwaysIncludeSkills idx config).
Proof.
  intros H. unfold scoreQuery, topResults, alwaysIncludeResults, allResults.
  rewrite (scoreAll_no_terms _ _ _ _ H). cbn [List.filter find].
  rewrite slice0_nil, app_nil_r. reflexivity.
Qed.

Lemma scoreQuery_no_terms_witness :
  tokenizeQuery "How do I use it?" = []
  /\ scoreQuery routed_corpus "How do I use it?" DEFAULT_CONFIG = [unmatched skill_router].
Proof.
  split; [reflexivity|].
  apply (scoreQuery_no_terms routed_corpus "How do I use it?" DEFAULT_CONFIG).
  reflexivity.
Defined.

Lemma StronglySorted_filter {A : Type} (R : A -> A -> Prop) (p : A -> bool)
    (l : list A) :
  StronglySorted R l -> StronglySorted R (List.filter p l).
Proof.
  induction 1 as [|x l Hs IH Hx]; [constructor|]. simpl.
  destruct (p x); [|exact IH]. constructor; [exact IH|].
  apply List.Forall_forall. intros y Hy. apply filter_In in Hy.
  rewrite List.Forall_forall in Hx. apply Hx, Hy.
Qed.

Lemma StronglySorted_firstn {A : Type} (R : A -> A -> Prop) (n : nat) (l : list A) :
  StronglySorted R l -> StronglySorted R (firstn n l).
Proof.
  intros H. revert n. induction H as [|x l Hs IH Hx]; intros n.
  - rewrite firstn_nil. constructor.
  - destruct n as [|n]; [constructor|]. cbn [firstn]. constructor; [apply IH|].
    apply List.Forall_forall. intros y Hy. apply firstn_In in Hy.
    rewrite List.Forall_forall in Hx. apply Hx, Hy.
Qed.

Lemma allResults_sorted (idx : SkillIndex) (query : string) (config : RouterConfig) :
  Forall (fun s => not_nan (score (scoreSkill idx (bm25K1 config) (bm25B config) s
                                              (tokenizeQuery query))))
         (skills idx) ->
  StronglySorted desc (allResults idx query config).
Proof.
  intros Hnum. unfold allResults.
  assert (Hterms : tokenizeQuery query = [] \/ tokenizeQuery query <> []).
  { destruct (tokenizeQuery query); [left; reflexivity | right; discriminate]. }
  destruct Hterms as [Hterms | Hterms].
  - rewrite (scoreAll_no_terms _ _ _ _ Hterms). constructor.
  - rewrite (scoreAll_terms _ _ _ _ Hterms).
    apply js_sort_sorted, List.Forall_map. exact Hnum.
Qed.

(** X22: the results that [scoreQuery] selects by score come best
    first: when the score of every document of the index is a number (none
    is [NaN]), the results behind the always-include ones are sorted by
    descending score. *)
Theorem topResults_best_first (idx : SkillIndex) (query : string)
    (config : RouterConfig) :
  Forall (fun s => not_nan (score (scoreSkill idx (bm25K1 config) (bm25B config) s
                                              (tokenizeQuery query))))
         (skills idx) ->
  StronglySorted desc (topResults idx query config).
Proof.
  intros Hnum. unfold topResults, slice0.
  destruct (maxResults config <? 0)%Z;
    apply StronglySorted_firstn, StronglySorted_filter,
          (allResults_sorted idx query config Hnum).
Qed.

(** The default configuration on [routed_corpus]: its scores are
    numbers. *)
Lemma topResults_best_first_witness :
  StronglySorted desc (topResults routed_corpus "create a github pull request" DEFAULT_CONFIG).
Proof.
  apply topResults_best_first.
  apply List.Forall_forall. intros s Hs.
  assert (Hk1 : (0 <= bm25K1 DEFAULT_CONFIG)%R) by (simpl; lra).
  assert (Hb : (0 <= bm25B DEFAULT_CONFIG <= 1)%R) by (simpl; lra).
  assert (Hq : Forall (fun t => inherited t = false)
                      (tokenizeQuery "create a github pull request"))
    by (vm_compute; repeat constructor).
  destruct (scoreSkill_nonneg routed_corpus _ _
              (buildIndex_consistent _ _) Hk1 Hb s _ Hs Hq) as [x [Hx _]].
  rewrite Hx. discriminate.
Defined.

Lemma scoreSkill_skill (idx : SkillIndex) (k1 b : R) (s : SkillEntry) (q : list string) :
  skill (scoreSkill idx k1 b s q) = s.
Proof. reflexivity. Qed.

Lemma allResults_names (idx : SkillIndex) (query : string) (config : RouterConfig) :
  unique_names idx ->
  List.NoDup (map (fun r => name (skill r)) (allResults idx query config)).
Proof.
  intros Hnd. unfold allResults, scoreAll.
  destruct (tokenizeQuery query) as [|t ts]; [constructor|].
  apply (Permutation_NoDup (l := map name (skills idx))); [|exact Hnd].
  rewrite <- (map_map skill name). apply Permutation_map.
  rewrite js_sort_perm, map_map. cbn [skill]. rewrite map_id. reflexivity.
Qed.

Lemma NoDup_firstn {A : Type} (n : nat) (l : list A) :
  List.NoDup l -> List.NoDup (firstn n l).
Proof.
  intros H. rewrite <- (firstn_skipn n l) in H. apply List.NoDup_app_remove_r in H. exact H.
Qed.

(** X23: when the documents of the index have pairwise distinct names,
    no document occurs twice in the result of [scoreQuery]; the documents
    of the result are the always-include documents of the index (flag set,
    or name listed in the configuration), all of them and in index order,
    followed by documents that are not always-include; and every result is
    about a document of the index. *)
Theorem scoreQuery_documents_once (idx : SkillIndex) (query : string)
    (config : RouterConfig) :
  unique_names idx ->
  List.NoDup (map (fun r => name (skill r)) (scoreQuery idx query config))
  /\ (exists others,
        map skill (scoreQuery idx query config)
        = (List.filter
             (fun s => truthy (alwaysInclude s)
                       || existsb (String.eqb (name s)) (cfgAlwaysInclude config))
             (skills idx)
           ++ others)%list
        /\ Forall (fun s => alwaysInclude s <> Some true
                            /\ ~ In (name s) (cfgAlwaysInclude config)) others)
  /\ Forall (fun r => In (skill r) (skills idx)) (scoreQuery idx query config).
Proof.
  intros Hnd.
  assert (Halways : map skill (alwaysIncludeResults idx query config)
                    = alwaysIncludeSkills idx config).
  { rewrite alwaysIncludeResults_map, map_map.
    rewrite <- (map_id (alwaysIncludeSkills idx config)) at 2.
    apply map_ext_in. intros s Hs. apply forcedEntry_skill; [exact Hnd|].
    unfold alwaysIncludeSkills in Hs. apply filter_In in Hs. apply Hs. }
  split; [|split].
  2: { exists (map skill (topResults idx query config)). split.
       - unfold scoreQuery. rewrite map_app, Halways. reflexivity.
       - apply List.Forall_map, List.Forall_forall. intros r Hr.
         destruct (topResults_spec _ _ _ _ Hr) as [Hall [_ Hset]].
         destruct (allResults_In _ _ _ _ Hall) as [s [Hs ->]].
         change (skill (scoreSkill idx (bm25K1 config) (bm25B config) s
                                   (tokenizeQuery query))) with s in *.
         assert (Hno : isAlwaysInclude config s = false).
         { destruct (isAlwaysInclude config s) eqn:Hai; [|reflexivity].
           rewrite <- Hset. symmetry. apply inAlwaysIncludeSet_spec. exists s.
           split; [|reflexivity].
           unfold alwaysIncludeSkills. apply filter_In. auto. }
         split; intros H;
           (assert (Hyes : isAlwaysInclude config s = true)
              by (apply isAlwaysInclude_spec; tauto));
           congruence. }
  - unfold scoreQuery. rewrite map_app. apply List.NoDup_app.
    + rewrite <- (map_map skill name), Halways.
      apply NoDup_map_filter, Hnd.
    + unfold topResults, slice0.
      destruct (maxResults config <? 0)%Z; rewrite <- List.firstn_map;
        apply NoDup_firstn, NoDup_map_filter, allResults_names, Hnd.
    + intros n Hn Htop. apply in_map_iff in Htop. destruct Htop as [r [<- Hr]].
      destruct (topResults_spec _ _ _ _ Hr) as [_ [_ Hset]].
      unfold inAlwaysIncludeSet in Hset.
      rewrite <- (map_map skill name), Halways in Hn.
      assert (existsb (String.eqb (name (skill r)))
                      (map name (alwaysIncludeSkills idx config)) = true); [|congruence].
      apply existsb_exists. exists (name (skill r)).
      split; [exact Hn | apply String.eqb_refl].
  - unfold scoreQuery. apply Forall_app. split.
    + apply List.Forall_forall. intros r Hr.
      apply (in_map skill) in Hr. rewrite Halways in Hr.
      unfold alwaysIncludeSkills in Hr. apply filter_In in Hr. apply Hr.
    + apply List.Forall_forall. intros r Hr.
      destruct (topResults_spec _ _ _ _ Hr) as [Hall _].
      destruct (allResults_In _ _ _ _ Hall) as [s [Hs ->]]. exact Hs.
Qed.

Lemma scoreQuery_documents_once_witness :
  List.NoDup (map (fun r => name (skill r))
                  (scoreQuery routed_corpus "create github pr" DEFAULT_CONFIG))
  /\ (exists others,
        map skill (scoreQuery routed_corpus "create github pr" DEFAULT_CONFIG)
        = (List.filter
             (fun s => truthy (alwaysInclude s)
                       || existsb (String.eqb (name s))
                                  (cfgAlwaysInclude DEFAULT_CONFIG))
             (skills routed_corpus)
           ++ others)%list
        /\ Forall (fun s => alwaysInclude s <> Some true
                            /\ ~ In (name s) (cfgAlwaysInclude DEFAULT_CONFIG)) others)
  /\ Forall (fun r => In (skill r) (skills routed_corpus))
            (scoreQuery routed_corpus "create github pr" DEFAULT_CONFIG).
Proof. apply scoreQuery_documents_once, routed_corpus_unique_names. Defined.

(** ** The number of unique terms *)

Lemma bump_dom (df : gmap string JsVal) (t : string) :
  df !! "__proto__" = None ->
  dom (bump df t) = dom df ∪ list_to_set (List.filter storable [t])
  /\ bump df t !! "__proto__" = None.
Proof.
  intros Hproto. unfold bump, js_set, storable. cbn [List.filter].
  destruct (String.eqb_spec t "__proto__") as [->|Hne]; cbn [negb].
  - rewrite Hproto. cbn [list_to_set]. split; [|exact Hproto].
    rewrite union_empty_r_L. reflexivity.
  - assert (Hins : forall v, dom (<[t := v]> df) = dom df ∪ list_to_set [t]
                             /\ <[t := v]> df !! "__proto__" = None).
    { intros v. split.
      - rewrite dom_insert_L. cbn [list_to_set].
        rewrite union_empty_r_L, union_comm_L. reflexivity.
      - rewrite lookup_insert_ne by exact Hne. exact Hproto. }
    destruct (df !! t); apply Hins.
Qed.

Lemma bump_loop_dom (terms : list string) (df : gmap string JsVal) :
  df !! "__proto__" = None ->
  dom (fold_left bump terms df) = dom df ∪ list_to_set (List.filter storable terms)
  /\ fold_left bump terms df !! "__proto__" = None.
Proof.
  revert df. induction terms as [|t terms IH]; intros df Hproto.
  - cbn. split; [|exact Hproto]. rewrite union_empty_r_L. reflexivity.
  - cbn [fold_left]. destruct (bump_dom df t Hproto) as [Hdom Hproto'].
    destruct (IH _ Hproto') as [H1 H2]. split; [|exact H2].
    rewrite H1, Hdom. change (t :: terms) with ([t] ++ terms)%list.
    rewrite List.filter_app, list_to_set_app_L, union_assoc_L. reflexivity.
Qed.

Lemma documentFrequency_fold (skills : list SkillEntry) (df : gmap string JsVal) :
  fold_left (fun df s => fold_left bump (allTerms s) df) skills df
  = fold_left bump (concat (map allTerms skills)) df.
Proof.
  revert df. induction skills as [|s l IH]; intros df; [reflexivity|].
  cbn [fold_left map concat]. rewrite fold_left_app. apply IH.
Qed.

Lemma list_to_set_uniq (l : list string) :
  list_to_set (uniq l) = (list_to_set l : gset string).
Proof.
  apply set_eq. intros x. rewrite !elem_of_list_to_set, !list_elem_of_In.
  apply uniq_In.
Qed.

(** X30: the number of unique terms that [buildCommand] and
    [statusCommand] print for a built index is the number of distinct
    keywords and tokens of its documents, the term "__proto__" left
    out (it never becomes a property of the map). *)
Theorem uniqueTerms_built (now : string) (scanned : list SkillEntry) :
  uniqueTerms (buildIndex now scanned)
  = length (uniq (List.filter storable (concat (map allTerms scanned)))).
Proof.
  unfold uniqueTerms, buildIndex, calculateDocumentFrequency. cbn [documentFrequency].
  rewrite documentFrequency_fold, <- size_dom.
  destruct (bump_loop_dom (concat (map allTerms scanned)) ∅ (lookup_empty _)) as [-> _].
  rewrite dom_empty_L, union_empty_l_L, <- list_to_set_uniq.
  apply size_list_to_set. apply NoDup_ListNoDup, uniq_NoDup.
Qed.

(** ** Configuration from the environment *)

Example parseInt_samples :
  map parseInt ["42"; " -7x"; "+3"; "abc"; ""; "0"; "-0"; "  12.5"; "0x10"]
  = [Some 42%Z; Some (-7)%Z; Some 3%Z; None; None; Some 0%Z; Some 0%Z; Some 12%Z;
     Some 0%Z].
Proof. vm_compute. reflexivity. Qed.

Example readDecimal_samples :
  map readDecimal ["0.75"; " -1.5e2x"; ".5"; "5."; "1e"; "2E-3"; "abc"; "."; "";
                   "-Infinity"; "infinity"]
  = [Scaled false 75 (-2); Scaled true 15 1; Scaled false 5 (-1); Scaled false 5 0;
     Scaled false 1 0; Scaled false 2 (-3); NoDecimal; NoDecimal; NoDecimal;
     Infinite true; NoDecimal].
Proof. vm_compute. reflexivity. Qed.

Example parseFloat_samples :
  parseFloat "0.75" = Fin 0.75
  /\ parseFloat " -1.5e2x" = Fin (-150)
  /\ parseFloat "0" = Fin 0
  /\ parseFloat "" = NaN.
Proof.
  unfold parseFloat.
  replace (readDecimal "0.75") with (Scaled false 75 (-2)) by (vm_compute; reflexivity).
  replace (readDecimal " -1.5e2x") with (Scaled true 15 1) by (vm_compute; reflexivity).
  replace (readDecimal "0") with (Scaled false 0 0) by (vm_compute; reflexivity).
  replace (readDecimal "") with NoDecimal by (vm_compute; reflexivity).
  repeat split; try reflexivity; cbn; f_equal;
    repeat match goal with
           | |- context [Pos.to_nat ?p] =>
               let n := eval vm_compute in (Pos.to_nat p) in
               change (Pos.to_nat p) with n
           end;
    cbn [pow]; lra.
Qed.

Lemma int_or_nonzero (v : option Z) (d : Z) : d <> 0%Z -> int_or v d <> 0%Z.
Proof.
  intros Hd. unfold int_or. destruct v as [n|]; [|exact Hd].
  destruct (Z.eqb_spec n 0); [exact Hd | assumption].
Qed.

Lemma num_or_truthy (v : num) (d : R) :
  d <> 0%R -> num_or v d <> Fin 0 /\ num_or v d <> NaN.
Proof.
  intros Hd. unfold num_or. destruct v as [x| | |].
  - unfold Reqb. destruct (Req_dec_T x 0) as [->|Hx].
    + split; [intros [= H]; contradiction | discriminate].
    + split; [intros [= H]; contradiction | discriminate].
  - split; discriminate.
  - split; discriminate.
  - split; [intros [= H]; contradiction | discriminate].
Qed.

(** X24: whatever the environment holds, [getConfig] never returns 0 for
    [maxResults], and never 0 nor [NaN] for [threshold], [bm25K1] and
    [bm25B]: a value that parses to 0 or to no number is replaced by the
    default. *)
Theorem getConfig_numbers_truthy (env : Env) :
  envMaxResults (getConfig env) <> 0%Z
  /\ (envThreshold (getConfig env) <> Fin 0 /\ envThreshold (getConfig env) <> NaN)
  /\ (envBm25K1 (getConfig env) <> Fin 0 /\ envBm25K1 (getConfig env) <> NaN)
  /\ (envBm25B (getConfig env) <> Fin 0 /\ envBm25B (getConfig env) <> NaN).
Proof.
  unfold getConfig. cbn [envMaxResults envThreshold envBm25K1 envBm25B].
  split; [apply int_or_nonzero; discriminate|].
  repeat split; apply num_or_truthy; cbn; lra.
Qed.

Lemma split_char_names (n : string) (ns : list string) :
  Forall (fun x => all_chars (not_char ",") x = true) (n :: ns) ->
  split_char "," (join ", " (n :: ns)) = n :: map (fun x => " " ++ x) ns.
Proof.
  revert n. induction ns as [|n' ns IH]; intros n H.
  - inversion H; subst. apply split_char_none. assumption.
  - inversion H as [|? ? Hc H']; subst.
    rewrite join_cons.
    change (", " ++ join ", " (n' :: ns)) with (String "," (String " " (join ", " (n' :: ns)))).
    rewrite split_char_app by exact Hc.
    cbn [split_char]. change (Ascii.eqb " " ",") with false. cbn iota.
    rewrite (IH n' H'). reflexivity.
Qed.

(** X25: names without commas and without white space at their ends,
    joined by ", " in SKILL_ROUTER_ALWAYS_INCLUDE, are the [alwaysInclude]
    list of [getConfig], provided the first name is not empty. *)
Theorem getConfig_alwaysInclude (env : Env) (n : string) (ns : list string) :
  Forall (fun x => all_chars (not_char ",") x = true /\ trim x = x) (n :: ns) ->
  n <> EmptyString ->
  SKILL_ROUTER_ALWAYS_INCLUDE env = Some (join ", " (n :: ns)) ->
  envAlwaysInclude (getConfig env) = n :: ns.
Proof.
  intros H Hn Henv. unfold getConfig. cbn [envAlwaysInclude]. rewrite Henv.
  assert (Hjoin : exists c r, join ", " (n :: ns) = String c r).
  { destruct n as [|c r]; [contradiction|]. destruct (join_head ", " c r ns) as [r' Hr].
    exists c, r'. exact Hr. }
  destruct Hjoin as [c [r Hcr]]. rewrite Hcr, <- Hcr.
  rewrite split_char_names.
  2:{ revert H. apply List.Forall_impl. intros x Hx. apply Hx. }
  inversion H as [|? ? [_ Ht] H']; subst. cbn [map]. rewrite Ht. f_equal.
  rewrite map_map. rewrite <- (map_id ns) at 2. apply map_ext_in.
  intros x Hx. rewrite List.Forall_forall in H'. destruct (H' x Hx) as [_ Hx'].
  exact Hx'.
Qed.

Lemma getConfig_alwaysInclude_witness :
  envAlwaysInclude
    (getConfig {| SKILL_ROUTER_MAX_RESULTS := None; SKILL_ROUTER_THRESHOLD := None;
                  SKILL_ROUTER_BM25_K1 := None; SKILL_ROUTER_BM25_B := None;
                  SKILL_ROUTER_ALWAYS_INCLUDE := Some "skill-router, github-pr";
                  SKILL_ROUTER_CONTEXT_PATH := None;
                  SKILL_ROUTER_INDEX_PATH := None |})
  = ["skill-router"; "github-pr"].
Proof.
  apply (getConfig_alwaysInclude _ "skill-router" ["github-pr"]).
  - repeat constructor.
  - discriminate.
  - reflexivity.
Defined.

(** ** Commands *)

(** X26: every document that [statusCommand] lists among the
    always-include skills is in the result of [scoreQuery] for every query
    and every configuration. *)
Theorem statusAlwaysIncludeSkills_returned (idx : SkillIndex) (query : string)
    (config : RouterConfig) :
  Forall (fun n => In n (map (fun r => name (skill r)) (scoreQuery idx query config)))
         (statusAlwaysIncludeSkills idx).
Proof.
  apply List.Forall_forall. intros n Hn. unfold statusAlwaysIncludeSkills in Hn.
  apply in_map_iff in Hn. destruct Hn as [s [<- Hs]].
  apply filter_In in Hs. destruct Hs as [Hs Hflag].
  unfold scoreQuery. rewrite map_app. apply in_or_app. left.
  rewrite alwaysIncludeResults_map, map_map.
  apply in_map_iff. exists s. split; [apply forcedEntry_name|].
  unfold alwaysIncludeSkills. apply filter_In. split; [exact Hs|].
  unfold isAlwaysInclude. rewrite Hflag. reflexivity.
Qed.




(** ** A term of a document retrieves it *)

Lemma own_term_matches (s : SkillEntry) (t : string) :
  In t (keywords s ++ tokens s) -> 0 < getTermFrequency s t.
Proof.
  intros Hin. destruct (getTermFrequency s t) as [|n] eqn:Htf; [|lia].
  exfalso. apply getTermFrequency_zero in Htf. destruct Htf as [Hk Ht].
  apply in_app_or in Hin. destruct Hin as [Hin | Hin]; [|contradiction].
  apply (Hk t Hin). apply includes_spec, includes_refl.
Qed.

Lemma bm25R_pos (k1 b avg : R) (dl tf : nat) :
  (0 <= k1)%R -> (0 <= b <= 1)%R -> (0 < avg)%R -> 0 < tf ->
  (0 < bm25R k1 b avg dl tf)%R.
Proof.
  intros Hk Hb Havg Htf. unfold bm25R.
  pose proof (normR_nonneg k1 b avg dl Hk Hb Havg) as Hn.
  apply lt_0_INR in Htf.
  apply Rdiv_lt_0_compat; [apply Rmult_lt_0_compat; lra | lra].
Qed.

Lemma scoreSkill_own_term (idx : SkillIndex) (k1 b : R) (s : SkillEntry) (t : string) :
  consistent idx ->
  In s (skills idx) ->
  In t (keywords s ++ tokens s) ->
  inherited t = false ->
  (0 <= k1)%R -> (0 <= b <= 1)%R ->
  exists x,
    scoreSkill idx k1 b s [t] = {| skill := s; score := Fin x; matchedKeywords := [t] |}
    /\ (0 < x)%R.
Proof.
  intros Hidx Hs Hin Ht Hk1 Hb.
  pose proof (own_term_matches s t Hin) as Hm.
  pose proof (avgDocLength_pos idx s Hidx Hs (tf_pos_docLength _ _ Hm)) as Havg.
  pose proof (normR_nonneg k1 b _ (getDocLength s) Hk1 Hb Havg) as Hnorm.
  pose proof (lt_0_INR _ Hm) as Htf.
  pose proof (containing_pos t (skills idx) s Hs Hin) as Hn.
  pose proof (idfR_pos (length (skills idx)) _ (containing_le t (skills idx))) as Hidf.
  pose proof (bm25R_pos k1 b (avgDocLength idx) (getDocLength s) _ Hk1 Hb Havg Hm) as Hbm.
  unfold scoreSkill. cbn [fold_left].
  rewrite (scoreTerm_fin idx k1 b s 0 [] t _
             (consistent_documentFrequency idx t Hidx Ht)); [|lra|lra|exact Hm].
  destruct (Nat.eqb_spec (containing t (skills idx)) 0) as [E|_]; [lia|].
  eexists. split; [reflexivity|].
  rewrite Rplus_0_l. apply Rmult_lt_0_compat; assumption.
Qed.

(** X28: in an index with consistent statistics, with [0 <= k1 <= 1000]
    and b between 0 and 1, a query term that is a keyword or token of a
    document (and no property name of [Object.prototype]) gives that
    document a positive score and is its one matched keyword. *)
Theorem scoreSkill_index_term (idx : SkillIndex) (k1 b : R) (s : SkillEntry)
    (t : string) :
  consistent idx ->
  In s (skills idx) ->
  In t (keywords s ++ tokens s) ->
  inherited t = false ->
  (0 <= k1 <= 1000)%R -> (0 <= b <= 1)%R ->
  exists x,
    scoreSkill idx k1 b s [t] = {| skill := s; score := Fin x; matchedKeywords := [t] |}
    /\ (0 < x)%R.
Proof.
  intros Hidx Hs Hin Ht [Hk1 _] Hb. apply scoreSkill_own_term; assumption.
Qed.

Lemma scoreSkill_index_term_witness :
  exists x,
    scoreSkill corpus 1.2 0.75 github_pr ["github"]
    = {| skill := github_pr; score := Fin x; matchedKeywords := ["github"] |}
    /\ (0 < x)%R.
Proof.
  apply scoreSkill_index_term.
  - apply buildIndex_consistent.
  - left. reflexivity.
  - left. reflexivity.
  - reflexivity.
  - lra.
  - lra.
Defined.

(** X29: end to end.  In the index built from scanned directories, a
    word of the description of a skill (any token of it but
    "constructor"), used as the query, gives the skill a positive score and
    is its one matched keyword, for [0 <= k1 <= 1000] and b between 0 and
    1. *)
Theorem description_word_retrieves (now : string)
    (directories : list (option (list DirEntry))) (k1 b : R)
    (s : SkillEntry) (word : string) :
  In s (skills (buildIndex now (scanAllSkillDirectories directories))) ->
  In word (tokenize (description s)) ->
  word <> "constructor" ->
  (0 <= k1 <= 1000)%R -> (0 <= b <= 1)%R ->
  exists x,
    scoreSkill (buildIndex now (scanAllSkillDirectories directories)) k1 b s
               (tokenizeQuery word)
    = {| skill := s; score := Fin x; matchedKeywords := [word] |}
    /\ (0 < x)%R.
Proof.
  intros Hs Hword Hne [Hk1 _] Hb.
  pose proof (tokenize_wellformed (description s)) as Hwf.
  rewrite List.Forall_forall in Hwf. destruct (Hwf word Hword) as [Hlen [Hstop Hc]].
  unfold tokenizeQuery. rewrite (tokenize_token word Hlen Hstop Hc).
  assert (Hscanned : scanned_entry s).
  { pose proof (scanAllSkillDirectories_scanned directories) as H.
    rewrite List.Forall_forall in H. apply H. exact Hs. }
  destruct Hscanned as [_ [_ [_ [_ [Hkw _]]]]].
  apply scoreSkill_own_term; try assumption.
  - apply buildIndex_consistent.
  - apply in_or_app. left. apply Hkw, Hword.
  - destruct (inherited word) eqn:Hi; [|reflexivity].
    exfalso. apply Hne. apply (inherited_term word Hi Hc).
Qed.

Lemma description_word_retrieves_witness :
  exists x,
    scoreSkill (buildIndex EmptyString
                  (scanAllSkillDirectories [Some [github_dir; database_dir]]))
               1.2 0.75
               (skillEntryOf "/skills/github-pr"
                  {| frontmatter := {| fmName := Some "github-pr";
                                       fmDescription := Some "Creates GitHub pull requests";
                                       fmTools := None; fmAlways := None |};
                     content := "Opens a PR." ++ newline ++ newline ++ "## Keywords"
                                ++ newline ++ newline ++ "pr, merge" ++ newline |})
               (tokenizeQuery "github")
    = {| skill := skillEntryOf "/skills/github-pr"
                    {| frontmatter := {| fmName := Some "github-pr";
                                         fmDescription := Some "Creates GitHub pull requests";
                                         fmTools := None; fmAlways := None |};
                       content := "Opens a PR." ++ newline ++ newline ++ "## Keywords"
                                  ++ newline ++ newline ++ "pr, merge" ++ newline |};
         score := Fin x; matchedKeywords := ["github"] |}
    /\ (0 < x)%R.
Proof.
  apply description_word_retrieves.
  - left. reflexivity.
  - vm_compute. tauto.
  - discriminate.
  - lra.
  - lra.
Defined.

(** ** Witnesses on the samples *)

Ltac plain_keywords :=
  repeat (constructor; [split; [cbn; lia | split; reflexivity]|]);
  constructor.

Ltac distinct_strings :=
  repeat (constructor; [cbn; intuition discriminate|]); constructor.

Lemma extractKeywordsSection_commas_witness :
  extractKeywordsSection
    (("# Some Content" ++ newline ++ newline)
       ++ "## Keywords" ++ newline ++ newline
       ++ join ", " ["github"; "Pull Request"; "code review"] ++ newline
       ++ (newline ++ "## Other Section" ++ newline))
  = map toLowerCase ["github"; "Pull Request"; "code review"].
Proof.
  apply extractKeywordsSection_commas.
  - reflexivity.
  - right. right. right. reflexivity.
  - plain_keywords.
  - reflexivity.
  - distinct_strings.
Defined.

Lemma extractKeywordsSection_bullets_witness :
  extractKeywordsSection
    (EmptyString ++ "## Keywords" ++ newline ++ newline
       ++ join newline (map (fun k => "- " ++ k) ["github"; "pull request"; "code review"])
       ++ newline ++ EmptyString)
  = map toLowerCase ["github"; "pull request"; "code review"].
Proof.
  apply extractKeywordsSection_bullets.
  - reflexivity.
  - left. reflexivity.
  - plain_keywords.
  - distinct_strings.
Defined.


Lemma scanSkillDirectory_stat_failure_witness :
  scanSkillDirectory (Some ([github_dir] ++ dangling_link :: [database_dir]))%list
  = scanSkillDirectory (Some [github_dir]).
Proof. apply scanSkillDirectory_stat_failure. reflexivity. Defined.

Lemma documentFrequency_ordinary_terms_witness :
  documentFrequency (buildIndex EmptyString (skills shared_corpus)) !! "shared"
  = entry_of_count (containing "shared" (skills shared_corpus)).
Proof. apply documentFrequency_ordinary_terms. reflexivity. Defined.

Lemma calculateIDF_ordinary_term_witness :
  exists x,
    calculateIDF shared_corpus "shared" = Fin x
    /\ (0 <= x)%R
    /\ ((0 < x)%R <-> 0 < containing "shared" (skills shared_corpus)).
Proof.
  apply calculateIDF_ordinary_term; [apply buildIndex_consistent | reflexivity].
Defined.
